(** * walk_nas: the NAS directory walker and its renderers

    A shallow embedding of [src/nas_walker.py] (class [NASWalker]):
    [scan_directory], [save_results], [_write_text_format] and
    [_write_markdown_format], with the properties of the tree they build
    and of the text they write. The functions of Python's library the
    code calls ([os.path], [stat], [oct], [json.dump], and [json.load] for
    the round trip of the structured output) are modelled next to it;
    the SFTP client, the clock and the sink written to are parameters.

    Conventions.
    - A Python [str] is a Rocq [string] holding its UTF-8 encoding (the
      files are opened with [encoding='utf-8']).
    - A Python [int] is a [Z].
    - A Python [dict] with string keys is an association list in insertion
      order (the order [json.dump] writes the keys in).
    - An exception is a value; only the two observations the code makes of it
      are modelled: whether it is a [PermissionError], and [str(e)]. *)

From Stdlib Require Import String Ascii ZArith List Bool Lia.
From Stdlib Require Import DecimalString DecimalPos DecimalZ.
Import ListNotations.

Local Open Scope string_scope.
Local Open Scope list_scope.
Local Open Scope Z_scope.

(* ================================================================== *)
(** * Python values *)
(* ================================================================== *)

#[local] Unset Elimination Schemes.
Inductive value : Type :=
| VNone
| VBool (b : bool)
| VInt (z : Z)
| VStr (s : string)
| VList (l : list value)
| VDict (d : list (string * value)).
#[local] Set Elimination Schemes.

Infix "^^" := String.append (at level 60, right associativity).

(** The line terminator written by the renderers. *)
Definition nl : string := String (ascii_of_nat 10) EmptyString.

(** [d.get(k)], [None] when the key is absent. *)
Fixpoint dict_get (k : string) (d : list (string * value)) : option value :=
  match d with
  | [] => None
  | (k', v) :: rest => if String.eqb k k' then Some v else dict_get k rest
  end.

(** [d[k] = v]: an existing key keeps its place, a new one goes last. *)
Fixpoint dict_set (k : string) (v : value) (d : list (string * value)) : list (string * value) :=
  match d with
  | [] => [(k, v)]
  | (k', v') :: rest =>
      if String.eqb k k' then (k', v) :: rest else (k', v') :: dict_set k v rest
  end.

Definition dict_keys (d : list (string * value)) : list string := map fst d.

(** [k in data] and [data.get(k)] on a value that is a dict. *)
Definition field (k : string) (data : value) : option value :=
  match data with
  | VDict d => dict_get k d
  | _ => None
  end.

Definition has_key (k : string) (data : value) : bool :=
  match field k data with Some _ => true | None => false end.

(** [v == s] for a string literal [s]: only an equal [str] compares equal. *)
Definition eq_str (v : value) (s : string) : bool :=
  match v with
  | VStr s' => String.eqb s' s
  | _ => false
  end.

(** Truthiness, as [if v:] and [a and b] test it. *)
Definition truthy (v : value) : bool :=
  match v with
  | VNone => false
  | VBool b => b
  | VInt z => negb (z =? 0)
  | VStr s => negb (String.eqb s "")
  | VList l => match l with [] => false | _ => true end
  | VDict d => match d with [] => false | _ => true end
  end.

(* ================================================================== *)
(** * Library functions the walker calls *)
(* ================================================================== *)

(** [os.path.basename] and [os.path.join] of [posixpath]: the separator
    is ["/"]. *)
Definition is_sep (c : ascii) : bool := Ascii.eqb c "/"%char.

(** [p[p.rfind('/') + 1:]]: [acc] is the part after the last separator
    seen so far. *)
Fixpoint basename_from (p acc : string) : string :=
  match p with
  | EmptyString => acc
  | String c r => if is_sep c then basename_from r r else basename_from r acc
  end.

Definition basename (p : string) : string := basename_from p p.

Definition startswith_sep (s : string) : bool :=
  match s with
  | String c _ => is_sep c
  | EmptyString => false
  end.

Fixpoint endswith_sep (s : string) : bool :=
  match s with
  | EmptyString => false
  | String c EmptyString => is_sep c
  | String _ r => endswith_sep r
  end.

(** [os.path.join(a, b)] with one component [b]. *)
Definition join (a b : string) : string :=
  if startswith_sep b then b
  else if String.eqb a "" || endswith_sep a then a ^^ b
  else a ^^ "/" ^^ b.

(** [oct(n)]: ["0o"] and the octal digits, with a leading ["-"] for a
    negative number. *)
Fixpoint oct_pos (p : positive) : string :=
  match p with
  | xH => "1"
  | xO xH => "2"
  | xI xH => "3"
  | xO (xO xH) => "4"
  | xI (xO xH) => "5"
  | xO (xI xH) => "6"
  | xI (xI xH) => "7"
  | xO (xO (xO q)) => oct_pos q ^^ "0"
  | xI (xO (xO q)) => oct_pos q ^^ "1"
  | xO (xI (xO q)) => oct_pos q ^^ "2"
  | xI (xI (xO q)) => oct_pos q ^^ "3"
  | xO (xO (xI q)) => oct_pos q ^^ "4"
  | xI (xO (xI q)) => oct_pos q ^^ "5"
  | xO (xI (xI q)) => oct_pos q ^^ "6"
  | xI (xI (xI q)) => oct_pos q ^^ "7"
  end.

Definition oct (n : Z) : string :=
  match n with
  | Z0 => "0o0"
  | Zpos p => "0o" ^^ oct_pos p
  | Zneg p => "-0o" ^^ oct_pos p
  end.

(** [s[-n:]] for [n > 0]: the last [n] characters, all of [s] when it is
    shorter. *)
Definition last_chars (n : nat) (s : string) : string :=
  String.substring (String.length s - n) n s.

(** [str(n)] of an [int]: its decimal digits. *)
Definition str_int (n : Z) : string :=
  NilZero.string_of_int (Z.to_int n).

(** [s * n]: [n] copies of [s], none when [n <= 0]. *)
Fixpoint repeat_string_nat (s : string) (n : nat) : string :=
  match n with
  | O => ""
  | S n' => s ^^ repeat_string_nat s n'
  end.

Definition repeat_string (s : string) (n : Z) : string :=
  repeat_string_nat s (Z.to_nat n).

(* ================================================================== *)
(** * The remote side: the SFTP client, the clock, exceptions *)
(* ================================================================== *)

(** One [paramiko.SFTPAttributes]. The numeric attributes are [None] when
    the server did not send them. *)
Record SFTPAttributes : Type := mkAttr {
  filename : string;
  st_mode : option Z;
  st_size : option Z;
  st_mtime : option Z;
  st_uid : option Z;
  st_gid : option Z
}.

(** What [scan_directory] consumes from outside the repository. Exceptions
    are those deriving from [Exception], the only ones the walker handles;
    [World] is the state of the remote end and of the clock, so that a
    lister may answer the same path differently on every call. *)
Class Remote : Type := {
  exn : Type;
  (** [isinstance(e, PermissionError)] *)
  is_PermissionError : exn -> bool;
  (** [str(e)] *)
  str_exn : exn -> string;
  World : Type;
  (** [self.sftp_client.listdir_attr(path)] *)
  listdir_attr : string -> World -> (exn + list SFTPAttributes) * World;
  (** [datetime.now().isoformat()] *)
  now_isoformat : World -> string * World;
  (** [datetime.fromtimestamp(t).isoformat()]; fails on [None] or on a
      time stamp outside the platform's range. *)
  fromtimestamp_isoformat : option Z -> exn + string;
  (** the [TypeError] of [stat.S_ISDIR(None)] *)
  S_ISDIR_TypeError : exn
}.

Definition value_of_attr (a : option Z) : value :=
  match a with
  | Some z => VInt z
  | None => VNone
  end.

(* ================================================================== *)
(** * scan_directory *)
(* ================================================================== *)

Section Walker.
Context {R : Remote}.

(** [stat.S_ISDIR(mode)]: [(mode & 0o170000) == 0o040000] for the unsigned
    32-bit modes SFTP carries; on [None] it raises a [TypeError]. *)
Definition S_ISDIR (mode : option Z) : exn + bool :=
  match mode with
  | None => inl S_ISDIR_TypeError
  | Some m => inr (Z.land m 61440 =? 16384)
  end.

(** The message an [except] clause stores: a fixed text for a
    [PermissionError], [str(e)] for any other exception. *)
Definition permission_message : string := "权限不足".

Definition error_message (e : exn) : string :=
  if is_PermissionError e then permission_message else str_exn e.

Definition error_node (name path : string) (e : exn) : value :=
  VDict [("type", VStr "error"); ("name", VStr name); ("path", VStr path);
         ("error", VStr (error_message e))].

(** The node the entry guard returns (line 151): it has no path. *)
Definition guard_node (remote_path : string) : value :=
  VDict [("type", VStr "directory"); ("name", VStr (basename remote_path));
         ("truncated", VBool true)].

(** The node a parent appends for a directory at the bound (lines 180-185). *)
Definition truncated_node (name path : string) : value :=
  VDict [("type", VStr "directory"); ("name", VStr name); ("path", VStr path);
         ("truncated", VBool true)].

(** [item.st_mode] where it is known to be an [int]: after [S_ISDIR]
    returned. *)
Definition mode_of (mode : option Z) : Z :=
  match mode with
  | Some m => m
  | None => 0
  end.

(** The [file_info] literal (lines 188-197); the only element that can raise
    is the conversion of the modification time. *)
Definition file_info (item : SFTPAttributes) (item_path : string)
  : exn + value :=
  match fromtimestamp_isoformat (st_mtime item) with
  | inl e => inl e
  | inr modified =>
      inr (VDict [("type", VStr "file"); ("name", VStr (filename item));
                  ("path", VStr item_path);
                  ("size", value_of_attr (st_size item));
                  ("modified", VStr modified);
                  ("permissions",
                   VStr (last_chars 3 (oct (mode_of (st_mode item)))));
                  ("owner", value_of_attr (st_uid item));
                  ("group", value_of_attr (st_gid item))])
  end.

Definition is_dot (name : string) : bool :=
  String.eqb name "." || String.eqb name "..".

(** The [for item in items] loop (lines 167-215). [rec] is the recursive
    call, [acc] is [result["items"]]. *)
Fixpoint scan_items (rec : string -> Z -> World -> option (value * World))
    (remote_path : string) (max_depth current_depth : Z)
    (items : list SFTPAttributes) (acc : list value) (w : World)
  : option (list value * World) :=
  match items with
  | [] => Some (acc, w)
  | item :: rest =>
      if is_dot (filename item) then
        scan_items rec remote_path max_depth current_depth rest acc w
      else
        let item_path := join remote_path (filename item) in
        match S_ISDIR (st_mode item) with
        | inl e =>
            scan_items rec remote_path max_depth current_depth rest
              (acc ++ [error_node (filename item) item_path e]) w
        | inr true =>
            if current_depth <? max_depth then
              match rec item_path (current_depth + 1) w with
              | None => None
              | Some (sub_result, w') =>
                  scan_items rec remote_path max_depth current_depth rest
                    (acc ++ [sub_result]) w'
              end
            else
              scan_items rec remote_path max_depth current_depth rest
                (acc ++ [truncated_node (filename item) item_path]) w
        | inr false =>
            match file_info item item_path with
            | inl e =>
                scan_items rec remote_path max_depth current_depth rest
                  (acc ++ [error_node (filename item) item_path e]) w
            | inr info =>
                scan_items rec remote_path max_depth current_depth rest
                  (acc ++ [info]) w
            end
        end
  end.

(** [basename(remote_path) or "/"] *)
Definition name_or_root (remote_path : string) : string :=
  if String.eqb (basename remote_path) "" then "/" else basename remote_path.

(** [scan_directory], with a bound on the nesting of recursive calls;
    [None] only when the bound is reached. *)
Fixpoint scan_directory_fuel (fuel : nat) (remote_path : string)
    (max_depth current_depth : Z) (w : World) : option (value * World) :=
  match fuel with
  | O => None
  | S fuel' =>
      if current_depth >? max_depth then Some (guard_node remote_path, w)
      else
        match listdir_attr remote_path w with
        | (inl e, w1) =>
            Some (error_node (basename remote_path) remote_path e, w1)
        | (inr items, w1) =>
            let (scan_time, w2) := now_isoformat w1 in
            match scan_items (fun p d => scan_directory_fuel fuel' p max_depth d)
                    remote_path max_depth current_depth items [] w2 with
            | None => None
            | Some (its, w3) =>
                let result :=
                  [("type", VStr "directory");
                   ("name", VStr (name_or_root remote_path));
                   ("path", VStr remote_path);
                   ("items", VList its);
                   ("item_count", VInt 0);
                   ("scan_time", VStr scan_time)] in
                Some (VDict (dict_set "item_count"
                               (VInt (Z.of_nat (length its))) result), w3)
            end
        end
  end.

(** The recursion goes one level deeper only while
    [current_depth < max_depth], so this many nested calls are enough. *)
Definition scan_directory (remote_path : string) (max_depth current_depth : Z)
    (w : World) : option (value * World) :=
  scan_directory_fuel (S (Z.to_nat (max_depth - current_depth)))
    remote_path max_depth current_depth w.

End Walker.

(* ================================================================== *)
(** * The tree of a scan result *)
(* ================================================================== *)

(** The children of a node: the elements of its [items] list. *)
Definition node_children (n : value) : list value :=
  match field "items" n with
  | Some (VList l) => l
  | _ => []
  end.

Definition is_directory (n : value) : bool :=
  match field "type" n with
  | Some t => eq_str t "directory"
  | None => false
  end.

(** [at_depth root d n]: node [n] occurs in the tree of [root] at depth
    [d], the root being at depth 0. *)
Inductive at_depth : value -> nat -> value -> Prop :=
| at_root : forall r, at_depth r 0 r
| at_child : forall r c d n,
    In c (node_children r) -> at_depth c d n -> at_depth r (S d) n.

(** The recorded count of a directory agrees with its list of items. *)
Definition count_agrees (n : value) : Prop :=
  forall l, field "items" n = Some (VList l) ->
            field "item_count" n = Some (VInt (Z.of_nat (length l))).

(** A directory whose descent was stopped: [truncated] is [True] and it
    has no list of items. *)
Definition is_truncated (n : value) : Prop :=
  field "truncated" n = Some (VBool true) /\ field "items" n = None.

(** A directory that was listed: it carries a list of items and no
    [truncated] mark. *)
Definition is_listed (n : value) : Prop :=
  (exists l, field "items" n = Some (VList l)) /\ field "truncated" n = None.

Section WalkerShapes.
Context {R : Remote}.

(** The node of a directory whose listing succeeded (lines 157-164, 217). *)
Definition listed_node (remote_path : string) (its : list value)
    (scan_time : string) : value :=
  VDict [("type", VStr "directory");
         ("name", VStr (name_or_root remote_path));
         ("path", VStr remote_path);
         ("items", VList its);
         ("item_count", VInt (Z.of_nat (length its)));
         ("scan_time", VStr scan_time)].

(** [scan_tree max_depth d n]: [n] is a tree that a call at depth [d] may
    return or that a parent at depth [d - 1] may append. *)
Inductive scan_tree (max_depth : Z) : Z -> value -> Prop :=
| st_error : forall d name path e,
    d <= max_depth + 1 ->
    scan_tree max_depth d (error_node name path e)
| st_file : forall d item item_path info,
    d <= max_depth + 1 ->
    file_info item item_path = inr info ->
    scan_tree max_depth d info
| st_truncated : forall d name path,
    d = max_depth + 1 ->
    scan_tree max_depth d (truncated_node name path)
| st_listed : forall d path its scan_time,
    d <= max_depth ->
    (forall c, In c its -> scan_tree max_depth (d + 1) c) ->
    scan_tree max_depth d (listed_node path its scan_time).

(** What the loop appends for one entry of the listing of [remote_path],
    scanned at depth [current_depth]: exactly one node, decided by that
    entry alone. *)
Inductive entry_node (remote_path : string) (max_depth current_depth : Z)
  : SFTPAttributes -> value -> Prop :=
| en_mode_fault : forall item e,
    S_ISDIR (st_mode item) = inl e ->
    entry_node remote_path max_depth current_depth item
      (error_node (filename item) (join remote_path (filename item)) e)
| en_descend : forall item w sub w',
    S_ISDIR (st_mode item) = inr true ->
    current_depth < max_depth ->
    scan_directory (join remote_path (filename item)) max_depth
      (current_depth + 1) w = Some (sub, w') ->
    entry_node remote_path max_depth current_depth item sub
| en_truncated : forall item,
    S_ISDIR (st_mode item) = inr true ->
    max_depth <= current_depth ->
    entry_node remote_path max_depth current_depth item
      (truncated_node (filename item) (join remote_path (filename item)))
| en_file : forall item info,
    S_ISDIR (st_mode item) = inr false ->
    file_info item (join remote_path (filename item)) = inr info ->
    entry_node remote_path max_depth current_depth item info
| en_file_fault : forall item e,
    S_ISDIR (st_mode item) = inr false ->
    file_info item (join remote_path (filename item)) = inl e ->
    entry_node remote_path max_depth current_depth item
      (error_node (filename item) (join remote_path (filename item)) e).

(** The entries that are materialized: all but [.] and [..]. *)
Definition listed_entries (items : list SFTPAttributes) : list SFTPAttributes :=
  filter (fun item => negb (is_dot (filename item))) items.

End WalkerShapes.

(* ================================================================== *)
(** * A small remote tree, for the scenarios of the specification *)
(* ================================================================== *)

(** [/] holds the directory [root]; [/root] holds the directories [A] and
    [B] and the empty file [g.log]; [/root/A] holds [f.txt] of 2 MiB;
    listing [/root/B] is refused; any other path does not exist. *)
Module Scenario.

Inductive fault : Type :=
| EACCES   (* PermissionError: [Errno 13] Permission denied *)
| ENOENT   (* FileNotFoundError: [Errno 2] No such file *)
| ETYPE.   (* TypeError *)

Definition directory_entry (name : string) : SFTPAttributes :=
  mkAttr name (Some 16877) (Some 4096) (Some 1704067200) (Some 1000) (Some 1000).

Definition file_entry (name : string) (size : Z) : SFTPAttributes :=
  mkAttr name (Some 33188) (Some size) (Some 1704067200) (Some 1000) (Some 1000).

Definition listing (path : string) : fault + list SFTPAttributes :=
  if String.eqb path "/" then inr [directory_entry "root"]
  else if String.eqb path "/root" then
    inr [directory_entry "."; directory_entry ".."; directory_entry "A";
         directory_entry "B"; file_entry "g.log" 0]
  else if String.eqb path "/root/A" then inr [file_entry "f.txt" 2097152]
  else if String.eqb path "/root/B" then inl EACCES
  else inl ENOENT.

#[export] Instance remote : Remote := {|
  exn := fault;
  is_PermissionError := fun e => match e with EACCES => true | _ => false end;
  str_exn := fun e =>
    match e with
    | EACCES => "[Errno 13] Permission denied"
    | ENOENT => "[Errno 2] No such file"
    | ETYPE => "an integer is required"
    end;
  World := unit;
  listdir_attr := fun path w => (listing path, w);
  now_isoformat := fun w => ("2024-01-01T00:00:00", w);
  fromtimestamp_isoformat := fun t =>
    match t with
    | Some _ => inr "2024-01-01T00:00:00"
    | None => inl ETYPE
    end;
  S_ISDIR_TypeError := ETYPE
|}.

Definition file_node (name path : string) (size : Z) : value :=
  VDict [("type", VStr "file"); ("name", VStr name); ("path", VStr path);
         ("size", VInt size); ("modified", VStr "2024-01-01T00:00:00");
         ("permissions", VStr "644"); ("owner", VInt 1000);
         ("group", VInt 1000)].

Definition directory_node (name path : string) (its : list value) : value :=
  VDict [("type", VStr "directory"); ("name", VStr name); ("path", VStr path);
         ("items", VList its); ("item_count", VInt (Z.of_nat (length its)));
         ("scan_time", VStr "2024-01-01T00:00:00")].

(** The tree of the first end-to-end scenario: [root] with [A] (holding
    [f.txt]) and [g.log]. *)
Definition tree_A_g : value :=
  directory_node "root" "/root"
    [directory_node "A" "/root/A" [file_node "f.txt" "/root/A/f.txt" 2097152];
     file_node "g.log" "/root/g.log" 0].

End Scenario.

(* ================================================================== *)
(** * The claims of the specification that the code does not meet,
      as the specification words them *)
(* ================================================================== *)

(** "Every Directory at exactly [maxDepth] depth has [truncated = true] and
    no children." *)
Definition truncated_at_max_depth (max_depth : Z) (root : value) : Prop :=
  forall n, at_depth root (Z.to_nat max_depth) n ->
            is_directory n = true ->
            field "truncated" n = Some (VBool true) /\ node_children n = [].

(** "A listing fault with a permission-denied condition on path [/root/B]
    yields an Error node [{name: "B", path: "/root/B", message: "permission
    denied"}]." *)
Definition permission_denied_node_as_specified : value :=
  VDict [("type", VStr "error"); ("name", VStr "B"); ("path", VStr "/root/B");
         ("error", VStr "permission denied")].

(* ================================================================== *)
(** * Writing to a file handle *)
(* ================================================================== *)

(** How a renderer ends: it returns, or an exception leaves it. Which
    exception is of no consequence: [save_results] catches them all. *)
Inductive outcome : Type :=
| Done
| Raised.

(** A file handle is the list of the texts written to it so far, one per
    successful [write] call. Whether a [write] fails (a full disk, a closed
    pipe) is the sink's choice: [fault so_far text] tells whether writing
    [text] after [so_far] raises. *)
Definition sink : Type := list string -> string -> bool.

(** A sink that never fails. *)
Definition reliable : sink := fun _ _ => false.

Definition writer : Type := list string -> outcome * list string.

Definition write (fault : sink) (text : string) : writer :=
  fun out => if fault out text then (Raised, out) else (Done, out ++ [text]).

Definition skip : writer := fun out => (Done, out).

Definition raise : writer := fun out => (Raised, out).

(** Sequencing: the second writer runs only if the first returned. *)
Definition andthen (m1 m2 : writer) : writer :=
  fun out =>
    match m1 out with
    | (Done, out') => m2 out'
    | (Raised, out') => (Raised, out')
    end.

Notation "m1 ;; m2" := (andthen m1 m2) (at level 61, right associativity).

(** The writes of a list of texts, in order. *)
Fixpoint write_all (fault : sink) (texts : list string) : writer :=
  match texts with
  | [] => skip
  | t :: rest => write fault t ;; write_all fault rest
  end.

(* ================================================================== *)
(** * Formatting *)
(* ================================================================== *)

(** [str(v)], as an f-string interpolates a value. For a list or a dict
    it is [repr], which the model takes from outside. *)
Definition py_str (repr : value -> string) (v : value) : string :=
  match v with
  | VNone => "None"
  | VBool true => "True"
  | VBool false => "False"
  | VInt z => str_int z
  | VStr s => s
  | VList _ | VDict _ => repr v
  end.

Definition MiB : Z := 1024 * 1024.

(** [bool] is a subclass of [int]: [True] is 1 and [False] is 0. *)
Definition int_of_bool (b : bool) : Z := if b then 1 else 0.

(** Round [a / b] to the nearest integer, ties to even ([0 <= a], [0 < b]). *)
Definition round_half_even (a b : Z) : Z :=
  let q := a / b in
  let r := a mod b in
  if (2 * r >? b) || ((2 * r =? b) && Z.odd q) then q + 1 else q.

(** The nearest integer to [n >= 0] that has at most 53 significant bits,
    ties to even: the significand of a double. *)
Definition round_to_53_bits (n : Z) : Z :=
  let e := Z.log2 n - 52 in
  if e <=? 0 then n else Z.shiftl (round_half_even n (2 ^ e)) e.

(** [n / (1024 * 1024)] for an [int] [n]: Python's true division gives the
    double nearest to the quotient. Dividing by a power of two only moves
    the exponent, so that double is [m / 2^20] with [m] the rounding of [n]
    to 53 bits; the model keeps [m], signed. The division raises
    [OverflowError] when the result would reach [2^1024]. *)
Definition div_MiB (n : Z) : option Z :=
  let m := round_to_53_bits (Z.abs n) in
  if 2 ^ 1044 <=? m then None else Some (Z.sgn n * m).

(** [data.get("size", 0) / (1024 * 1024)]: division is defined on [int] and
    on [bool]; on any other value it raises [TypeError]. *)
Definition size_mb (size : option value) : option Z :=
  match size with
  | None => div_MiB 0
  | Some (VInt n) => div_MiB n
  | Some (VBool b) => div_MiB (int_of_bool b)
  | Some _ => None
  end.

Definition two_digits (k : Z) : string := str_int (k / 10) ^^ str_int (k mod 10).

(** [f"{x:.2f}"] for the double [x = m / 2^20]: the exact value rounded to
    two decimals, ties to even, a negative sign kept. *)
Definition format_2f (m : Z) : string :=
  let q := round_half_even (Z.abs m * 100) MiB in
  (if m <? 0 then "-" else "") ^^ str_int (q / 100) ^^ "." ^^ two_digits (q mod 100).

(* ================================================================== *)
(** * The renderers *)
(* ================================================================== *)

Section Renderers.
Variable fault : sink.
Variable repr : value -> string.

#[local] Abbreviation str := (py_str repr).
#[local] Abbreviation emit := (write fault).

(** [data[k]] inside an f-string: [KeyError] when absent. *)
Definition emit_with (v : option value) (line : string -> string) : writer :=
  match v with
  | Some x => emit (line (str x))
  | None => raise
  end.

Definition get_default (k : string) (d : list (string * value)) (default : string)
  : string :=
  match dict_get k d with
  | Some v => str v
  | None => default
  end.

(** [present(d[k]) if k in d else absent]. The value is handed on as it is
    found, walking the pairs, which lets the renderers recurse into it;
    [with_item_get] states it with [dict_get]. *)
Definition with_item (k : string) (absent : writer) (present : value -> writer)
  : list (string * value) -> writer :=
  fix lookup (d : list (string * value)) : writer :=
    match d with
    | [] => absent
    | (k', v) :: rest => if String.eqb k k' then present v else lookup rest
    end.

Definition each_item (render : value -> writer) : list value -> writer :=
  fix each (items : list value) : writer :=
    match items with
    | [] => skip
    | item :: more => render item ;; each more
    end.

(** [for item in v: render(item)], for a truthy [v] and a [render] that
    starts with [item["type"]]. A list is walked. Anything else raises: an
    [int] or a [bool] is not iterable, and the first element of a non-empty
    [str] or [dict] is a [str], on which [item["type"]] raises. *)
Definition for_each (v : value) (render : value -> writer) : writer :=
  match v with
  | VList items => each_item render items
  | _ => raise
  end.

(** [_write_text_format] (lines 290-303). *)
Fixpoint _write_text_format (data : value) (indent : Z) {struct data} : writer :=
  let prefix := repeat_string "  " indent in
  match data with
  | VDict d =>
      match dict_get "type" d with
      | None => raise
      | Some type =>
          if eq_str type "directory" then
            emit_with (dict_get "name" d)
              (fun name => prefix ^^ "[DIR] " ^^ name ^^ nl) ;;
            with_item "items" skip
              (fun items =>
                 if truthy items then
                   for_each items
                     (fun item => _write_text_format item (indent + 1))
                 else skip) d
          else if eq_str type "file" then
            match size_mb (dict_get "size" d) with
            | None => raise
            | Some mb =>
                emit_with (dict_get "name" d)
                  (fun name =>
                     prefix ^^ "[FILE] " ^^ name ^^ " (" ^^ format_2f mb ^^ " MB)" ^^ nl)
            end
          else if eq_str type "error" then
            emit_with (dict_get "name" d)
              (fun name =>
                 prefix ^^ "[ERROR] " ^^ name ^^ " - "
                   ^^ get_default "error" d "未知错误" ^^ nl)
          else skip
      end
  | _ => raise
  end.

(** ** The report renderer *)

(** [min(indent + 2, 6)] and ["#" * heading_level] (lines 326-327). *)
Definition heading_level (indent : Z) : Z := Z.min (indent + 2) 6.

Definition heading_marker (indent : Z) : string :=
  repeat_string "#" (heading_level indent).

Definition directory_heading (indent : Z) (name : string) : string :=
  heading_marker indent ^^ " 📁 " ^^ name ^^ nl ^^ nl.

(** [f"{size_mb:.2f} MB" if size_mb > 0 else "0 B"] *)
Definition size_str (mb : Z) : string :=
  if mb >? 0 then format_2f mb ^^ " MB" else "0 B".

(** The title, the scan time and the system information, written when
    [indent == 0] (lines 307-321). [data.get] raises on anything but a
    dict, after the title is written; [write] raises on anything but a
    [str]. *)
Definition report_preamble (data : value) : writer :=
  emit ("# NAS目录结构报告" ^^ nl ^^ nl) ;;
  match data with
  | VDict d =>
      emit ("**扫描时间**: " ^^ get_default "scan_time" d "未知" ^^ nl ^^ nl) ;;
      match dict_get "system_info" d with
      | None => skip
      | Some sys_info =>
          emit ("## 系统信息" ^^ nl ^^ nl) ;;
          match sys_info with
          | VDict si =>
              emit ("**操作系统**: " ^^ get_default "system" si "未知" ^^ nl ^^ nl) ;;
              emit ("### 磁盘使用情况" ^^ nl ^^ nl) ;;
              emit ("```" ^^ nl) ;;
              match dict_get "disk_usage" si with
              | None => emit "未知"
              | Some (VStr text) => emit text
              | Some _ => raise
              end ;;
              emit (nl ^^ "```" ^^ nl ^^ nl)
          | _ => raise
          end
      end ;;
      emit ("## 目录结构" ^^ nl ^^ nl)
  | _ => raise
  end.

(** One row of a directory's table (lines 336-343). *)
Definition table_row (item : value) : writer :=
  match item with
  | VDict d =>
      match dict_get "type" d with
      | None => raise
      | Some type =>
          if eq_str type "file" then
            match size_mb (dict_get "size" d) with
            | None => raise
            | Some mb =>
                emit_with (dict_get "name" d)
                  (fun name =>
                     "| 📄 文件 | " ^^ name ^^ " | " ^^ size_str mb ^^ " | "
                       ^^ get_default "modified" d "未知" ^^ " | "
                       ^^ get_default "permissions" d "000" ^^ " |" ^^ nl)
            end
          else if eq_str type "directory" then
            emit_with (dict_get "name" d)
              (fun name => "| 📁 目录 | " ^^ name ^^ " | - | - | - |" ^^ nl)
          else if eq_str type "error" then
            emit_with (dict_get "name" d)
              (fun name =>
                 "| ❌ 错误 | " ^^ name ^^ " | - | - | "
                   ^^ get_default "error" d "未知错误" ^^ " |" ^^ nl)
          else skip
      end
  | _ => raise
  end.

(** [for item in data["items"]:] the rows of the table. *)
Definition table_rows (items : list value) : writer :=
  each_item table_row items.

(** [data['path']] and the other items of a file or an error written on
    its own (lines 352-367). *)
Definition file_details (d : list (string * value)) : writer :=
  match size_mb (dict_get "size" d) with
  | None => raise
  | Some mb =>
      emit_with (dict_get "name" d)
        (fun name => "- **📄 " ^^ name ^^ "** (" ^^ size_str mb ^^ ")" ^^ nl) ;;
      emit_with (dict_get "path" d)
        (fun path => "  - 路径: `" ^^ path ^^ "`" ^^ nl) ;;
      emit ("  - 修改时间: " ^^ get_default "modified" d "未知" ^^ nl) ;;
      emit ("  - 权限: " ^^ get_default "permissions" d "000" ^^ nl) ;;
      emit ("  - 所有者: " ^^ get_default "owner" d "未知" ^^ nl) ;;
      emit ("  - 组: " ^^ get_default "group" d "未知" ^^ nl ^^ nl)
  end.

Definition error_details (d : list (string * value)) : writer :=
  emit_with (dict_get "name" d) (fun name => "- **❌ " ^^ name ^^ "**" ^^ nl) ;;
  emit_with (dict_get "path" d)
    (fun path => "  - 路径: `" ^^ path ^^ "`" ^^ nl) ;;
  emit ("  - 错误: " ^^ get_default "error" d "未知错误" ^^ nl ^^ nl).

(** [item["type"] == "directory" and "items" in item] (line 349);
    [item["type"]] raises when it is absent. *)
Definition nested_directory (item : value) : option bool :=
  match item with
  | VDict d =>
      match dict_get "type" d with
      | None => None
      | Some type => Some (eq_str type "directory" && has_key "items" item)
      end
  | _ => None
  end.

(** [_write_markdown_format] (lines 305-367). *)
Fixpoint _write_markdown_format (data : value) (indent : Z) {struct data}
  : writer :=
  (if indent =? 0 then report_preamble data else skip) ;;
  match data with
  | VDict d =>
      match dict_get "type" d with
      | None => raise
      | Some type =>
          if eq_str type "directory" then
            emit_with (dict_get "name" d) (directory_heading indent) ;;
            with_item "items" skip
              (fun items =>
                 if truthy items then
                   emit ("| 类型 | 名称 | 大小 | 修改时间 | 权限 |" ^^ nl) ;;
                   emit ("|------|------|------|----------|------|" ^^ nl) ;;
                   for_each items table_row ;;
                   emit nl ;;
                   for_each items
                     (fun item =>
                        match nested_directory item with
                        | None => raise
                        | Some true => _write_markdown_format item (indent + 1)
                        | Some false => skip
                        end)
                 else skip) d
          else if eq_str type "file" then file_details d
          else if eq_str type "error" then error_details d
          else skip
      end
  | _ => raise
  end.

End Renderers.

(* ================================================================== *)
(** * json.dump(data, f, ensure_ascii=False, indent=2) *)
(* ================================================================== *)

(** The encoder of Python's [json] package, which is not part of the
    repository, for the arguments [save_results] passes: the items of a
    container stand on lines of their own, indented by two spaces per
    level, separated by [","]; a key and its value are separated by
    [": "]; text is written as it is ([ensure_ascii=False]), but for the
    quote, the backslash and the control characters. *)

Definition quote : string := String "034"%char EmptyString.
Definition backslash : string := String "092"%char EmptyString.

Definition hex_digit (n : N) : string :=
  String (ascii_of_N (if (n <? 10)%N then 48 + n else 87 + n)) EmptyString.

(** [ESCAPE_DCT] of [json.encoder]. *)
Definition escape_char (c : ascii) : string :=
  let n := N_of_ascii c in
  if (n =? 34)%N then backslash ^^ quote
  else if (n =? 92)%N then backslash ^^ backslash
  else if (n =? 8)%N then backslash ^^ "b"
  else if (n =? 12)%N then backslash ^^ "f"
  else if (n =? 10)%N then backslash ^^ "n"
  else if (n =? 13)%N then backslash ^^ "r"
  else if (n =? 9)%N then backslash ^^ "t"
  else if (n <? 32)%N then
    backslash ^^ "u00" ^^ hex_digit (n / 16) ^^ hex_digit (n mod 16)
  else String c EmptyString.

Fixpoint escape (s : string) : string :=
  match s with
  | EmptyString => EmptyString
  | String c r => escape_char c ^^ escape r
  end.

(** [encode_basestring] *)
Definition encode_basestring (s : string) : string :=
  quote ^^ escape s ^^ quote.

(** The text of a value that is written in one piece. *)
Definition encode_scalar (v : value) : option string :=
  match v with
  | VNone => Some "null"
  | VBool true => Some "true"
  | VBool false => Some "false"
  | VInt z => Some (str_int z)
  | VStr s => Some (encode_basestring s)
  | VList _ | VDict _ => None
  end.

Definition newline_indent (level : nat) : string :=
  nl ^^ repeat_string_nat "  " level.

(** The loop of [_iterencode_list]: a scalar is joined to [buf], the
    bracket or the separator before it; a container follows [buf] with
    its own pieces ([pieces] is the recursive call). *)
Fixpoint iterencode_list_items (pieces : value -> list string)
    (separator : string) (lst : list value) (buf : string) : list string :=
  match lst with
  | [] => []
  | x :: more =>
      match encode_scalar x with
      | Some text => [buf ^^ text]
      | None => buf :: pieces x
      end ++ iterencode_list_items pieces separator more separator
  end.

(** The loop of [_iterencode_dict]: the separator (but before the first
    key), the key, [": "] and the pieces of the value. *)
Fixpoint iterencode_dict_items (pieces : value -> list string)
    (separator : string) (dct : list (string * value)) (first : bool)
  : list string :=
  match dct with
  | [] => []
  | (key, x) :: more =>
      (if first then [] else [separator])
      ++ [encode_basestring key; ": "]
      ++ pieces x
      ++ iterencode_dict_items pieces separator more false
  end.

(** [_iterencode]: the pieces [json.dump] writes, one [write] call each,
    for a value at nesting [level]. *)
Fixpoint iterencode (v : value) (level : nat) {struct v} : list string :=
  match encode_scalar v with
  | Some text => [text]
  | None =>
      match v with
      | VList [] => ["[]"]
      | VList lst =>
          iterencode_list_items (fun x => iterencode x (S level))
            ("," ^^ newline_indent (S level)) lst
            ("[" ^^ newline_indent (S level))
          ++ [newline_indent level; "]"]
      | VDict [] => ["{}"]
      | VDict dct =>
          ["{"; newline_indent (S level)]
          ++ iterencode_dict_items (fun x => iterencode x (S level))
               ("," ^^ newline_indent (S level)) dct true
          ++ [newline_indent level; "}"]
      | _ => []
      end
  end.

(** [json.dump]: every piece is written in turn. *)
Definition json_dump (fault : sink) (data : value) : writer :=
  write_all fault (iterencode data 0).

(** The document [json.dump] leaves in the file when no write fails. *)
Definition json_document (data : value) : string :=
  String.concat "" (iterencode data 0).

(* ================================================================== *)
(** * save_results *)
(* ================================================================== *)

(** [str.lower] on the letters A-Z. No other character lowers to a letter
    of ["json"], ["txt"] or ["md"], so the comparisons of [save_results]
    come out as in Python. *)
Definition lower_char (c : ascii) : ascii :=
  let n := N_of_ascii c in
  if ((65 <=? n) && (n <=? 90))%N then ascii_of_N (n + 32) else c.

Fixpoint lower (s : string) : string :=
  match s with
  | EmptyString => EmptyString
  | String c r => String (lower_char c) (lower r)
  end.

(** The destination file: [None] while it was not opened (it keeps
    whatever it held), [Some texts] once [open(output_file, 'w')] emptied
    it and [texts] were written. *)
Definition file_state : Type := option (list string).

Section SaveResults.
Variable open_fails : bool.
Variable fault : sink.
Variable repr : value -> string.

(** [with open(output_file, 'w', encoding='utf-8') as f: body(f)], inside
    the [try] of [save_results]: [True] when the body returns, [False] when
    [open] or the body raises; what was written stays in the file. *)
Definition with_open (body : writer) : bool * file_state :=
  if open_fails then (false, None)
  else
    match body [] with
    | (Done, texts) => (true, Some texts)
    | (Raised, texts) => (false, Some texts)
    end.

(** [save_results] (lines 254-288); [configured_format] is
    [self.config['SCAN']['output_format']]. *)
Definition save_results (configured_format : string) (data : value)
  : bool * file_state :=
  let output_format := lower configured_format in
  if String.eqb output_format "json" then with_open (json_dump fault data)
  else if String.eqb output_format "txt" then
    with_open (_write_text_format fault repr data 0)
  else if String.eqb output_format "md" then
    with_open (_write_markdown_format fault repr data 0)
  else (false, None).

End SaveResults.

(* ================================================================== *)
(** * The renderers, stated on the fields of a node *)
(* ================================================================== *)

Section RendererLoops.
Variable fault : sink.
Variable repr : value -> string.

(** [for item in data["items"]: self._write_text_format(item, f, indent)] *)
Definition text_items (items : list value) (indent : Z) : writer :=
  each_item (fun item => _write_text_format fault repr item indent) items.

(** [if "items" in data and data["items"]: for item in ...] of the text
    renderer. *)
Definition text_children (items : option value) (indent : Z) : writer :=
  match items with
  | None => skip
  | Some (VList items) => text_items items (indent + 1)
  | Some v => if truthy v then raise else skip
  end.

(** The body of the second loop of the report renderer (lines 348-350). *)
Definition report_nested_item (indent : Z) (item : value) : writer :=
  match nested_directory item with
  | None => raise
  | Some true => _write_markdown_format fault repr item indent
  | Some false => skip
  end.

Definition report_nested (items : list value) (indent : Z) : writer :=
  each_item (report_nested_item indent) items.

Definition table_header : string := "| 类型 | 名称 | 大小 | 修改时间 | 权限 |" ^^ nl.

Definition table_rule : string := "|------|------|------|----------|------|" ^^ nl.

(** The table of a directory and the blocks of its nested directories
    (lines 330-350). *)
Definition report_children (items : option value) (indent : Z) : writer :=
  match items with
  | None => skip
  | Some (VList []) => skip
  | Some (VList items) =>
      write fault table_header ;;
      write fault table_rule ;;
      table_rows fault repr items ;;
      write fault nl ;;
      report_nested items (indent + 1)
  | Some v =>
      if truthy v then write fault table_header ;; write fault table_rule ;; raise
      else skip
  end.

End RendererLoops.

(* ================================================================== *)
(** * What the specification says the renderers write *)
(* ================================================================== *)

(** [a / b] in decimal, rounded to two places. *)
Definition two_decimals (a b : Z) : string :=
  let q := round_half_even (a * 100) b in
  str_int (q / 100) ^^ "." ^^ two_digits (q mod 100).



(** Sizes up to [2^53] bytes are doubles as they are, and so are their
    quotients by [2^20]. *)
Definition exact_size (size : Z) : Prop := 0 <= size < 2 ^ 53.

Section TextSpecification.
Variable default_message : string.


End TextSpecification.


Section ReportSpecification.
(** The text of an empty table cell, and the test that decides which
    children get a block of their own. *)
Variable placeholder : string.
Variable nests : value -> bool.



End ReportSpecification.





(** ** Headings *)

(** The level of a heading text: the number of [#] it starts with. *)
Fixpoint leading_hashes (text : string) : nat :=
  match text with
  | String c rest => if Ascii.eqb c "#"%char then S (leading_hashes rest) else O
  | EmptyString => O
  end.

(** The heading the specification gives a directory: [level] marks, the
    folder sign, the name, and an empty line after it. The level is a
    parameter here; it is not taken from the renderer. *)
Definition folder_sign : string := " 📁 ".

Definition heading_text (level : Z) (name : string) : string :=
  repeat_string "#" level ^^ folder_sign ^^ name ^^ nl ^^ nl.

(** What follows the marks of a text. *)
Fixpoint after_hashes (text : string) : string :=
  match text with
  | String c rest => if Ascii.eqb c "#"%char then after_hashes rest else text
  | EmptyString => EmptyString
  end.

Fixpoint starts_with (p s : string) : bool :=
  match p, s with
  | EmptyString, _ => true
  | String a p', String b s' => Ascii.eqb a b && starts_with p' s'
  | String _ _, EmptyString => false
  end.

(** A text that reads as the heading of a directory, of whatever level:
    marks, or none, and then the folder sign. *)
Definition directory_heading_like (text : string) : bool :=
  starts_with folder_sign (after_hashes text).

(** [visits data indent dir d]: rendering [data] at [indent], the report
    renderer calls itself on directory [dir] with [indent = d]. *)
Inductive visits : value -> Z -> value -> Z -> Prop :=
| visits_here : forall data indent,
    is_directory data = true -> visits data indent data indent
| visits_nested : forall data indent item dir d,
    is_directory data = true ->
    In item (node_children data) ->
    nested_directory item = Some true ->
    visits item (indent + 1) dir d ->
    visits data indent dir d.

(** The disk-usage text of the system information, written verbatim
    between the fences of a literal block. *)
Definition verbatim_text (data : value) (text : string) : Prop :=
  exists sys_info,
    field "system_info" data = Some sys_info /\
    match field "disk_usage" sys_info with
    | Some v => v = VStr text
    | None => text = "未知"
    end.

Section EmittedTexts.
Variable repr : value -> string.

(** What the report renderer writes, rendering [data] at [indent]:
    - the heading of a directory it visits at depth [d]: the text
      [heading_text] of level [min(d + 2, 6)] exactly;
    - at [indent = 0], the fixed headings of the preamble, of levels 1 to
      3, and the verbatim disk-usage text;
    - texts that are no heading: rows, rules, bullets, empty lines.
    Neither a heading of the preamble nor a text that is no heading reads
    as the heading of a directory: a directory heading of another level
    is none of these. *)
Inductive emitted_text (data : value) (indent : Z) (text : string) : Prop :=
| et_directory_heading : forall dir d name,
    visits data indent dir d ->
    field "name" dir = Some name ->
    text = heading_text (Z.min (d + 2) 6) (py_str repr name) ->
    Z.of_nat (leading_hashes text) = Z.min (d + 2) 6 ->
    emitted_text data indent text
| et_preamble_heading :
    indent = 0 ->
    (1 <= leading_hashes text <= 3)%nat ->
    directory_heading_like text = false ->
    emitted_text data indent text
| et_verbatim :
    indent = 0 ->
    verbatim_text data text ->
    emitted_text data indent text
| et_plain :
    leading_hashes text = O ->
    directory_heading_like text = false ->
    emitted_text data indent text.

End EmittedTexts.

(** [writes_only P m]: whatever it is started with, and however it ends,
    the writer [m] appends texts that satisfy [P], and nothing else. *)
Definition writes_only (P : string -> Prop) (m : writer) : Prop :=
  forall out, exists new, snd (m out) = out ++ new /\ Forall P new.

(** At every depth from 0 the report renderer writes emitted texts only. *)
Definition emits_only (fault : sink) (repr : value -> string) (data : value)
  : Prop :=
  forall indent, 0 <= indent ->
    writes_only (emitted_text repr data indent)
      (_write_markdown_format fault repr data indent).

(** The renderer [save_results] selects for a format identifier, if any. *)
Definition renderer_for (fault : sink) (repr : value -> string)
    (output_format : string) (data : value) : option writer :=
  if String.eqb output_format "json" then Some (json_dump fault data)
  else if String.eqb output_format "txt" then
    Some (_write_text_format fault repr data 0)
  else if String.eqb output_format "md" then
    Some (_write_markdown_format fault repr data 0)
  else None.

(** The format identifiers as the specification names them. *)
Definition specified_formats : list string := ["structured"; "text"; "report"].

(* ================================================================== *)
(** * Induction on values *)
(* ================================================================== *)

(** Structural induction through the lists and dicts a value holds. *)
Definition value_ind (P : value -> Prop)
    (HNone : P VNone)
    (HBool : forall b, P (VBool b))
    (HInt : forall z, P (VInt z))
    (HStr : forall s, P (VStr s))
    (HList : forall l, Forall P l -> P (VList l))
    (HDict : forall d, Forall (fun kv => P (snd kv)) d -> P (VDict d))
  : forall v, P v :=
  fix go (v : value) : P v :=
    match v with
    | VNone => HNone
    | VBool b => HBool b
    | VInt z => HInt z
    | VStr s => HStr s
    | VList l =>
        HList l
          ((fix all (l : list value) : Forall P l :=
              match l with
              | [] => Forall_nil P
              | x :: rest => Forall_cons x (go x) (all rest)
              end) l)
    | VDict d =>
        HDict d
          ((fix all (d : list (string * value))
              : Forall (fun kv => P (snd kv)) d :=
              match d with
              | [] => Forall_nil _
              | kv :: rest =>
                  Forall_cons (P := fun kv => P (snd kv)) kv (go (snd kv)) (all rest)
              end) d)
    end.

(* ================================================================== *)
(** * More trees for the scenarios *)
(* ================================================================== *)

Module Trees.



(** A chain of [n] directories around an empty one. *)
Fixpoint chain (n : nat) : value :=
  match n with
  | O => Scenario.directory_node "leaf" "/leaf" []
  | S k => Scenario.directory_node "d" "/d" [chain k]
  end.

(** The tree of the third end-to-end scenario: the listing of [/root/B]
    was refused. *)
Definition refused_B : value :=
  Scenario.directory_node "root" "/root"
    [Scenario.directory_node "A" "/root/A"
       [Scenario.file_node "f.txt" "/root/A/f.txt" 2097152];
     VDict [("type", VStr "error"); ("name", VStr "B");
            ("path", VStr "/root/B"); ("error", VStr "权限不足")];
     Scenario.file_node "g.log" "/root/g.log" 0].

End Trees.

(* ================================================================== *)
(** * json.load *)
(* ================================================================== *)

(** The decoder of Python's [json] package, the other half of the round
    trip of the structured output; like the encoder it is not part of the
    repository. It is modelled on the values of this development: a
    document with a number that has a fraction or an exponent (a [float]),
    or with an escape that stands for a lone surrogate (which has no UTF-8
    encoding), is outside the model and gives [None], as does a document
    the decoder rejects. *)

Definition is_whitespace (c : ascii) : bool :=
  let n := N_of_ascii c in
  ((n =? 32) || (n =? 9) || (n =? 10) || (n =? 13))%N.

(** [WHITESPACE.match(s, end).end()] *)
Fixpoint skip_whitespace (s : string) : string :=
  match s with
  | String c r => if is_whitespace c then skip_whitespace r else s
  | EmptyString => s
  end.

Definition hex_value (c : ascii) : option N :=
  let n := N_of_ascii c in
  if ((48 <=? n) && (n <=? 57))%N then Some (n - 48)%N
  else if ((97 <=? n) && (n <=? 102))%N then Some (n - 87)%N
  else if ((65 <=? n) && (n <=? 70))%N then Some (n - 55)%N
  else None.

(** [_decode_uXXXX]: the number of four hexadecimal digits. *)
Definition decode_uXXXX (a b c d : ascii) : option N :=
  match hex_value a, hex_value b, hex_value c, hex_value d with
  | Some x, Some y, Some z, Some w => Some (((x * 16 + y) * 16 + z) * 16 + w)%N
  | _, _, _, _ => None
  end.

Definition byte (n : N) : string := String (ascii_of_N n) EmptyString.

(** The UTF-8 encoding of [chr(n)]; a surrogate has none. *)
Definition utf8 (n : N) : option string :=
  if (n <? 128)%N then Some (byte n)
  else if (n <? 2048)%N then
    Some (byte (192 + n / 64) ^^ byte (128 + n mod 64))
  else if ((55296 <=? n) && (n <=? 57343))%N then None
  else if (n <? 65536)%N then
    Some (byte (224 + n / 4096) ^^ byte (128 + (n / 64) mod 64)
            ^^ byte (128 + n mod 64))
  else
    Some (byte (240 + n / 262144) ^^ byte (128 + (n / 4096) mod 64)
            ^^ byte (128 + (n / 64) mod 64) ^^ byte (128 + n mod 64)).

(** [BACKSLASH] of [json.decoder]: the one-letter escapes. *)
Definition unescape (c : ascii) : option ascii :=
  let n := N_of_ascii c in
  if (n =? 34)%N then Some c
  else if (n =? 92)%N then Some c
  else if (n =? 47)%N then Some c
  else if (n =? 98)%N then Some (ascii_of_N 8)
  else if (n =? 102)%N then Some (ascii_of_N 12)
  else if (n =? 110)%N then Some (ascii_of_N 10)
  else if (n =? 114)%N then Some (ascii_of_N 13)
  else if (n =? 116)%N then Some (ascii_of_N 9)
  else None.

Definition prepend (text : string) (r : option (string * string))
  : option (string * string) :=
  match r with
  | Some (s, rest) => Some (text ^^ s, rest)
  | None => None
  end.

(** [scanstring] in strict mode, from after the opening quote: the text
    up to the closing quote, and what follows it. A high surrogate joins
    the low surrogate escaped right after it. *)
Fixpoint scanstring (s : string) : option (string * string) :=
  match s with
  | EmptyString => None
  | String c r =>
      let n := N_of_ascii c in
      if (n =? 34)%N then Some (EmptyString, r)
      else if (n =? 92)%N then
        match r with
        | EmptyString => None
        | String e r1 =>
            if (N_of_ascii e =? 117)%N then
              match r1 with
              | String h1 (String h2 (String h3 (String h4 r2))) =>
                  match decode_uXXXX h1 h2 h3 h4 with
                  | None => None
                  | Some uni =>
                      if ((55296 <=? uni) && (uni <=? 56319))%N then
                        match r2 with
                        | String b (String u (String l1 (String l2
                            (String l3 (String l4 r3))))) =>
                            if ((N_of_ascii b =? 92) && (N_of_ascii u =? 117))%N
                            then
                              match decode_uXXXX l1 l2 l3 l4 with
                              | None => None
                              | Some uni2 =>
                                  if ((56320 <=? uni2) && (uni2 <=? 57343))%N then
                                    match utf8 (65536 + (uni - 55296) * 1024
                                                  + (uni2 - 56320)) with
                                    | Some text => prepend text (scanstring r3)
                                    | None => None
                                    end
                                  else None
                              end
                            else None
                        | _ => None
                        end
                      else
                        match utf8 uni with
                        | Some text => prepend text (scanstring r2)
                        | None => None
                        end
                  end
              | _ => None
              end
            else
              match unescape e with
              | Some ch => prepend (String ch EmptyString) (scanstring r1)
              | None => None
              end
        end
      else if (n <? 32)%N then None
      else prepend (String c EmptyString) (scanstring r)
  end.

Definition digit_of (c : ascii) : option (Decimal.uint -> Decimal.uint) :=
  let n := N_of_ascii c in
  if (n =? 48)%N then Some Decimal.D0
  else if (n =? 49)%N then Some Decimal.D1
  else if (n =? 50)%N then Some Decimal.D2
  else if (n =? 51)%N then Some Decimal.D3
  else if (n =? 52)%N then Some Decimal.D4
  else if (n =? 53)%N then Some Decimal.D5
  else if (n =? 54)%N then Some Decimal.D6
  else if (n =? 55)%N then Some Decimal.D7
  else if (n =? 56)%N then Some Decimal.D8
  else if (n =? 57)%N then Some Decimal.D9
  else None.

Definition is_digit (c : ascii) : bool :=
  match digit_of c with Some _ => true | None => false end.

(** [\d*]: the longest run of digits. *)
Fixpoint read_digits (s : string) : Decimal.uint * string :=
  match s with
  | String c r =>
      match digit_of c with
      | Some d => let (u, rest) := read_digits r in (d u, rest)
      | None => (Decimal.Nil, s)
      end
  | EmptyString => (Decimal.Nil, s)
  end.

(** [0|[1-9]\d*] *)
Definition read_integer (s : string) : option (Decimal.uint * string) :=
  match s with
  | String c r =>
      if (N_of_ascii c =? 48)%N then Some (Decimal.D0 Decimal.Nil, r)
      else if is_digit c then Some (read_digits s)
      else None
  | EmptyString => None
  end.

Definition starts_with_digit (s : string) : bool :=
  match s with
  | String c _ => is_digit c
  | EmptyString => false
  end.

(** [(\.\d+)?([eE][-+]?\d+)?] matches something: the number is a float. *)
Definition fraction_or_exponent (s : string) : bool :=
  match s with
  | String c r =>
      let n := N_of_ascii c in
      if (n =? 46)%N then starts_with_digit r
      else if ((n =? 101) || (n =? 69))%N then
        match r with
        | String sign r' =>
            if ((N_of_ascii sign =? 43) || (N_of_ascii sign =? 45))%N
            then starts_with_digit r'
            else is_digit sign
        | EmptyString => false
        end
      else false
  | EmptyString => false
  end.

(** [match_number] and [int(integer)]. *)
Definition scan_number (s : string) : option (value * string) :=
  let (negative, digits) :=
    match s with
    | String c r => if (N_of_ascii c =? 45)%N then (true, r) else (false, s)
    | EmptyString => (false, s)
    end in
  match read_integer digits with
  | None => None
  | Some (u, rest) =>
      if fraction_or_exponent rest then None
      else
        Some (VInt (Z.of_int (if negative then Decimal.Neg u else Decimal.Pos u)),
              rest)
  end.

(** [s.startswith(word)], and what follows the word. *)
Fixpoint strip_prefix (word s : string) : option string :=
  match word, s with
  | EmptyString, _ => Some s
  | String a word', String b s' =>
      if Ascii.eqb a b then strip_prefix word' s' else None
  | String _ _, EmptyString => None
  end.

(** [dict(pairs)]: a key that comes again takes the later value and keeps
    its place. *)
Fixpoint dict_of_pairs (pairs : list (string * value)) (d : list (string * value))
  : list (string * value) :=
  match pairs with
  | [] => d
  | (k, v) :: more => dict_of_pairs more (dict_set k v d)
  end.

(** [scan_once], [JSONArray] and [JSONObject]. Each call consumes a
    character before it calls on, so a fuel beyond the length of the text
    is never used up. [scan_array] and [scan_object] stand at the start of
    an item, after the bracket or the comma and the whitespace. *)
Fixpoint scan_once (fuel : nat) (s : string) : option (value * string) :=
  match fuel with
  | O => None
  | S fuel' =>
      match s with
      | EmptyString => None
      | String c r =>
          let n := N_of_ascii c in
          if (n =? 34)%N then
            match scanstring r with
            | Some (text, rest) => Some (VStr text, rest)
            | None => None
            end
          else if (n =? 123)%N then
            match skip_whitespace r with
            | String c' r' =>
                if (N_of_ascii c' =? 125)%N then Some (VDict [], r')
                else scan_object fuel' (skip_whitespace r) []
            | EmptyString => None
            end
          else if (n =? 91)%N then
            match skip_whitespace r with
            | String c' r' =>
                if (N_of_ascii c' =? 93)%N then Some (VList [], r')
                else scan_array fuel' (skip_whitespace r) []
            | EmptyString => None
            end
          else
            match strip_prefix "null" s, strip_prefix "true" s,
                  strip_prefix "false" s with
            | Some rest, _, _ => Some (VNone, rest)
            | _, Some rest, _ => Some (VBool true, rest)
            | _, _, Some rest => Some (VBool false, rest)
            | None, None, None => scan_number s
            end
      end
  end

with scan_array (fuel : nat) (s : string) (values : list value)
  : option (value * string) :=
  match fuel with
  | O => None
  | S fuel' =>
      match scan_once fuel' s with
      | None => None
      | Some (v, rest) =>
          match skip_whitespace rest with
          | String c r =>
              if (N_of_ascii c =? 93)%N then Some (VList (values ++ [v]), r)
              else if (N_of_ascii c =? 44)%N then
                scan_array fuel' (skip_whitespace r) (values ++ [v])
              else None
          | EmptyString => None
          end
      end
  end

with scan_object (fuel : nat) (s : string) (pairs : list (string * value))
  : option (value * string) :=
  match fuel with
  | O => None
  | S fuel' =>
      match s with
      | String q after_quote =>
          if (N_of_ascii q =? 34)%N then
            match scanstring after_quote with
            | None => None
            | Some (key, rest) =>
                match skip_whitespace rest with
                | String colon r =>
                    if (N_of_ascii colon =? 58)%N then
                      match scan_once fuel' (skip_whitespace r) with
                      | None => None
                      | Some (v, rest') =>
                          match skip_whitespace rest' with
                          | String c r' =>
                              if (N_of_ascii c =? 125)%N then
                                Some (VDict (dict_of_pairs (pairs ++ [(key, v)]) []),
                                      r')
                              else if (N_of_ascii c =? 44)%N then
                                scan_object fuel' (skip_whitespace r')
                                  (pairs ++ [(key, v)])
                              else None
                          | EmptyString => None
                          end
                      end
                    else None
                | EmptyString => None
                end
            end
          else None
      | EmptyString => None
      end
  end.

(** [json.load(f)]: leading whitespace, one value, trailing whitespace and
    nothing more. *)
Definition json_load (document : string) : option value :=
  let s := skip_whitespace document in
  match scan_once (S (String.length s)) s with
  | Some (v, rest) =>
      match skip_whitespace rest with
      | EmptyString => Some v
      | String _ _ => None
      end
  | None => None
  end.

(** No key occurs twice in a dict, as in every Python dict. *)
Fixpoint unique_keys (v : value) : Prop :=
  match v with
  | VList l =>
      (fix all (l : list value) : Prop :=
         match l with
         | [] => True
         | x :: rest => unique_keys x /\ all rest
         end) l
  | VDict d =>
      NoDup (map fst d) /\
      (fix all (d : list (string * value)) : Prop :=
         match d with
         | [] => True
         | (_, x) :: rest => unique_keys x /\ all rest
         end) d
  | _ => True
  end.

(** The document as one text: what [json.dumps] returns for the same
    arguments. *)
Fixpoint json_text (v : value) (level : nat) {struct v} : string :=
  match v with
  | VNone => "null"
  | VBool true => "true"
  | VBool false => "false"
  | VInt z => str_int z
  | VStr s => encode_basestring s
  | VList [] => "[]"
  | VList lst =>
      "[" ^^ newline_indent (S level)
        ^^ String.concat ("," ^^ newline_indent (S level))
             (map (fun x => json_text x (S level)) lst)
        ^^ newline_indent level ^^ "]"
  | VDict [] => "{}"
  | VDict dct =>
      "{" ^^ newline_indent (S level)
        ^^ String.concat ("," ^^ newline_indent (S level))
             (map (fun kv => encode_basestring (fst kv) ^^ ": "
                               ^^ json_text (snd kv) (S level)) dct)
        ^^ newline_indent level ^^ "}"
  end.

(** A bound on the nested calls the decoder makes to read a value back. *)
Fixpoint weight (v : value) : nat :=
  match v with
  | VList l =>
      S ((fix sum (l : list value) : nat :=
            match l with
            | [] => O
            | x :: rest => S (weight x + sum rest)
            end) l)
  | VDict d =>
      S ((fix sum (d : list (string * value)) : nat :=
            match d with
            | [] => O
            | kv :: rest => S (weight (snd kv) + sum rest)
            end) d)
  | _ => 1%nat
  end.

(** What may follow a number for the decoder to stop reading it. *)
Definition ends_number (rest : string) : Prop :=
  starts_with_digit rest = false /\ fraction_or_exponent rest = false.

(** A text that starts a value: its first character is no whitespace and
    closes no list or dict. *)
Definition opens_value (s : string) : Prop :=
  match s with
  | String c _ =>
      is_whitespace c = false /\ N_of_ascii c <> 93%N /\ N_of_ascii c <> 125%N
  | EmptyString => False
  end.

(** The first character of a number. *)
Definition number_head (c : ascii) : bool :=
  is_digit c || (N_of_ascii c =? 45)%N.

(** The round trip for one value: with enough fuel the decoder reads the
    value back from its text, whatever may follow a number comes after. *)
Definition reads_back (v : value) : Prop :=
  forall (level fuel : nat) (rest : string),
    (weight v <= fuel)%nat -> ends_number rest ->
    scan_once fuel (json_text v level ^^ rest) = Some (v, rest).

(* ================================================================== *)
(** * More of the walker: paths, permissions, listing calls *)
(* ================================================================== *)

(** [sep in s] *)
Fixpoint has_sep (s : string) : bool :=
  match s with
  | EmptyString => false
  | String c r => is_sep c || has_sep r
  end.

(** One octal digit, [0 <= k < 8]. *)
Definition octal_digit (k : Z) : string :=
  String (ascii_of_N (48 + Z.to_N k)) EmptyString.

(** The three permission digits of a mode: user, group, others. *)
Definition permission_digits (mode : Z) : string :=
  octal_digit ((mode / 64) mod 8) ^^ octal_digit ((mode / 8) mod 8)
    ^^ octal_digit (mode mod 8).

(** A remote that also keeps the log of its listing calls: the path asked
    for, and whether the listing was answered. The calls are passed on to
    [R] unchanged. *)
Definition logged (R : Remote) : Remote := {|
  exn := @exn R;
  is_PermissionError := @is_PermissionError R;
  str_exn := @str_exn R;
  World := (@World R * list (string * bool))%type;
  listdir_attr := fun path st =>
    let (answer, w') := @listdir_attr R path (fst st) in
    (answer,
     (w', snd st ++ [(path, match answer with inr _ => true | inl _ => false end)]));
  now_isoformat := fun st =>
    let (t, w') := @now_isoformat R (fst st) in (t, (w', snd st));
  fromtimestamp_isoformat := @fromtimestamp_isoformat R;
  S_ISDIR_TypeError := @S_ISDIR_TypeError R
|}.

(** [present(d[k]) if k in d else absent], for any result type. *)
Definition lookup_with {A : Type} (k : string) (absent : A)
    (present : value -> A) : list (string * value) -> A :=
  fix lookup (d : list (string * value)) : A :=
    match d with
    | [] => absent
    | (k', v) :: rest => if String.eqb k k' then present v else lookup rest
    end.

(** The paths of the listed directories of a tree (the nodes that carry
    [items]), parents before children, children in order. *)
Fixpoint listed_paths (n : value) : list string :=
  match n with
  | VDict d =>
      lookup_with "items" []
        (fun items =>
           match items with
           | VList l =>
               match dict_get "path" d with
               | Some (VStr p) => [p]
               | _ => []
               end ++ flat_map listed_paths l
           | _ => []
           end) d
  | _ => []
  end.

(** The answered calls of a log, in order. *)
Definition answered (calls : list (string * bool)) : list string :=
  map fst (filter snd calls).

(** Every listing reports the size of every entry, below [2^53] bytes. *)
Definition reports_sizes (R : Remote) : Prop :=
  forall path w items w',
    @listdir_attr R path w = (inr items, w') ->
    Forall (fun item => exists size, st_size item = Some size /\ exact_size size)
      items.

(** The number of nodes of a tree. *)
Fixpoint node_count (n : value) : nat :=
  match n with
  | VDict d =>
      S (lookup_with "items" O
           (fun items =>
              match items with
              | VList l => list_sum (map node_count l)
              | _ => O
              end) d)
  | _ => 1%nat
  end.

(** * Scan results under the renderers *)

(** A node renders as a fixed list of lines, one per node of its tree. *)
Definition text_script (n : value) : Prop :=
  forall depth, exists lines,
    length lines = node_count n /\
    forall fault repr out,
      _write_text_format fault repr n depth out = write_all fault lines out.

(** A writer that returns, whatever was written before it. *)
Definition completes (m : writer) : Prop :=
  forall out, exists texts, m out = (Done, out ++ texts).

(** What [_write_markdown_format] writes after the preamble (lines
    324-367). *)
Definition report_body (fault : sink) (repr : value -> string) (data : value)
    (indent : Z) : writer :=
  match data with
  | VDict d =>
      match dict_get "type" d with
      | None => raise
      | Some type =>
          if eq_str type "directory" then
            emit_with fault repr (dict_get "name" d) (directory_heading indent) ;;
            report_children fault repr (dict_get "items" d) indent
          else if eq_str type "file" then file_details fault repr d
          else if eq_str type "error" then error_details fault repr d
          else skip
      end
  | _ => raise
  end.

(** A node the report renderer renders to the end on a sink that never
    fails: as a row of its parent's table, under the test of the second
    loop, and as a block of its own at any depth, with the preamble or
    after another one. *)
Definition report_script (repr : value -> string) (n : value) : Prop :=
  completes (table_row reliable repr n) /\
  (exists b, nested_directory n = Some b) /\
  (forall indent, completes (_write_markdown_format reliable repr n indent)) /\
  (forall indent, completes (report_body reliable repr n indent)).

(* ================================================================== *)
(** * Configuration, connection and the whole run *)
(* ================================================================== *)

(** [self.config] once read: the sections, each with its options as
    [self.config[section][key]] gives them. A lookup that raises (a
    missing section or option, a value the parser cannot interpolate) is an
    absent option here: every lookup below stands inside a [try] that
    treats all exceptions alike. *)
Definition ConfigParser : Type := list (string * list (string * string)).

Fixpoint assoc {A : Type} (k : string) (l : list (string * A)) : option A :=
  match l with
  | [] => None
  | (k', v) :: rest => if String.eqb k k' then Some v else assoc k rest
  end.

(** [self.config[section][key]] *)
Definition config_get (config : ConfigParser) (section key : string)
  : option string :=
  match assoc section config with
  | Some options => assoc key options
  | None => None
  end.

(** [section in self.config] for a section other than the default one. *)
Definition has_section (config : ConfigParser) (section : string) : bool :=
  match assoc section config with
  | Some _ => true
  | None => false
  end.

(** ** load_config and create_default_config *)

(** The configuration [create_default_config] writes (lines 71-91). *)
Definition default_config : ConfigParser :=
  [("NAS_SERVER", [("ip", "192.168.1.100"); ("username", "your_username");
                   ("password", "your_password")]);
   ("CONNECTION", [("protocol", "ssh"); ("port", "22"); ("timeout", "30")]);
   ("SCAN", [("root_path", "/home"); ("max_depth", "10");
             ("include_hidden", "false"); ("output_format", "json");
             ("output_file", "nas_structure.json")])].

Definition required_sections : list string :=
  ["NAS_SERVER"; "CONNECTION"; "SCAN"].

(** How [load_config] fails: the [ValueError] of line 61 with its message,
    or an exception of the file system or of the parser. *)
Inductive load_error : Type :=
| ValueError (message : string)
| OtherError.

(** The loop of lines 59-61: the first required section that is missing
    raises. *)
Fixpoint check_sections (sections : list string) (config : ConfigParser)
  : option load_error :=
  match sections with
  | [] => None
  | section :: more =>
      if has_section config section then check_sections more config
      else Some (ValueError ("配置文件缺少必要的 [" ^^ section ^^ "] 部分"))
  end.

(** The configuration file: absent, or holding what the parser reads from
    it, [None] when the parser refuses the text. *)
Definition config_file : Type := option (option ConfigParser).

(** [create_default_config]: the file afterwards, unless writing failed. *)
Definition create_default_config (write_fails : bool) : option config_file :=
  if write_fails then None else Some (Some (Some default_config)).

(** [load_config] (lines 48-67): [self.config] or the exception it
    re-raises, and the file as it is afterwards. *)
Definition load_config (write_fails : bool) (file : config_file)
  : (load_error + ConfigParser) * config_file :=
  let created :=
    match file with
    | None => create_default_config write_fails
    | Some _ => Some file
    end in
  match created with
  | None => (inl OtherError, file)
  | Some file' =>
      match file' with
      | Some (Some config) =>
          match check_sections required_sections config with
          | Some e => (inl e, file')
          | None => (inr config, file')
          end
      | _ => (inl OtherError, file')
      end
  end.

(** ** The host: what the run consumes besides the listings *)

(** Which of [self.ssh_client] and [self.sftp_client] are set after
    [connect_to_nas]. *)
Inductive connection : Type :=
| NoClient      (* a setting could not be read: nothing was created *)
| ClientOnly    (* the client exists, connecting or opening SFTP raised *)
| Connected.

Definition connected (c : connection) : bool :=
  match c with
  | Connected => true
  | _ => false
  end.

Class Host (R : Remote) : Type := {
  (** [int(s)]; [None] when it raises [ValueError] *)
  int_of_str : string -> option Z;
  (** [SSHClient.connect(hostname, port, username, password, timeout)] and
      [open_sftp()] (lines 118-129): [true] when neither raises *)
  ssh_connect : string -> Z -> string -> string -> Z -> World -> bool * World;
  (** [exec_command(command)] and [stdout.read().decode().strip()]; [None]
      when one of them raises *)
  exec_command : string -> World -> option string * World;
  (** [self.sftp_client.close()] and [self.ssh_client.close()], whose
      exceptions are dropped *)
  close_sftp : World -> World;
  close_ssh : World -> World
}.

Section Run.
Context {R : Remote} {host : Host R}.

(** [int(self.config[section][key])] *)
Definition config_int (config : ConfigParser) (section key : string)
  : option Z :=
  match config_get config section key with
  | Some s => int_of_str s
  | None => None
  end.

(** [connect_to_nas] (lines 98-136); it returns [True] exactly when the
    connection is [Connected]. *)
Definition connect_to_nas (config : ConfigParser) (w : World)
  : connection * World :=
  match config_get config "NAS_SERVER" "ip",
        config_get config "NAS_SERVER" "username",
        config_get config "NAS_SERVER" "password",
        config_int config "CONNECTION" "port",
        config_int config "CONNECTION" "timeout" with
  | Some ip, Some username, Some password, Some port, Some timeout =>
      let (ok, w') := ssh_connect ip port username password timeout w in
      (if ok then Connected else ClientOnly, w')
  | _, _, _, _, _ => (NoClient, w)
  end.

(** [get_system_info] (lines 235-252): both texts, or the empty dict when
    anything raised. *)
Definition get_system_info (w : World) : value * World :=
  let (system_info, w1) := exec_command "uname -a" w in
  match system_info with
  | None => (VDict [], w1)
  | Some system_info =>
      let (disk_info, w2) := exec_command "df -h" w1 in
      match disk_info with
      | None => (VDict [], w2)
      | Some disk_info =>
          (VDict [("system", VStr system_info);
                  ("disk_usage", VStr disk_info)], w2)
      end
  end.

(** [result[k] = v]; a [TypeError] on anything but a dict. *)
Definition set_item (k : string) (v : value) (result : value) : option value :=
  match result with
  | VDict d => Some (VDict (dict_set k v d))
  | _ => None
  end.

(** The [finally] of [run_scan] (lines 411-422). *)
Definition release (c : connection) (w : World) : World :=
  let w1 := match c with
            | Connected => close_sftp w
            | _ => w
            end in
  match c with
  | NoClient => w1
  | _ => close_ssh w1
  end.

Section Saving.
Variable open_fails : bool.
Variable fault : sink.
Variable repr : value -> string.

(** [self.save_results(result)]: with no [output_file] given, the file name
    and the format are read from the configuration (lines 266-269). *)
Definition save_results_configured (config : ConfigParser) (data : value)
  : bool * file_state :=
  match config_get config "SCAN" "output_file" with
  | None => (false, None)
  | Some _ =>
      match config_get config "SCAN" "output_format" with
      | None => (false, None)
      | Some configured_format =>
          save_results open_fails fault repr configured_format data
      end
  end.

(** [run_scan] (lines 369-422): what it returns, the output file, and the
    remote end after the [finally]. *)
Definition run_scan (config : ConfigParser) (w : World)
  : bool * file_state * World :=
  let (c, w1) := connect_to_nas config w in
  if negb (connected c) then (false, None, release c w1)
  else
    match config_get config "SCAN" "root_path",
          config_int config "SCAN" "max_depth" with
    | Some root_path, Some max_depth =>
        let (system_info, w2) := get_system_info w1 in
        match scan_directory root_path max_depth 0 w2 with
        | None => (false, None, release c w2)
        | Some (result, w3) =>
            let attached :=
              if truthy system_info
              then set_item "system_info" system_info result
              else Some result in
            match attached with
            | None => (false, None, release c w3)
            | Some result =>
                let (saved, file) := save_results_configured config result in
                (saved, file, release c w3)
            end
        end
    | _, _ => (false, None, release c w1)
    end.

End Saving.
End Run.

(** What the configuration says of the scan and of the output. *)
Definition scan_settings {R : Remote} {host : Host R} (config : ConfigParser)
    (root_path : string) (max_depth : Z) (output_format : string) : Prop :=
  config_get config "SCAN" "root_path" = Some root_path /\
  config_int config "SCAN" "max_depth" = Some max_depth /\
  (exists output_file, config_get config "SCAN" "output_file" = Some output_file) /\
  config_get config "SCAN" "output_format" = Some output_format.

(** [result] with the system information attached as [run_scan] does. *)
Definition with_system_info (system_info result : value) : value :=
  if truthy system_info then
    match result with
    | VDict d => VDict (dict_set "system_info" system_info d)
    | _ => result
    end
  else result.

(** The options the program reads: five in [connect_to_nas], two in
    [run_scan], two in [save_results]. *)
Definition read_options : list (string * string) :=
  [("NAS_SERVER", "ip"); ("NAS_SERVER", "username"); ("NAS_SERVER", "password");
   ("CONNECTION", "port"); ("CONNECTION", "timeout");
   ("SCAN", "root_path"); ("SCAN", "max_depth");
   ("SCAN", "output_file"); ("SCAN", "output_format")].

(** [data.get('scan_time', '未知')] as the preamble of the report shows
    it. *)
Definition scan_time_text (repr : value -> string) (data : value) : string :=
  match data with
  | VDict d => get_default repr "scan_time" d "未知"
  | _ => "未知"
  end.

(** A host for the small remote tree: it accepts every connection, answers
    both commands and reads plain decimal numbers. *)
Module ScenarioHost.

#[export] Instance host : Host Scenario.remote := {|
  int_of_str := fun s => option_map Z.of_int (NilZero.int_of_string s);
  ssh_connect := fun _ _ _ _ _ w => (true, w);
  exec_command := fun command w =>
    (Some (if String.eqb command "uname -a" then "Linux nas 5.10"
           else "/dev/sda1 100G 40G 60G 40% /"), w);
  close_sftp := fun w => w;
  close_ssh := fun w => w
|}.

(** The default configuration, scanning [/root] to depth 5 into the given
    format. *)
Definition config (output_format : string) : ConfigParser :=
  [("NAS_SERVER", [("ip", "192.168.1.100"); ("username", "your_username");
                   ("password", "your_password")]);
   ("CONNECTION", [("protocol", "ssh"); ("port", "22"); ("timeout", "30")]);
   ("SCAN", [("root_path", "/root"); ("max_depth", "5");
             ("include_hidden", "false"); ("output_format", output_format);
             ("output_file", "nas_structure.json")])].

(** The same settings with the two options the program never reads set
    otherwise. *)
Definition config_hidden (output_format : string) : ConfigParser :=
  [("NAS_SERVER", [("ip", "192.168.1.100"); ("username", "your_username");
                   ("password", "your_password")]);
   ("CONNECTION", [("protocol", "ftp"); ("port", "22"); ("timeout", "30")]);
   ("SCAN", [("root_path", "/root"); ("max_depth", "5");
             ("include_hidden", "true"); ("output_format", output_format);
             ("output_file", "nas_structure.json")])].

End ScenarioHost.

(** A remote whose only file comes without a size: the server left the
    attribute out. *)
Module Sizeless.

#[export] Instance remote : Remote := {|
  exn := Scenario.fault;
  is_PermissionError := @is_PermissionError Scenario.remote;
  str_exn := @str_exn Scenario.remote;
  World := unit;
  listdir_attr := fun path w =>
    (inr [mkAttr "notes.txt" (Some 33188) None (Some 1704067200)
            (Some 1000) (Some 1000)], w);
  now_isoformat := @now_isoformat Scenario.remote;
  fromtimestamp_isoformat := @fromtimestamp_isoformat Scenario.remote;
  S_ISDIR_TypeError := Scenario.ETYPE
|}.

End Sizeless.

(* ================================================================== *)
(** * Properties of scan_directory *)
(* ================================================================== *)

Section WalkerProofs.
Context {R : Remote}.

Lemma in_snoc {A : Type} (x y : A) (l : list A) :
  In x (l ++ [y]) -> In x l \/ x = y.
Proof.
  intros H. apply in_app_or in H. destruct H as [H | [H | []]]; auto.
Qed.

(** The loop keeps what it was given and appends nodes of the next depth,
    provided the recursive call does. *)
Lemma scan_items_shape
    (rec : string -> Z -> World -> option (value * World))
    (remote_path : string) (max_depth current_depth : Z) :
  current_depth <= max_depth ->
  (current_depth < max_depth -> forall p w, exists n w',
      rec p (current_depth + 1) w = Some (n, w') /\
      scan_tree max_depth (current_depth + 1) n) ->
  forall items acc w,
    (forall c, In c acc -> scan_tree max_depth (current_depth + 1) c) ->
    exists its w',
      scan_items rec remote_path max_depth current_depth items acc w
        = Some (its, w') /\
      (forall c, In c its -> scan_tree max_depth (current_depth + 1) c).
Proof.
  intros Hle Hrec items.
  induction items as [| item rest IH]; intros acc w Hacc; simpl.
  - eauto.
  - destruct (is_dot (filename item)); [now apply IH |].
    assert (Hsnoc : forall n, scan_tree max_depth (current_depth + 1) n ->
              forall c, In c (acc ++ [n]) ->
                        scan_tree max_depth (current_depth + 1) c).
    { intros n Hn c Hc. apply in_snoc in Hc. destruct Hc as [Hc | ->]; auto. }
    destruct (S_ISDIR (st_mode item)) as [e | [|]] eqn:Hmode.
    + apply IH, Hsnoc. constructor. lia.
    + destruct (current_depth <? max_depth) eqn:Hlt.
      * apply Z.ltb_lt in Hlt.
        destruct (Hrec Hlt (join remote_path (filename item)) w)
          as (n & w' & -> & Hn).
        apply IH, Hsnoc, Hn.
      * apply Z.ltb_ge in Hlt. apply IH, Hsnoc. constructor. lia.
    + destruct (file_info item (join remote_path (filename item)))
        as [e | info] eqn:Hinfo.
      * apply IH, Hsnoc. constructor. lia.
      * apply IH, Hsnoc. econstructor; [lia | exact Hinfo].
Qed.

(** With enough fuel a call at a depth within the bound returns, and what
    it returns is a scan tree. *)
Lemma scan_directory_fuel_shape (max_depth : Z) :
  forall fuel remote_path current_depth w,
    current_depth <= max_depth ->
    max_depth - current_depth < Z.of_nat fuel ->
    exists n w',
      scan_directory_fuel fuel remote_path max_depth current_depth w
        = Some (n, w') /\
      scan_tree max_depth current_depth n.
Proof.
  induction fuel as [| fuel IH]; intros remote_path current_depth w Hle Hfuel.
  - lia.
  - simpl.
    destruct (current_depth >? max_depth) eqn:Hgt.
    { apply Z.gtb_lt in Hgt. lia. }
    destruct (listdir_attr remote_path w) as [[e | items] w1].
    + eexists _, _. split; [reflexivity |]. constructor. lia.
    + destruct (now_isoformat w1) as [scan_time w2].
      destruct (scan_items_shape
                  (fun p d => scan_directory_fuel fuel p max_depth d)
                  remote_path max_depth current_depth Hle) with
        (items := items) (acc := @nil value) (w := w2)
        as (its & w3 & -> & Hits).
      * intros Hlt p w'. apply IH; lia.
      * intros c [].
      * eexists _, _. split; [reflexivity |].
        apply (st_listed max_depth current_depth remote_path its scan_time);
          assumption.
Qed.

Lemma scan_directory_shape (remote_path : string) (max_depth current_depth : Z)
    (w : World) :
  current_depth <= max_depth ->
  exists n w',
    scan_directory remote_path max_depth current_depth w = Some (n, w') /\
    scan_tree max_depth current_depth n.
Proof.
  intros Hle. apply scan_directory_fuel_shape; lia.
Qed.


(** A file record is the literal of lines 188-197. *)
Lemma file_info_inv (item : SFTPAttributes) (item_path : string) (info : value) :
  file_info item item_path = inr info ->
  exists modified,
    info = VDict [("type", VStr "file"); ("name", VStr (filename item));
                  ("path", VStr item_path);
                  ("size", value_of_attr (st_size item));
                  ("modified", VStr modified);
                  ("permissions",
                   VStr (last_chars 3 (oct (mode_of (st_mode item)))));
                  ("owner", value_of_attr (st_uid item));
                  ("group", value_of_attr (st_gid item))].
Proof.
  unfold file_info. destruct (fromtimestamp_isoformat (st_mtime item)); [discriminate |].
  intros [= <-]. eauto.
Qed.

(** Case analysis on a scan tree, with the file record opened. *)
Ltac scan_tree_cases H :=
  let Hinfo := fresh "Hinfo" in
  destruct H as [? ? ? ? ? | ? ? ? ? ? Hinfo | ? ? ? ? | ? ? ? ? ? ?];
  [ | apply file_info_inv in Hinfo; destruct Hinfo as [? ->] | | ].

Lemma scan_tree_bound (max_depth d : Z) (n : value) :
  scan_tree max_depth d n -> d <= max_depth + 1.
Proof. intros H. destruct H; lia. Qed.

Lemma scan_tree_children (max_depth d : Z) (n : value) :
  scan_tree max_depth d n ->
  forall c, In c (node_children n) -> scan_tree max_depth (d + 1) c.
Proof.
  intros H. scan_tree_cases H; cbn; try (intros c []). assumption.
Qed.

Lemma at_depth_scan_tree (max_depth : Z) (r n : value) (k : nat) :
  at_depth r k n ->
  forall d, scan_tree max_depth d r -> scan_tree max_depth (d + Z.of_nat k) n.
Proof.
  induction 1 as [r | r c k n Hc _ IH]; intros d Hr.
  - now replace (d + Z.of_nat 0) with d by lia.
  - replace (d + Z.of_nat (S k)) with (d + 1 + Z.of_nat k) by lia.
    apply IH. eapply scan_tree_children; eassumption.
Qed.

Lemma scan_tree_truncated_at_bound (max_depth : Z) (n : value) :
  scan_tree max_depth (max_depth + 1) n ->
  is_directory n = true -> is_truncated n.
Proof.
  intros H Hdir. remember (max_depth + 1) as d eqn:Hd.
  scan_tree_cases H; cbn in Hdir; try discriminate.
  - split; reflexivity.
  - lia.
Qed.

Lemma scan_tree_listed_within_bound (max_depth d : Z) (n : value) :
  scan_tree max_depth d n -> d <= max_depth ->
  is_directory n = true -> is_listed n.
Proof.
  intros H Hle Hdir.
  scan_tree_cases H; cbn in Hdir; try discriminate.
  - lia.
  - split; [eexists |]; reflexivity.
Qed.

Lemma scan_tree_count_agrees (max_depth d : Z) (n : value) :
  scan_tree max_depth d n -> count_agrees n.
Proof.
  intros H l. scan_tree_cases H; cbn; try discriminate.
  now intros [= <-].
Qed.

Lemma scan_tree_has_path (max_depth d : Z) (n : value) :
  scan_tree max_depth d n -> has_key "path" n = true.
Proof. intros H. scan_tree_cases H; reflexivity. Qed.

Lemma scan_tree_truncated_fields (max_depth d : Z) (n : value) :
  scan_tree max_depth d n ->
  field "truncated" n = Some (VBool true) ->
  exists name path, n = truncated_node name path.
Proof.
  intros H. scan_tree_cases H; cbn; try discriminate. eauto.
Qed.


(** The loop only ever calls [rec] one level down, and only below the
    bound. *)
Lemma scan_items_ext
    (rec1 rec2 : string -> Z -> World -> option (value * World))
    (remote_path : string) (max_depth current_depth : Z) :
  (current_depth < max_depth ->
   forall p w, rec1 p (current_depth + 1) w = rec2 p (current_depth + 1) w) ->
  forall items acc w,
    scan_items rec1 remote_path max_depth current_depth items acc w =
    scan_items rec2 remote_path max_depth current_depth items acc w.
Proof.
  intros Hrec items.
  induction items as [| item rest IH]; intros acc w; simpl; [reflexivity |].
  destruct (is_dot (filename item)); [apply IH |].
  destruct (S_ISDIR (st_mode item)) as [e | [|]]; try apply IH.
  - destruct (current_depth <? max_depth) eqn:Hlt; [| apply IH].
    apply Z.ltb_lt in Hlt. rewrite (Hrec Hlt).
    destruct (rec2 _ _ _) as [[sub w'] |]; [apply IH | reflexivity].
  - destruct (file_info _ _); apply IH.
Qed.

(** Fuel beyond what the remaining depth needs changes nothing. *)
Lemma scan_directory_fuel_irrelevant (max_depth : Z) :
  forall fuel1 fuel2 remote_path current_depth w,
    max_depth - current_depth < Z.of_nat fuel1 ->
    max_depth - current_depth < Z.of_nat fuel2 ->
    0 < Z.of_nat fuel1 -> 0 < Z.of_nat fuel2 ->
    scan_directory_fuel fuel1 remote_path max_depth current_depth w =
    scan_directory_fuel fuel2 remote_path max_depth current_depth w.
Proof.
  induction fuel1 as [| fuel1 IH]; intros fuel2 remote_path current_depth w
    H1 H2 Hp1 Hp2; [lia |].
  destruct fuel2 as [| fuel2]; [lia |]. simpl.
  destruct (current_depth >? max_depth) eqn:Hgt; [reflexivity |].
  destruct (listdir_attr remote_path w) as [[e | items] w1]; [reflexivity |].
  destruct (now_isoformat w1) as [scan_time w2].
  rewrite (scan_items_ext
             (fun p d => scan_directory_fuel fuel1 p max_depth d)
             (fun p d => scan_directory_fuel fuel2 p max_depth d));
    [reflexivity |].
  intros Hlt p w'. apply IH; lia.
Qed.

Lemma scan_directory_unfold (remote_path : string) (max_depth current_depth : Z)
    (w : World) :
  current_depth <= max_depth ->
  scan_directory remote_path max_depth current_depth w =
  match listdir_attr remote_path w with
  | (inl e, w1) => Some (error_node (basename remote_path) remote_path e, w1)
  | (inr items, w1) =>
      let (scan_time, w2) := now_isoformat w1 in
      match scan_items (fun p d => scan_directory p max_depth d)
              remote_path max_depth current_depth items [] w2 with
      | None => None
      | Some (its, w3) => Some (listed_node remote_path its scan_time, w3)
      end
  end.
Proof.
  intros Hle. unfold scan_directory at 1. simpl.
  destruct (current_depth >? max_depth) eqn:Hgt.
  { apply Z.gtb_lt in Hgt. lia. }
  destruct (listdir_attr remote_path w) as [[e | items] w1]; [reflexivity |].
  destruct (now_isoformat w1) as [scan_time w2].
  rewrite (scan_items_ext
             (fun p d => scan_directory_fuel
                           (Z.to_nat (max_depth - current_depth)) p max_depth d)
             (fun p d => scan_directory p max_depth d)).
  - reflexivity.
  - intros Hlt p w'. unfold scan_directory.
    apply scan_directory_fuel_irrelevant; lia.
Qed.

(** Every materialized entry contributes exactly one node, in listing
    order, whatever happens to the other entries. *)
Lemma scan_items_entries (remote_path : string) (max_depth current_depth : Z) :
  forall items acc w its w',
    scan_items (fun p d => scan_directory p max_depth d)
      remote_path max_depth current_depth items acc w = Some (its, w') ->
    exists nodes,
      its = acc ++ nodes /\
      Forall2 (entry_node remote_path max_depth current_depth)
        (listed_entries items) nodes.
Proof.
  induction items as [| item rest IH]; intros acc w its w'; simpl.
  - intros [= <- <-]. exists []. split; [now rewrite app_nil_r | constructor].
  - destruct (is_dot (filename item)) eqn:Hdot; simpl; [apply IH |].
    assert (Hone : forall n w1,
              entry_node remote_path max_depth current_depth item n ->
              scan_items (fun p d => scan_directory p max_depth d)
                remote_path max_depth current_depth rest (acc ++ [n]) w1
                = Some (its, w') ->
              exists nodes,
                its = acc ++ nodes /\
                Forall2 (entry_node remote_path max_depth current_depth)
                  (item :: listed_entries rest) nodes).
    { intros n w1 Hn Hrest. apply IH in Hrest. destruct Hrest as (nodes & -> & Hall).
      exists (n :: nodes). split; [now rewrite <- app_assoc | now constructor]. }
    destruct (S_ISDIR (st_mode item)) as [e | [|]] eqn:Hmode.
    + apply Hone. now constructor.
    + destruct (current_depth <? max_depth) eqn:Hlt.
      * apply Z.ltb_lt in Hlt.
        destruct (scan_directory _ max_depth (current_depth + 1) w)
          as [[sub w1] |] eqn:Hsub; [| discriminate].
        apply Hone. eapply en_descend; eassumption.
      * apply Z.ltb_ge in Hlt. apply Hone. now constructor.
    + destruct (file_info item _) as [e | info] eqn:Hinfo; apply Hone.
      * now apply en_file_fault.
      * now apply en_file.
Qed.

End WalkerProofs.

(* ================================================================== *)
(** * The walker's claims *)
(* ================================================================== *)

Section WalkerClaims.
Context {R : Remote}.

(** C1, as amended. For every root path, every [max_depth >= 0] and every
    behaviour of the lister, [scan_directory path max_depth 0] returns a
    tree in which no node lies deeper than [max_depth + 1]; every
    directory at depth [max_depth + 1] is truncated ([truncated = True], no
    list of items, no children), and every directory at a depth up to
    [max_depth] was listed (it carries its items and no [truncated]
    mark). *)
Theorem scan_directory_depth_bound (remote_path : string) (max_depth : Z)
    (w : World) :
  0 <= max_depth ->
  exists root w',
    scan_directory remote_path max_depth 0 w = Some (root, w') /\
    forall k n, at_depth root k n ->
      Z.of_nat k <= max_depth + 1 /\
      (is_directory n = true ->
       (Z.of_nat k = max_depth + 1 -> is_truncated n /\ node_children n = []) /\
       (Z.of_nat k <= max_depth -> is_listed n)).
Proof.
  intros Hmd.
  destruct (scan_directory_shape remote_path max_depth 0 w Hmd)
    as (root & w' & Hscan & Htree).
  exists root, w'. split; [exact Hscan |].
  intros k n Hat.
  pose proof (at_depth_scan_tree max_depth root n k Hat 0 Htree) as Hn.
  cbn in Hn. split; [apply scan_tree_bound in Hn; lia |].
  intros Hdir. split; intros Hk.
  - rewrite Hk in Hn.
    pose proof (scan_tree_truncated_at_bound max_depth n Hn Hdir) as Htr.
    split; [exact Htr |]. destruct Htr as [_ Hnone].
    unfold node_children. now rewrite Hnone.
  - eapply scan_tree_listed_within_bound; eassumption.
Qed.

(** C2, as amended. [scan_directory] at a depth within the bound always
    returns. When listing the path itself fails, it returns the Error node
    [{type, name, path, error}] of that path, whose message is the fixed
    text [权限不足] for a [PermissionError] and [str(e)] for any other
    fault. When the listing succeeds, it returns the Directory node whose
    items are, in listing order, one node per entry other than [.] and
    [..]: the Error node of the entry when classifying it fails, else its
    subtree, its truncated node or its file record. *)
Theorem scan_directory_fault_isolation (remote_path : string)
    (max_depth current_depth : Z) (w : World) :
  current_depth <= max_depth ->
  (forall e, error_message e =
             if is_PermissionError e then "权限不足" else str_exn e) /\
  match listdir_attr remote_path w with
  | (inl e, w1) =>
      scan_directory remote_path max_depth current_depth w =
      Some (VDict [("type", VStr "error");
                   ("name", VStr (basename remote_path));
                   ("path", VStr remote_path);
                   ("error", VStr (error_message e))], w1)
  | (inr items, w1) =>
      exists its w',
        scan_directory remote_path max_depth current_depth w =
        Some (listed_node remote_path its (fst (now_isoformat w1)), w') /\
        Forall2 (entry_node remote_path max_depth current_depth)
          (listed_entries items) its
  end.
Proof.
  intros Hle. split; [reflexivity |].
  destruct (scan_directory_shape remote_path max_depth current_depth w Hle)
    as (n & w' & Hscan & _).
  rewrite (scan_directory_unfold _ _ _ _ Hle) in *.
  destruct (listdir_attr remote_path w) as [[e | items] w1]; [reflexivity |].
  destruct (now_isoformat w1) as [scan_time w2]. cbn [fst].
  destruct (scan_items _ _ _ _ _ _ _) as [[its w3] |] eqn:Hitems;
    [| discriminate].
  exists its, w3. split; [reflexivity |].
  apply scan_items_entries in Hitems. destruct Hitems as (nodes & -> & Hall).
  exact Hall.
Qed.

(** C8. In the tree [scan_directory] returns, for any arguments, every
    node that carries a list of items records its length as [item_count]. *)
Theorem item_count_matches_items (remote_path : string)
    (max_depth current_depth : Z) (w : World) :
  exists root w',
    scan_directory remote_path max_depth current_depth w = Some (root, w') /\
    forall k n, at_depth root k n -> count_agrees n.
Proof.
  destruct (Z.le_gt_cases current_depth max_depth) as [Hle | Hgt].
  - destruct (scan_directory_shape remote_path max_depth current_depth w Hle)
      as (root & w' & Hscan & Htree).
    exists root, w'. split; [exact Hscan |]. intros k n Hat.
    eapply scan_tree_count_agrees, at_depth_scan_tree; eassumption.
  - exists (guard_node remote_path), w. split.
    + unfold scan_directory. simpl.
      apply Z.gtb_lt in Hgt. now rewrite Hgt.
    + intros k n Hat. inversion Hat as [| ? c ? ? Hc]; subst.
      * intros l. discriminate.
      * destruct Hc.
Qed.

(** C9. For a root path whose basename is empty and [max_depth >= 0], the
    call returns; when the listing of the root succeeds the result is a
    Directory node, and whenever the result is a Directory node its name
    is ["/"]. *)
Theorem scan_directory_root_name (remote_path : string) (max_depth : Z)
    (w : World) :
  basename remote_path = "" ->
  0 <= max_depth ->
  exists root w',
    scan_directory remote_path max_depth 0 w = Some (root, w') /\
    (forall items w1, listdir_attr remote_path w = (inr items, w1) ->
                      is_directory root = true) /\
    (is_directory root = true -> field "name" root = Some (VStr "/")).
Proof.
  intros Hbase Hmd.
  destruct (scan_directory_shape remote_path max_depth 0 w Hmd)
    as (root & w' & Hscan & _).
  exists root, w'. split; [exact Hscan |].
  rewrite (scan_directory_unfold _ _ _ _ Hmd) in Hscan.
  destruct (listdir_attr remote_path w) as [[e | items] w1].
  - injection Hscan as <- <-. split; [discriminate |]. cbn. discriminate.
  - destruct (now_isoformat w1) as [scan_time w2].
    destruct (scan_items _ _ _ _ _ _ _) as [[its w3] |]; [| discriminate].
    injection Hscan as <- <-. split; [reflexivity |].
    intros _. cbn. unfold name_or_root. now rewrite Hbase.
Qed.

(** C10. For every top-level call with [max_depth >= 0] the node of the
    entry guard (line 151, the only node without a path) occurs nowhere in
    the returned tree: every node has a path and differs from the guard's
    node. Every node with [truncated = True] is the literal a parent builds
    (lines 180-185): its keys are exactly type, name, path, truncated, so it
    carries no items, no item_count and no scan_time. *)
Theorem truncated_nodes_built_by_parent (remote_path : string) (max_depth : Z)
    (w : World) :
  0 <= max_depth ->
  exists root w',
    scan_directory remote_path max_depth 0 w = Some (root, w') /\
    forall k n, at_depth root k n ->
      has_key "path" n = true /\
      (forall p, n <> guard_node p) /\
      (field "truncated" n = Some (VBool true) ->
       exists name path,
         n = VDict [("type", VStr "directory"); ("name", VStr name);
                    ("path", VStr path); ("truncated", VBool true)] /\
         has_key "items" n = false /\
         has_key "item_count" n = false /\
         has_key "scan_time" n = false).
Proof.
  intros Hmd.
  destruct (scan_directory_shape remote_path max_depth 0 w Hmd)
    as (root & w' & Hscan & Htree).
  exists root, w'. split; [exact Hscan |].
  intros k n Hat.
  pose proof (at_depth_scan_tree max_depth root n k Hat 0 Htree) as Hn.
  pose proof (scan_tree_has_path _ _ _ Hn) as Hpath.
  split; [exact Hpath |]. split.
  - intros p ->. discriminate.
  - intros Htr.
    destruct (scan_tree_truncated_fields _ _ _ Hn Htr) as (name & path & ->).
    exists name, path. repeat split.
Qed.

End WalkerClaims.

(** ** The scenarios, on the small remote tree *)

Lemma scan_directory_depth_bound_witness :
  0 <= 1 /\
  exists root w',
    scan_directory (R := Scenario.remote) "/root" 1 0 tt = Some (root, w') /\
    forall k n, at_depth root k n ->
      Z.of_nat k <= 1 + 1 /\
      (is_directory n = true ->
       (Z.of_nat k = 1 + 1 -> is_truncated n /\ node_children n = []) /\
       (Z.of_nat k <= 1 -> is_listed n)).
Proof.
  split; [lia |].
  apply (scan_directory_depth_bound (R := Scenario.remote) "/root" 1 tt). lia.
Defined.

(** C1 as the specification words it fails: with [max_depth = 0] the root
    is a Directory at depth 0 = [max_depth], yet it was listed and holds
    three children. *)
Lemma root_at_max_depth_not_truncated :
  exists root w',
    scan_directory (R := Scenario.remote) "/root" 0 0 tt = Some (root, w') /\
    ~ truncated_at_max_depth 0 root.
Proof.
  eexists _, _. split; [reflexivity |].
  intros H. specialize (H _ (at_root _) eq_refl). destruct H as [H _].
  discriminate H.
Qed.

Lemma scan_directory_fault_isolation_witness :
  0 <= 5 /\
  (forall e, error_message (R := Scenario.remote) e =
             if is_PermissionError e then "权限不足" else str_exn e) /\
  exists its w',
    scan_directory (R := Scenario.remote) "/root" 5 0 tt =
    Some (listed_node "/root" its "2024-01-01T00:00:00", w') /\
    Forall2 (entry_node (R := Scenario.remote) "/root" 5 0)
      [Scenario.directory_entry "A"; Scenario.directory_entry "B";
       Scenario.file_entry "g.log" 0] its.
Proof.
  split; [lia |].
  apply (scan_directory_fault_isolation (R := Scenario.remote) "/root" 5 0 tt).
  lia.
Defined.

(** The third end-to-end scenario on the code: the fault on [/root/B]
    becomes an Error node between the intact subtree of [/root/A] and the
    record of [/root/g.log]. *)
Example scan_root_with_refused_B :
  scan_directory (R := Scenario.remote) "/root" 5 0 tt =
  Some (Scenario.directory_node "root" "/root"
          [Scenario.directory_node "A" "/root/A"
             [Scenario.file_node "f.txt" "/root/A/f.txt" 2097152];
           VDict [("type", VStr "error"); ("name", VStr "B");
                  ("path", VStr "/root/B"); ("error", VStr "权限不足")];
           Scenario.file_node "g.log" "/root/g.log" 0], tt).
Proof. reflexivity. Qed.

(** C2 as the specification words it fails on the message: the Error node
    of [/root/B] does not hold the text "permission denied". *)
Lemma refused_B_message_is_not_permission_denied :
  exists root w',
    scan_directory (R := Scenario.remote) "/root" 5 0 tt = Some (root, w') /\
    ~ In permission_denied_node_as_specified (node_children root).
Proof.
  eexists _, _. split; [reflexivity |].
  cbn. intros [H | [H | [H | []]]]; discriminate H.
Qed.

Lemma scan_directory_root_name_witness :
  basename "/" = "" /\ 0 <= 0 /\
  exists root w',
    scan_directory (R := Scenario.remote) "/" 0 0 tt = Some (root, w') /\
    (forall items w1,
        listdir_attr (Remote := Scenario.remote) "/" tt = (inr items, w1) ->
        is_directory root = true) /\
    (is_directory root = true -> field "name" root = Some (VStr "/")).
Proof.
  split; [reflexivity |]. split; [lia |].
  apply (scan_directory_root_name (R := Scenario.remote) "/" 0 tt);
    [reflexivity | lia].
Defined.

Lemma truncated_nodes_built_by_parent_witness :
  0 <= 0 /\
  exists root w',
    scan_directory (R := Scenario.remote) "/root" 0 0 tt = Some (root, w') /\
    forall k n, at_depth root k n ->
      has_key "path" n = true /\
      (forall p, n <> guard_node p) /\
      (field "truncated" n = Some (VBool true) ->
       exists name path,
         n = VDict [("type", VStr "directory"); ("name", VStr name);
                    ("path", VStr path); ("truncated", VBool true)] /\
         has_key "items" n = false /\
         has_key "item_count" n = false /\
         has_key "scan_time" n = false).
Proof.
  split; [lia |].
  apply (truncated_nodes_built_by_parent (R := Scenario.remote) "/root" 0 tt).
  lia.
Defined.

(* ================================================================== *)
(** * Properties of the renderers *)
(* ================================================================== *)

Section WriterLaws.
Variable fault : sink.

Lemma andthen_assoc (m1 m2 m3 : writer) (out : list string) :
  ((m1 ;; m2) ;; m3) out = (m1 ;; m2 ;; m3) out.
Proof.
  unfold andthen. destruct (m1 out) as [[|] out1]; [| reflexivity].
  reflexivity.
Qed.

Lemma skip_andthen (m : writer) (out : list string) : (skip ;; m) out = m out.
Proof. reflexivity. Qed.

Lemma andthen_skip (m : writer) (out : list string) : (m ;; skip) out = m out.
Proof. unfold andthen, skip. now destruct (m out) as [[|] out1]. Qed.

Lemma andthen_ext (m1 m1' m2 m2' : writer) :
  (forall out, m1 out = m1' out) -> (forall out, m2 out = m2' out) ->
  forall out, (m1 ;; m2) out = (m1' ;; m2') out.
Proof.
  intros H1 H2 out. unfold andthen. rewrite H1.
  destruct (m1' out) as [[|] out1]; [apply H2 | reflexivity].
Qed.

Lemma write_all_app (xs ys : list string) (out : list string) :
  write_all fault (xs ++ ys) out = (write_all fault xs ;; write_all fault ys) out.
Proof.
  revert out. induction xs as [| x xs IH]; intros out; simpl; [reflexivity |].
  rewrite andthen_assoc. apply andthen_ext; [reflexivity | exact IH].
Qed.

Lemma write_all_one (x : string) (out : list string) :
  write_all fault [x] out = write fault x out.
Proof. simpl. apply andthen_skip. Qed.

(** On a sink that never fails every text is written. *)
Lemma write_all_reliable (texts out : list string) :
  write_all reliable texts out = (Done, out ++ texts).
Proof.
  revert out. induction texts as [| t rest IH]; intros out; simpl.
  - unfold skip. now rewrite app_nil_r.
  - unfold andthen, write, reliable. rewrite IH. now rewrite <- app_assoc.
Qed.

End WriterLaws.

Section RendererEquations.
Variable fault : sink.
Variable repr : value -> string.

Lemma with_item_get (k : string) (absent : writer) (present : value -> writer)
    (d : list (string * value)) :
  with_item k absent present d =
  match dict_get k d with
  | Some v => present v
  | None => absent
  end.
Proof.
  induction d as [| [k' v] rest IH]; [reflexivity |].
  cbn [with_item dict_get]. destruct (String.eqb k k'); [reflexivity | exact IH].
Qed.

Lemma each_item_cons (render : value -> writer) (item : value)
    (more : list value) :
  each_item render (item :: more) = (render item ;; each_item render more).
Proof. reflexivity. Qed.

(** [_write_text_format] on a dict, with its fields looked up by key. *)
Lemma _write_text_format_dict (d : list (string * value)) (indent : Z) :
  _write_text_format fault repr (VDict d) indent =
  let prefix := repeat_string "  " indent in
  match dict_get "type" d with
  | None => raise
  | Some type =>
      if eq_str type "directory" then
        emit_with fault repr (dict_get "name" d)
          (fun name => prefix ^^ "[DIR] " ^^ name ^^ nl) ;;
        text_children fault repr (dict_get "items" d) indent
      else if eq_str type "file" then
        match size_mb (dict_get "size" d) with
        | None => raise
        | Some mb =>
            emit_with fault repr (dict_get "name" d)
              (fun name =>
                 prefix ^^ "[FILE] " ^^ name ^^ " (" ^^ format_2f mb ^^ " MB)" ^^ nl)
        end
      else if eq_str type "error" then
        emit_with fault repr (dict_get "name" d)
          (fun name =>
             prefix ^^ "[ERROR] " ^^ name ^^ " - "
               ^^ get_default repr "error" d "未知错误" ^^ nl)
      else skip
  end.
Proof.
  cbn zeta. cbn [_write_text_format].
  destruct (dict_get "type" d) as [type |]; [| reflexivity].
  destruct (eq_str type "directory"); [| reflexivity].
  f_equal. rewrite with_item_get.
  destruct (dict_get "items" d) as [[| b | z | s | [| item more] | d'] |];
    try reflexivity; cbn [truthy text_children]; now destruct (negb _).
Qed.

(** [_write_markdown_format] on a dict, with its fields looked up by key. *)
Lemma _write_markdown_format_dict (d : list (string * value)) (indent : Z) :
  _write_markdown_format fault repr (VDict d) indent =
  ((if indent =? 0 then report_preamble fault repr (VDict d) else skip) ;;
   match dict_get "type" d with
   | None => raise
   | Some type =>
       if eq_str type "directory" then
         emit_with fault repr (dict_get "name" d) (directory_heading indent) ;;
         report_children fault repr (dict_get "items" d) indent
       else if eq_str type "file" then file_details fault repr d
       else if eq_str type "error" then error_details fault repr d
       else skip
   end).
Proof.
  cbn [_write_markdown_format]. f_equal.
  destruct (dict_get "type" d) as [type |]; [| reflexivity].
  destruct (eq_str type "directory"); [| reflexivity].
  f_equal. rewrite with_item_get.
  destruct (dict_get "items" d) as [[| b | z | s | [| item more] | d'] |];
    try reflexivity; cbn [truthy report_children];
    match goal with
    | |- context [if ?c then _ else _] => now destruct c
    end.
Qed.

End RendererEquations.

Section TextRenderer.
Variable fault : sink.
Variable repr : value -> string.

Lemma round_to_53_bits_exact (size : Z) :
  exact_size size -> round_to_53_bits size = size.
Proof.
  intros [Hlo Hhi]. unfold round_to_53_bits.
  assert (Hlog : Z.log2 size - 52 <= 0).
  { destruct (Z.eq_dec size 0) as [-> | Hnz]; [cbn; lia |].
    assert (Z.log2 size < 53) by (apply Z.log2_lt_pow2; lia). lia. }
  apply Z.leb_le in Hlog. now rewrite Hlog.
Qed.

(** Within the exact range the division by [2^20] loses nothing, and the
    text is the quotient rounded to two decimals. *)
Lemma size_mb_exact (size : Z) :
  exact_size size ->
  size_mb (Some (VInt size)) = Some size /\
  format_2f size = two_decimals size 1048576.
Proof.
  intros Hsize. pose proof Hsize as [Hlo Hhi]. split.
  - unfold size_mb, div_MiB. rewrite Z.abs_eq by lia.
    rewrite (round_to_53_bits_exact _ Hsize).
    assert (Hbig : 2 ^ 53 < 2 ^ 1044) by (apply Z.pow_lt_mono_r; lia).
    destruct (2 ^ 1044 <=? size) eqn:Hle; [apply Z.leb_le in Hle; lia |].
    f_equal. destruct (Z.eq_dec size 0) as [-> | Hnz]; [reflexivity |].
    rewrite Z.sgn_pos by lia. lia.
  - unfold format_2f, two_decimals. rewrite Z.abs_eq by lia.
    destruct (size <? 0) eqn:Hneg; [apply Z.ltb_lt in Hneg; lia |].
    reflexivity.
Qed.


End TextRenderer.

Section ReportRenderer.
Variable fault : sink.
Variable repr : value -> string.







End ReportRenderer.

(** ** The texts the report renderer writes *)

Section WritesOnly.
Variable fault : sink.
Variable P : string -> Prop.

Lemma writes_only_skip : writes_only P skip.
Proof. intros out. exists []. cbn. now rewrite app_nil_r. Qed.

Lemma writes_only_raise : writes_only P raise.
Proof. intros out. exists []. cbn. now rewrite app_nil_r. Qed.

Lemma writes_only_write (text : string) :
  P text -> writes_only P (write fault text).
Proof.
  intros Htext out. unfold write. destruct (fault out text); cbn.
  - exists []. now rewrite app_nil_r.
  - exists [text]. auto.
Qed.

Lemma writes_only_andthen (m1 m2 : writer) :
  writes_only P m1 -> writes_only P m2 -> writes_only P (m1 ;; m2).
Proof.
  intros H1 H2 out. unfold andthen.
  destruct (H1 out) as (new1 & E1 & F1).
  destruct (m1 out) as [[|] out1]; cbn in E1; subst out1.
  - destruct (H2 (out ++ new1)) as (new2 & E2 & F2).
    exists (new1 ++ new2). rewrite E2, app_assoc. split; [reflexivity |].
    now apply Forall_app.
  - exists new1. auto.
Qed.

Lemma writes_only_emit_with (repr : value -> string) (v : option value)
    (line : string -> string) :
  (forall x, v = Some x -> P (line (py_str repr x))) ->
  writes_only P (emit_with fault repr v line).
Proof.
  intros H. destruct v as [x |]; cbn.
  - apply writes_only_write, H. reflexivity.
  - apply writes_only_raise.
Qed.

End WritesOnly.

Lemma writes_only_mono (P Q : string -> Prop) (m : writer) :
  (forall text, P text -> Q text) -> writes_only P m -> writes_only Q m.
Proof.
  intros HPQ Hm out. destruct (Hm out) as (new & E & F).
  exists new. split; [exact E |]. eapply Forall_impl; eassumption.
Qed.

Create HintDb writes.

#[local] Hint Resolve writes_only_skip writes_only_raise writes_only_andthen
  writes_only_write writes_only_emit_with : writes.

(** The level of a directory heading is the number of its marks. *)
Lemma leading_hashes_marker (k : nat) (rest : string) :
  leading_hashes (repeat_string_nat "#" k ^^ " " ^^ rest) = k.
Proof.
  induction k as [| k IH]; [reflexivity |].
  change (S (leading_hashes (repeat_string_nat "#" k ^^ " " ^^ rest)) = S k).
  now rewrite IH.
Qed.

Lemma leading_hashes_directory_heading (indent : Z) (name : string) :
  leading_hashes (directory_heading indent name) = Z.to_nat (Z.min (indent + 2) 6).
Proof.
  unfold directory_heading, heading_marker, heading_level, repeat_string.
  change (" 📁 " ^^ name ^^ nl ^^ nl) with (" " ^^ ("📁 " ^^ name ^^ nl ^^ nl)).
  apply leading_hashes_marker.
Qed.

(** What follows the marks of a directory heading is the folder sign. *)
Lemma after_hashes_marker (k : nat) (rest : string) :
  after_hashes (repeat_string_nat "#" k ^^ " " ^^ rest) = " " ^^ rest.
Proof.
  induction k as [| k IH]; [reflexivity |].
  change (after_hashes (repeat_string_nat "#" k ^^ " " ^^ rest) = " " ^^ rest).
  exact IH.
Qed.

(** The heading of the specification has the level it is given, and reads
    as the heading of a directory. *)
Lemma heading_text_level (level : Z) (name : string) :
  0 <= level ->
  Z.of_nat (leading_hashes (heading_text level name)) = level /\
  directory_heading_like (heading_text level name) = true.
Proof.
  intros Hlevel. unfold directory_heading_like, heading_text, repeat_string.
  change (folder_sign ^^ name ^^ nl ^^ nl)
    with (" " ^^ ("📁 " ^^ name ^^ nl ^^ nl)).
  rewrite leading_hashes_marker, after_hashes_marker. split; [lia | reflexivity].
Qed.

Lemma dict_get_In (k : string) (d : list (string * value)) (v : value) :
  dict_get k d = Some v -> In (k, v) d.
Proof.
  induction d as [| [k' v'] rest IH]; cbn; [discriminate |].
  destruct (String.eqb k k') eqn:E.
  - apply String.eqb_eq in E. subst k'. intros [= ->]. now left.
  - intros H. right. auto.
Qed.

Section ReportHeadings.
Variable fault : sink.
Variable repr : value -> string.

#[local] Abbreviation plain :=
  (fun text => leading_hashes text = O /\ directory_heading_like text = false).

Ltac plain_writes :=
  repeat first
    [ apply writes_only_andthen
    | apply writes_only_skip
    | apply writes_only_raise
    | apply writes_only_emit_with; intros; split; reflexivity
    | apply writes_only_write; split; reflexivity ].

Lemma table_row_plain (item : value) :
  writes_only plain (table_row fault repr item).
Proof.
  unfold table_row. destruct item; try apply writes_only_raise.
  destruct (dict_get "type" d) as [type |]; [| apply writes_only_raise].
  destruct (eq_str type "file").
  { destruct (size_mb _); plain_writes. }
  destruct (eq_str type "directory"); [plain_writes |].
  destruct (eq_str type "error"); plain_writes.
Qed.

Lemma table_rows_plain (items : list value) :
  writes_only plain (table_rows fault repr items).
Proof.
  induction items as [| item more IH]; cbn; [apply writes_only_skip |].
  apply writes_only_andthen; [apply table_row_plain | exact IH].
Qed.

Lemma file_details_plain (d : list (string * value)) :
  writes_only plain (file_details fault repr d).
Proof. unfold file_details. destruct (size_mb _); plain_writes. Qed.

Lemma error_details_plain (d : list (string * value)) :
  writes_only plain (error_details fault repr d).
Proof. unfold error_details. plain_writes. Qed.

(** The preamble writes its fixed headings, the verbatim disk usage, and
    plain texts. *)
Lemma report_preamble_emits (data : value) :
  writes_only (emitted_text repr data 0) (report_preamble fault repr data).
Proof.
  assert (Hplain : forall text, leading_hashes text = O ->
                                directory_heading_like text = false ->
                                emitted_text repr data 0 text)
    by (intros; now apply et_plain).
  assert (Hhead : forall text, (1 <= leading_hashes text <= 3)%nat ->
                               directory_heading_like text = false ->
                               emitted_text repr data 0 text)
    by (intros; now apply et_preamble_heading).
  unfold report_preamble. apply writes_only_andthen.
  { apply writes_only_write, Hhead; [cbn; lia | reflexivity]. }
  destruct data; auto with writes.
  apply writes_only_andthen; [apply writes_only_write, Hplain; reflexivity |].
  apply writes_only_andthen;
    [| apply writes_only_write, Hhead; [cbn; lia | reflexivity]].
  destruct (dict_get "system_info" d) as [sys_info |] eqn:Hsys;
    auto with writes.
  apply writes_only_andthen;
    [apply writes_only_write, Hhead; [cbn; lia | reflexivity] |].
  destruct sys_info as [| | | | | si]; auto with writes.
  apply writes_only_andthen; [apply writes_only_write, Hplain; reflexivity |].
  apply writes_only_andthen;
    [apply writes_only_write, Hhead; [cbn; lia | reflexivity] |].
  apply writes_only_andthen; [apply writes_only_write, Hplain; reflexivity |].
  apply writes_only_andthen; [| apply writes_only_write, Hplain; reflexivity].
  assert (Hverb : forall text,
            match dict_get "disk_usage" si with
            | Some v => v = VStr text
            | None => text = "未知"
            end -> emitted_text repr (VDict d) 0 text).
  { intros text Htext. apply et_verbatim; [reflexivity |].
    exists (VDict si). split; [exact Hsys | exact Htext]. }
  destruct (dict_get "disk_usage" si) as [[| | | text | |] |];
    auto with writes.
Qed.


(** What a nested directory writes, its parent writes. *)
Lemma emitted_text_nested (data item : value) (indent : Z) (text : string) :
  0 <= indent ->
  is_directory data = true ->
  In item (node_children data) ->
  nested_directory item = Some true ->
  emitted_text repr item (indent + 1) text ->
  emitted_text repr data indent text.
Proof.
  intros Hindent Hdir Hin Hnested Htext.
  destruct Htext as [dir d name Hvisits Hname -> Hlevel | Hzero _ _ | Hzero _
                    | Hplain Hlike].
  - eapply et_directory_heading;
      [eapply visits_nested; eassumption | eassumption | reflexivity | exact Hlevel].
  - lia.
  - lia.
  - now apply et_plain.
Qed.

Lemma report_nested_emits (data : value) (indent : Z) (items : list value) :
  0 <= indent ->
  is_directory data = true ->
  (forall item, In item items -> In item (node_children data)) ->
  Forall (emits_only fault repr) items ->
  writes_only (emitted_text repr data indent)
    (report_nested fault repr items (indent + 1)).
Proof.
  intros Hindent Hdir Hsub Hall.
  induction Hall as [| item more Hitem _ IH].
  - apply writes_only_skip.
  - assert (Hmore : forall x, In x more -> In x (node_children data))
      by (intros x Hx; apply Hsub; now right).
    unfold report_nested. rewrite each_item_cons.
    apply writes_only_andthen; [| now apply IH].
    unfold report_nested_item.
    destruct (nested_directory item) as [[|] |] eqn:Hnested.
    + eapply writes_only_mono; [| apply Hitem; lia].
      intros text. apply emitted_text_nested; auto. apply Hsub. now left.
    + apply writes_only_skip.
    + apply writes_only_raise.
Qed.

Lemma report_preamble_if_emits (data : value) (indent : Z) :
  writes_only (emitted_text repr data indent)
    (if indent =? 0 then report_preamble fault repr data else skip).
Proof.
  destruct (indent =? 0) eqn:Hz; [| apply writes_only_skip].
  apply Z.eqb_eq in Hz. subst indent. apply report_preamble_emits.
Qed.

Lemma report_emits_only (data : value) :
  emits_only fault repr data /\
  match data with
  | VList items => Forall (emits_only fault repr) items
  | _ => True
  end.
Proof.
  induction data as [| b | z | s | l IH | d IH] using value_ind;
    try (split; [| exact I]; intros indent Hindent;
         cbn [_write_markdown_format];
         apply writes_only_andthen;
           [apply report_preamble_if_emits | apply writes_only_raise]).
  - (* a list is not a node; its elements are kept for the dict above *)
    split.
    + intros indent Hindent. cbn [_write_markdown_format].
      apply writes_only_andthen;
        [apply report_preamble_if_emits | apply writes_only_raise].
    + eapply Forall_impl; [| exact IH]. now intros x [Hx _].
  - split; [| exact I]. intros indent Hindent.
    rewrite _write_markdown_format_dict.
    apply writes_only_andthen; [apply report_preamble_if_emits |].
    assert (Hplain : forall m, writes_only plain m ->
                               writes_only (emitted_text repr (VDict d) indent) m).
    { intros m. apply writes_only_mono. intros text [Hzero Hlike].
      now apply et_plain. }
    destruct (dict_get "type" d) as [type |] eqn:Htype;
      [| apply writes_only_raise].
    destruct (eq_str type "directory") eqn:Hdir.
    + assert (Hisdir : is_directory (VDict d) = true).
      { unfold is_directory, field. now rewrite Htype. }
      apply writes_only_andthen.
      * apply writes_only_emit_with. intros name Hname.
        eapply et_directory_heading;
          [now apply visits_here | exact Hname | reflexivity |].
        rewrite leading_hashes_directory_heading. lia.
      * unfold report_children.
        destruct (dict_get "items" d) as [items |] eqn:Hitems;
          [| apply writes_only_skip].
        assert (Htable : forall m,
                  writes_only (emitted_text repr (VDict d) indent) m ->
                  writes_only (emitted_text repr (VDict d) indent)
                    (write fault table_header ;; write fault table_rule ;; m)).
        { intros m Hm. repeat apply writes_only_andthen; try exact Hm;
            apply Hplain, writes_only_write; split; reflexivity. }
        destruct items as [| b | z | s | items | d'];
          try (destruct (truthy _);
               [apply Htable, writes_only_raise | apply writes_only_skip]).
        destruct items as [| item more]; [apply writes_only_skip |].
        apply Htable. apply writes_only_andthen;
          [apply Hplain, table_rows_plain |].
        apply writes_only_andthen;
          [apply Hplain, writes_only_write; split; reflexivity |].
        apply report_nested_emits; auto.
        -- intros x Hx. unfold node_children, field. now rewrite Hitems.
        -- apply dict_get_In in Hitems.
           rewrite Forall_forall in IH. apply IH in Hitems. apply Hitems.
    + destruct (eq_str type "file"); [apply Hplain, file_details_plain |].
      destruct (eq_str type "error"); [apply Hplain, error_details_plain |].
      apply writes_only_skip.
Qed.

End ReportHeadings.

(* ================================================================== *)
(** * The renderers' claims *)
(* ================================================================== *)

Section RendererClaims.
Variable fault : sink.
Variable repr : value -> string.

(** C7. Every heading the report renderer writes for a directory at
    recursion depth [d] has level [min(d + 2, 6)], and no heading has a
    level above 6. For any value rendered at any depth from 0:
    - every text written is the heading [heading_text] of level
      [min(d + 2, 6)] of a directory visited at depth [d], or (at depth 0)
      a fixed heading of the preamble of level 1 to 3, or the verbatim
      disk-usage text, or no heading at all; the texts of the last kinds
      do not read as the heading of a directory, so a directory heading
      of any other level is none of them;
    - a call on a directory writes, after the preamble, exactly the
      heading of level [min(indent + 2, 6)] with its name, and goes on
      with the table;
    - that heading starts with as many marks as its level, followed by the
      folder sign. *)
Theorem report_heading_levels (data : value) (indent : Z) :
  0 <= indent ->
  (forall out, exists new,
      snd (_write_markdown_format fault repr data indent out) = out ++ new /\
      Forall (emitted_text repr data indent) new /\
      Forall (fun text => verbatim_text data text \/
                          (leading_hashes text <= 6)%nat) new) /\
  (forall d name,
      data = VDict d ->
      dict_get "type" d = Some (VStr "directory") ->
      dict_get "name" d = Some name ->
      forall out,
        _write_markdown_format fault repr data indent out
        = ((if indent =? 0 then report_preamble fault repr data else skip) ;;
           write fault (heading_text (Z.min (indent + 2) 6) (py_str repr name)) ;;
           report_children fault repr (dict_get "items" d) indent) out) /\
  (forall name,
      Z.of_nat (leading_hashes
                  (heading_text (Z.min (indent + 2) 6) name))
      = Z.min (indent + 2) 6 /\
      directory_heading_like (heading_text (Z.min (indent + 2) 6) name) = true).
Proof.
  intros Hindent. split; [| split].
  - intros out.
    destruct (report_emits_only fault repr data) as [Hemits _].
    destruct (Hemits indent Hindent out) as (new & Hnew & Hall).
    exists new. split; [exact Hnew |]. split; [exact Hall |].
    eapply Forall_impl; [| exact Hall].
    intros text [dir d name _ _ _ Hlevel | _ Hlevel _ | _ Hverbatim | Hplain _];
      [right; lia | right; lia | now left | right; lia].
  - intros d name -> Htype Hname out.
    rewrite _write_markdown_format_dict, Htype, Hname. reflexivity.
  - intros name. apply heading_text_level. lia.
Qed.

(** What a sink that fails leaves behind is a prefix of what was to be
    written. *)
Lemma write_all_prefix (texts out : list string) :
  exists written rest,
    snd (write_all fault texts out) = out ++ written /\
    texts = written ++ rest /\
    (fst (write_all fault texts out) = Done -> rest = []).
Proof.
  revert out. induction texts as [| t more IH]; intros out.
  - exists [], []. cbn. rewrite app_nil_r. auto.
  - cbn [write_all]. unfold andthen, write.
    destruct (fault out t).
    + exists [], (t :: more). cbn. rewrite app_nil_r.
      repeat split. discriminate.
    + destruct (IH (out ++ [t])) as (written & rest & Hw & -> & Hdone).
      exists (t :: written), rest. rewrite Hw, <- app_assoc. auto.
Qed.

(** C5, as amended. [save_results] never raises: it returns a boolean.
    It accepts exactly the identifiers that are ["json"], ["txt"] or ["md"]
    once lowered. For any other identifier it returns [False] and opens no
    file. For an accepted one, when [open] fails it returns [False]; else
    the selected renderer runs on the emptied file, [save_results] returns
    [True] when the renderer returns and [False] when it raises (a write
    fault, or a value it cannot render), and what was written before the
    failure stays in the file; for ["json"] that is a prefix of the pieces
    of the document. *)
Theorem save_results_reports_failure (open_fails : bool)
    (configured_format : string) (data : value) :
  let result := save_results open_fails fault repr configured_format data in
  match renderer_for fault repr (lower configured_format) data with
  | None => result = (false, None)
  | Some render =>
      (open_fails = true -> result = (false, None)) /\
      (open_fails = false ->
       result = (match fst (render []) with Done => true | Raised => false end,
                 Some (snd (render []))))
  end /\
  (fst result = true ->
   In (lower configured_format) ["json"; "txt"; "md"] /\ open_fails = false) /\
  (lower configured_format = "json" -> open_fails = false ->
   exists written rest,
     snd result = Some written /\ iterencode data 0 = written ++ rest /\
     (fst result = true -> rest = [])).
Proof.
  cbn zeta. unfold save_results, renderer_for, with_open.
  destruct (String.eqb (lower configured_format) "json") eqn:Hjson;
    [| destruct (String.eqb (lower configured_format) "txt") eqn:Htxt;
       [| destruct (String.eqb (lower configured_format) "md") eqn:Hmd]].
  - apply String.eqb_eq in Hjson. rewrite Hjson.
    destruct (write_all_prefix (iterencode data 0) [])
      as (written & rest & Hw & Hsplit & Hdone).
    cbn [app] in Hw. unfold json_dump in *.
    destruct (write_all fault (iterencode data 0) []) as [r texts].
    cbn [fst snd] in *. subst texts.
    destruct open_fails; (split; [split; intros Hopen; try discriminate; try reflexivity |]).
    + split; [cbn; discriminate |]. discriminate.
    + destruct r; reflexivity.
    + split; [intros _; cbn; auto |]. intros _ _.
      exists written, rest. destruct r; cbn; repeat split; auto.
      discriminate.
  - apply String.eqb_eq in Htxt. rewrite Htxt.
    destruct (_write_text_format fault repr data 0 []) as [r texts].
    destruct open_fails; (split; [split; intros Hopen; try discriminate; try reflexivity |]).
    + split; [cbn; discriminate | discriminate].
    + destruct r; reflexivity.
    + split; [intros _; cbn; auto | discriminate].
  - apply String.eqb_eq in Hmd. rewrite Hmd.
    destruct (_write_markdown_format fault repr data 0 []) as [r texts].
    destruct open_fails; (split; [split; intros Hopen; try discriminate; try reflexivity |]).
    + split; [cbn; discriminate | discriminate].
    + destruct r; reflexivity.
    + split; [intros _; cbn; auto | discriminate].
  - split; [reflexivity |]. split; [cbn; discriminate |].
    intros Heq. rewrite Heq in Hjson. discriminate.
Qed.

End RendererClaims.

(** ** The scenarios of the renderers *)

Lemma exact_size_small (size : Z) : 0 <= size < 4294967296 -> exact_size size.
Proof.
  intros H. unfold exact_size.
  assert (4294967296 < 2 ^ 53) by reflexivity. lia.
Qed.

(** The first end-to-end scenario: the four lines of the specification. *)
Example text_of_tree_A_g :
  _write_text_format reliable (fun _ => "") Scenario.tree_A_g 0 [] =
  (Done, ["[DIR] root" ^^ nl;
          "  [DIR] A" ^^ nl;
          "    [FILE] f.txt (2.00 MB)" ^^ nl;
          "  [FILE] g.log (0.00 MB)" ^^ nl]).
Proof. reflexivity. Qed.






(** C5 as the specification words it fails: ["text"] is among the
    identifiers it names and is rejected; ["json"] is not among them and
    is accepted. *)
Lemma specified_format_text_is_rejected :
  In "text" specified_formats /\
  save_results false reliable (fun _ => "") "text" Scenario.tree_A_g
    = (false, None) /\
  ~ In "json" specified_formats /\
  fst (save_results false reliable (fun _ => "") "json" Scenario.tree_A_g)
    = true.
Proof.
  split; [cbn; auto |]. split; [reflexivity |]. split; [| reflexivity].
  cbn. intros [H | [H | [H | []]]]; discriminate H.
Qed.

(** Ten directories deep, the headings stop at level 6. *)
Example heading_levels_of_chain_10 :
  map leading_hashes
    (snd (_write_markdown_format reliable (fun _ => "") (Trees.chain 10) 1 []))
  = [3; 0; 0; 0; 0; 4; 0; 0; 0; 0; 5; 0; 0; 0; 0; 6; 0; 0; 0; 0;
     6; 0; 0; 0; 0; 6; 0; 0; 0; 0; 6; 0; 0; 0; 0; 6; 0; 0; 0; 0;
     6; 0; 0; 0; 0; 6; 0; 0; 0; 0; 6]%nat.
Proof. vm_compute. reflexivity. Qed.

Lemma report_heading_levels_witness :
  0 <= 0 /\
  (forall out, exists new,
      snd (_write_markdown_format reliable (fun _ => "") (Trees.chain 10) 0 out)
        = out ++ new /\
      Forall (emitted_text (fun _ => "") (Trees.chain 10) 0) new /\
      Forall (fun text => verbatim_text (Trees.chain 10) text \/
                          (leading_hashes text <= 6)%nat) new) /\
  (forall d name,
      Trees.chain 10 = VDict d ->
      dict_get "type" d = Some (VStr "directory") ->
      dict_get "name" d = Some name ->
      forall out,
        _write_markdown_format reliable (fun _ => "") (Trees.chain 10) 0 out
        = ((if 0 =? 0
            then report_preamble reliable (fun _ => "") (Trees.chain 10)
            else skip) ;;
           write reliable
             (heading_text (Z.min (0 + 2) 6) (py_str (fun _ => "") name)) ;;
           report_children reliable (fun _ => "") (dict_get "items" d) 0) out) /\
  (forall name,
      Z.of_nat (leading_hashes (heading_text (Z.min (0 + 2) 6) name))
      = Z.min (0 + 2) 6 /\
      directory_heading_like (heading_text (Z.min (0 + 2) 6) name) = true).
Proof.
  split; [lia |].
  apply (report_heading_levels reliable (fun _ => "") (Trees.chain 10) 0). lia.
Defined.

(* ================================================================== *)
(** * The round trip of the structured output *)
(* ================================================================== *)

Lemma append_assoc (a b c : string) : (a ^^ b) ^^ c = a ^^ b ^^ c.
Proof. induction a as [| x a IH]; cbn; [reflexivity | now rewrite IH]. Qed.

Lemma append_nil_r (a : string) : a ^^ "" = a.
Proof. induction a as [| x a IH]; cbn; [reflexivity | now rewrite IH]. Qed.

Lemma length_append (a b : string) :
  String.length (a ^^ b) = (String.length a + String.length b)%nat.
Proof. induction a as [| x a IH]; cbn; [reflexivity | now rewrite IH]. Qed.

(** ** Text *)

(** Every character is read back from its escape. *)
Lemma scanstring_escape_char (c : ascii) (s rest : string) (r : string) :
  scanstring r = Some (s, rest) ->
  scanstring (escape_char c ^^ r) = Some (String c s, rest).
Proof.
  intros Hr.
  destruct c as [[|] [|] [|] [|] [|] [|] [|] [|]];
    cbn; rewrite Hr; reflexivity.
Qed.

Lemma scanstring_escape (s rest : string) :
  scanstring (escape s ^^ quote ^^ rest) = Some (s, rest).
Proof.
  induction s as [| c s IH]; [reflexivity |].
  cbn [escape]. rewrite append_assoc. now apply scanstring_escape_char.
Qed.

(** Text outside the quote, the backslash and the control characters is
    written as it is: nothing above ASCII is ever escaped. *)
Lemma escape_char_verbatim (c : ascii) :
  (32 <= N_of_ascii c)%N -> N_of_ascii c <> 34%N -> N_of_ascii c <> 92%N ->
  escape_char c = String c EmptyString.
Proof.
  intros H32 H34 H92. unfold escape_char.
  repeat match goal with
         | |- context [(?a =? ?b)%N] =>
             destruct (N.eqb_spec a b); [lia |]
         end.
  destruct (N.ltb_spec (N_of_ascii c) 32); [lia | reflexivity].
Qed.

(** ** Numbers *)

Lemma read_digits_string_of_uint (u : Decimal.uint) (rest : string) :
  starts_with_digit rest = false ->
  read_digits (NilEmpty.string_of_uint u ^^ rest) = (u, rest).
Proof.
  intros Hrest. induction u as [| u IH | u IH | u IH | u IH | u IH | u IH
                               | u IH | u IH | u IH | u IH];
    try (cbn; cbn in IH; now rewrite IH).
  cbn. destruct rest as [| c r]; [reflexivity |].
  cbn in Hrest. cbn. unfold is_digit in Hrest.
  now destruct (digit_of c).
Qed.

Lemma nzhead_not_D0 (u u' : Decimal.uint) : Decimal.nzhead u <> Decimal.D0 u'.
Proof. induction u; cbn; try discriminate. exact IHu. Qed.

(** The digits of a positive number do not start with a zero. *)
Lemma to_uint_head (p : positive) (u' : Decimal.uint) :
  Pos.to_uint p <> Decimal.D0 u'.
Proof.
  intros H.
  pose proof (DecimalPos.Unsigned.to_of (Pos.to_uint p)) as Hnorm.
  rewrite DecimalPos.Unsigned.of_to in Hnorm. cbn [N.to_uint] in Hnorm.
  rewrite H in Hnorm at 1. unfold Decimal.unorm in Hnorm.
  destruct (Decimal.nzhead (Pos.to_uint p)) eqn:Hnz;
    try discriminate Hnorm.
  - injection Hnorm as ->. apply (DecimalPos.Unsigned.to_uint_nonzero p H).
  - eapply nzhead_not_D0, Hnz.
Qed.

Lemma read_integer_positive (p : positive) (rest : string) :
  starts_with_digit rest = false ->
  read_integer (NilZero.string_of_uint (Pos.to_uint p) ^^ rest)
  = Some (Pos.to_uint p, rest).
Proof.
  intros Hrest.
  pose proof (to_uint_head p) as Hhead.
  pose proof (DecimalPos.Unsigned.to_uint_nonnil p) as Hnil.
  pose proof (read_digits_string_of_uint (Pos.to_uint p) rest Hrest) as Hread.
  destruct (Pos.to_uint p) as [| u | u | u | u | u | u | u | u | u | u];
    try (exfalso; apply Hnil; reflexivity);
    try (exfalso; eapply Hhead; reflexivity);
    cbn in *; now rewrite Hread.
Qed.

Lemma scan_number_unsigned (s rest : string) (u : Decimal.uint) :
  read_integer s = Some (u, rest) ->
  fraction_or_exponent rest = false ->
  scan_number s = Some (VInt (Z.of_int (Decimal.Pos u)), rest).
Proof.
  intros Hread Hfloat. unfold scan_number.
  destruct s as [| c r]; [discriminate |].
  destruct (N.eqb_spec (N_of_ascii c) 45) as [Hminus | _].
  - exfalso. rewrite <- (ascii_N_embedding c), Hminus in Hread.
    discriminate Hread.
  - now rewrite Hread, Hfloat.
Qed.

Lemma scan_number_negative (s rest : string) (u : Decimal.uint) :
  read_integer s = Some (u, rest) ->
  fraction_or_exponent rest = false ->
  scan_number (String "-" s) = Some (VInt (Z.of_int (Decimal.Neg u)), rest).
Proof.
  intros Hread Hfloat.
  change (scan_number (String "-" s)) with
    (match read_integer s with
     | None => None
     | Some (u, rest) =>
         if fraction_or_exponent rest then None
         else Some (VInt (Z.of_int (Decimal.Neg u)), rest)
     end).
  now rewrite Hread, Hfloat.
Qed.

Lemma scan_number_str_int (z : Z) (rest : string) :
  ends_number rest ->
  scan_number (str_int z ^^ rest) = Some (VInt z, rest).
Proof.
  intros [Hdigit Hfloat]. unfold str_int.
  replace (VInt z) with (VInt (Z.of_int (Z.to_int z)))
    by (f_equal; apply DecimalZ.of_to).
  destruct z as [| p | p]; cbn [Z.to_int NilZero.string_of_int].
  - apply scan_number_unsigned; [reflexivity | exact Hfloat].
  - apply scan_number_unsigned; [| exact Hfloat].
    now apply read_integer_positive.
  - change (String "-" (NilZero.string_of_uint (Pos.to_uint p)) ^^ rest)
      with (String "-" (NilZero.string_of_uint (Pos.to_uint p) ^^ rest)).
    apply scan_number_negative; [| exact Hfloat].
    now apply read_integer_positive.
Qed.

(** ** Whitespace and first characters *)

Lemma skip_whitespace_opens (s : string) :
  opens_value s -> skip_whitespace s = s.
Proof.
  destruct s as [| c r]; [intros [] |]. intros [Hc _]. cbn. now rewrite Hc.
Qed.

Lemma skip_whitespace_indent (k : nat) (s : string) :
  skip_whitespace (repeat_string_nat "  " k ^^ s) = skip_whitespace s.
Proof. induction k as [| k IH]; [reflexivity | exact IH]. Qed.

Lemma skip_whitespace_newline_indent (k : nat) (s : string) :
  skip_whitespace (newline_indent k ^^ s) = skip_whitespace s.
Proof.
  unfold newline_indent. rewrite append_assoc. apply skip_whitespace_indent.
Qed.

Lemma ends_number_comma (s : string) : ends_number (String "," s).
Proof. split; reflexivity. Qed.

Lemma ends_number_newline (k : nat) (s : string) :
  ends_number (newline_indent k ^^ s).
Proof. split; reflexivity. Qed.

Lemma ends_number_nil : ends_number "".
Proof. split; reflexivity. Qed.

(** A text that starts like a number is scanned as a number. *)
Lemma scan_once_number (fuel : nat) (c : ascii) (r : string) :
  number_head c = true ->
  scan_once (S fuel) (String c r) = scan_number (String c r).
Proof.
  destruct c as [[|] [|] [|] [|] [|] [|] [|] [|]];
    intros H; try discriminate H; reflexivity.
Qed.

Lemma str_int_head (z : Z) (rest : string) :
  exists c r, str_int z ^^ rest = String c r /\ number_head c = true.
Proof.
  unfold str_int. destruct z as [| p | p]; cbn [Z.to_int NilZero.string_of_int].
  - eexists _, _. split; reflexivity.
  - pose proof (DecimalPos.Unsigned.to_uint_nonnil p) as Hnil.
    destruct (Pos.to_uint p); try (exfalso; apply Hnil; reflexivity);
      eexists _, _; split; reflexivity.
  - eexists _, _. split; reflexivity.
Qed.

Lemma number_head_opens (c : ascii) (r : string) :
  number_head c = true -> opens_value (String c r).
Proof.
  destruct c as [[|] [|] [|] [|] [|] [|] [|] [|]];
    intros H; try discriminate H; cbn; repeat split; discriminate.
Qed.

Lemma json_text_opens (v : value) (level : nat) (rest : string) :
  opens_value (json_text v level ^^ rest).
Proof.
  destruct v as [| [|] | z | s | [| x l] | [| kv d]];
    try (cbn; repeat split; discriminate).
  cbn [json_text]. destruct (str_int_head z rest) as (c & r & -> & Hc).
  now apply number_head_opens.
Qed.

(** ** Scalars *)

Lemma scan_once_scalar (v : value) (text : string) (level fuel : nat)
    (rest : string) :
  encode_scalar v = Some text ->
  ends_number rest ->
  scan_once (S fuel) (json_text v level ^^ rest) = Some (v, rest).
Proof.
  intros Htext Hrest.
  destruct v as [| [|] | z | s | l | d]; try discriminate Htext;
    try reflexivity.
  - cbn [json_text]. destruct (str_int_head z rest) as (c & r & Heq & Hc).
    rewrite Heq, (scan_once_number fuel c r Hc), <- Heq.
    now apply scan_number_str_int.
  - cbn [json_text]. unfold encode_basestring.
    change ((quote ^^ escape s ^^ quote) ^^ rest)
      with (String "034" ((escape s ^^ quote) ^^ rest)).
    rewrite append_assoc.
    change (scan_once (S fuel) (String "034" (escape s ^^ quote ^^ rest)))
      with (match scanstring (escape s ^^ quote ^^ rest) with
            | Some (text, rest) => Some (VStr text, rest)
            | None => None
            end).
    now rewrite scanstring_escape.
Qed.

(** ** Lists and dicts *)

Lemma unique_keys_list (l : list value) :
  unique_keys (VList l) <-> Forall unique_keys l.
Proof.
  induction l as [| x l IH]; cbn.
  - split; auto.
  - split.
    + intros [Hx Hl]. constructor; [exact Hx | now apply IH].
    + intros H. inversion H; subst. split; [assumption | now apply IH].
Qed.

Lemma unique_keys_dict (d : list (string * value)) :
  unique_keys (VDict d) <->
  NoDup (map fst d) /\ Forall (fun kv => unique_keys (snd kv)) d.
Proof.
  cbn [unique_keys].
  assert (H : (fix all (d : list (string * value)) : Prop :=
                 match d with
                 | [] => True
                 | (_, x) :: rest => unique_keys x /\ all rest
                 end) d <-> Forall (fun kv => unique_keys (snd kv)) d).
  { induction d as [| [k x] d IH].
    - split; auto.
    - split.
      + intros [Hx Hd]. constructor; [exact Hx | now apply IH].
      + intros H. inversion H; subst. split; [assumption | now apply IH]. }
  now rewrite H.
Qed.

Lemma weight_list (l : list value) :
  weight (VList l) = S (list_sum (map (fun x => S (weight x)) l)).
Proof.
  cbn [weight]. f_equal. induction l as [| x l IH]; [reflexivity |].
  change (list_sum (map (fun x => S (weight x)) (x :: l)))
    with (S (weight x + list_sum (map (fun x => S (weight x)) l))).
  now rewrite <- IH.
Qed.

Lemma weight_dict (d : list (string * value)) :
  weight (VDict d) = S (list_sum (map (fun kv => S (weight (snd kv))) d)).
Proof.
  cbn [weight]. f_equal. induction d as [| kv d IH]; [reflexivity |].
  change (list_sum (map (fun kv => S (weight (snd kv))) (kv :: d)))
    with (S (weight (snd kv)
             + list_sum (map (fun kv => S (weight (snd kv))) d))).
  now rewrite <- IH.
Qed.

Lemma dict_set_fresh (k : string) (v : value) (d : list (string * value)) :
  ~ In k (map fst d) -> dict_set k v d = d ++ [(k, v)].
Proof.
  intros Hk. induction d as [| [k' v'] d IH]; [reflexivity |].
  cbn. destruct (String.eqb_spec k k') as [-> | _].
  - exfalso. apply Hk. now left.
  - rewrite IH; [reflexivity |]. intros H. apply Hk. now right.
Qed.

(** Pairs with distinct keys make the dict that lists them in order. *)
Lemma dict_of_pairs_unique (pairs acc : list (string * value)) :
  NoDup (map fst (acc ++ pairs)) ->
  dict_of_pairs pairs acc = acc ++ pairs.
Proof.
  revert acc. induction pairs as [| [k v] pairs IH]; intros acc Hnodup.
  - cbn. now rewrite app_nil_r.
  - cbn [dict_of_pairs]. rewrite dict_set_fresh.
    + rewrite IH; rewrite <- app_assoc; [reflexivity | exact Hnodup].
    + rewrite map_app in Hnodup. cbn in Hnodup.
      apply NoDup_remove_2 in Hnodup. intros H. apply Hnodup.
      apply in_or_app. now left.
Qed.

Lemma list_sum_cons (a : nat) (l : list nat) :
  list_sum (a :: l) = (a + list_sum l)%nat.
Proof. reflexivity. Qed.

Lemma concat_cons2 (sep x y : string) (l : list string) :
  String.concat sep (x :: y :: l) = x ^^ sep ^^ String.concat sep (y :: l).
Proof. reflexivity. Qed.

Lemma scan_array_comma (fuel : nat) (s tail : string) (values : list value)
    (v : value) :
  scan_once fuel s = Some (v, String "," tail) ->
  scan_array (S fuel) s values
  = scan_array fuel (skip_whitespace tail) (values ++ [v]).
Proof. intros H. cbn [scan_array]. now rewrite H. Qed.

Lemma scan_array_close (fuel k : nat) (s rest : string) (values : list value)
    (v : value) :
  scan_once fuel s = Some (v, newline_indent k ^^ String "]" rest) ->
  scan_array (S fuel) s values = Some (VList (values ++ [v]), rest).
Proof.
  intros H. cbn [scan_array]. rewrite H, skip_whitespace_newline_indent.
  reflexivity.
Qed.

Lemma separator_append (k : nat) (s : string) :
  "," ^^ newline_indent k ^^ s = String "," (newline_indent k ^^ s).
Proof. reflexivity. Qed.

(** The items of a list, from the first to the closing bracket. *)
Lemma scan_array_items (level : nat) (rest : string) (l : list value) :
  Forall reads_back l ->
  forall (x : value) (values : list value) (fuel : nat),
    reads_back x ->
    (list_sum (map (fun x => S (weight x)) (x :: l)) <= fuel)%nat ->
    scan_array fuel
      (String.concat ("," ^^ newline_indent (S level))
         (map (fun x => json_text x (S level)) (x :: l))
         ^^ newline_indent level ^^ String "]" rest) values
    = Some (VList (values ++ x :: l), rest).
Proof.
  induction 1 as [| y l Hy _ IH]; intros x values fuel Hx Hfuel;
    cbn [map] in Hfuel; rewrite !list_sum_cons in Hfuel;
    (destruct fuel as [| fuel]; [lia |]).
  - cbn [map String.concat].
    apply (scan_array_close fuel level).
    apply Hx; [lia | apply ends_number_newline].
  - cbn [map]. rewrite concat_cons2, !append_assoc, separator_append.
    rewrite (scan_array_comma fuel _ _ values x)
      by (apply Hx; [lia | apply ends_number_comma]).
    rewrite skip_whitespace_newline_indent, skip_whitespace_opens.
    + specialize (IH y (values ++ [x]) fuel Hy).
      cbn [map] in IH. rewrite IH by (rewrite list_sum_cons; lia).
      now rewrite <- app_assoc.
    + destruct l; cbn [map String.concat];
        [| rewrite !append_assoc]; apply json_text_opens.
Qed.

Lemma pair_text_head (k : string) (s : string) :
  encode_basestring k ^^ ": " ^^ s
  = String "034" (escape k ^^ quote ^^ String ":" (String " " s)).
Proof. unfold encode_basestring. now rewrite !append_assoc. Qed.

(** A key and its value, up to what follows the value. *)
Lemma scan_object_pair (fuel level : nat) (k : string) (x : value)
    (tail : string) (pairs : list (string * value)) :
  reads_back x -> (weight x <= fuel)%nat -> ends_number tail ->
  scan_object (S fuel)
    (String "034" (escape k ^^ quote
                     ^^ String ":" (String " " (json_text x level ^^ tail))))
    pairs
  = match skip_whitespace tail with
    | String c r' =>
        if (N_of_ascii c =? 125)%N then
          Some (VDict (dict_of_pairs (pairs ++ [(k, x)]) []), r')
        else if (N_of_ascii c =? 44)%N then
          scan_object fuel (skip_whitespace r') (pairs ++ [(k, x)])
        else None
    | EmptyString => None
    end.
Proof.
  intros Hx Hfuel Htail. cbn [scan_object].
  change (N_of_ascii "034" =? 34)%N with true. cbv iota.
  rewrite scanstring_escape.
  change (skip_whitespace (String ":" ?r)) with (String ":" r).
  change (N_of_ascii ":" =? 58)%N with true. cbv iota.
  change (skip_whitespace (String " " ?r)) with (skip_whitespace r).
  rewrite skip_whitespace_opens by apply json_text_opens.
  now rewrite Hx.
Qed.

(** The pairs of a dict, from the first to the closing brace. *)
Lemma scan_object_items (level : nat) (rest : string)
    (d : list (string * value)) :
  Forall (fun kv => reads_back (snd kv)) d ->
  forall (kv : string * value) (pairs : list (string * value)) (fuel : nat),
    reads_back (snd kv) ->
    (list_sum (map (fun kv => S (weight (snd kv))) (kv :: d)) <= fuel)%nat ->
    scan_object fuel
      (String.concat ("," ^^ newline_indent (S level))
         (map (fun kv => encode_basestring (fst kv) ^^ ": "
                           ^^ json_text (snd kv) (S level)) (kv :: d))
         ^^ newline_indent level ^^ String "}" rest) pairs
    = Some (VDict (dict_of_pairs (pairs ++ kv :: d) []), rest).
Proof.
  induction 1 as [| kv' d Hkv' _ IH]; intros kv pairs fuel Hkv Hfuel;
    cbn [map] in Hfuel; rewrite !list_sum_cons in Hfuel;
    (destruct fuel as [| fuel]; [lia |]).
  - cbn [map String.concat]. rewrite !append_assoc, pair_text_head.
    match goal with
    | |- scan_object _ (String _ (_ ^^ _ ^^ String _ (String _ (_ ^^ ?tail)))) _
         = _ =>
        rewrite (scan_object_pair fuel (S level) (fst kv) (snd kv) tail pairs Hkv);
          [| lia | first [apply ends_number_newline | apply ends_number_comma]]
    end.
    rewrite skip_whitespace_newline_indent. destruct kv. reflexivity.
  - cbn [map]. rewrite concat_cons2, !append_assoc, separator_append,
      pair_text_head.
    match goal with
    | |- scan_object _ (String _ (_ ^^ _ ^^ String _ (String _ (_ ^^ ?tail)))) _
         = _ =>
        rewrite (scan_object_pair fuel (S level) (fst kv) (snd kv) tail pairs Hkv);
          [| lia | first [apply ends_number_newline | apply ends_number_comma]]
    end.
    change (skip_whitespace (String "," ?r)) with (String "," r).
    change (N_of_ascii "," =? 125)%N with false.
    change (N_of_ascii "," =? 44)%N with true. cbv iota.
    rewrite skip_whitespace_newline_indent, skip_whitespace_opens.
    + specialize (IH kv' (pairs ++ [(fst kv, snd kv)]) fuel Hkv').
      cbn [map] in IH. rewrite IH by (rewrite list_sum_cons; lia).
      rewrite <- app_assoc. destruct kv. reflexivity.
    + destruct d; cbn [map String.concat];
        rewrite !append_assoc, pair_text_head;
        cbn; repeat split; discriminate.
Qed.

(** Every value with unique keys is read back from its text. *)
Lemma unique_keys_reads_back (v : value) : unique_keys v -> reads_back v.
Proof.
  induction v as [| b | z | s | l IH | d IH] using value_ind; intros Hkeys.
  1-4: intros level [| fuel] rest Hfuel Hrest; [cbn in Hfuel; lia |].
  - eapply scan_once_scalar; [reflexivity | exact Hrest].
  - destruct b; (eapply scan_once_scalar; [reflexivity | exact Hrest]).
  - eapply scan_once_scalar; [reflexivity | exact Hrest].
  - eapply scan_once_scalar; [reflexivity | exact Hrest].
  - (* a list *)
    apply unique_keys_list in Hkeys.
    assert (Hall : Forall reads_back l).
    { rewrite Forall_forall in *. intros x Hx. apply IH; auto. }
    intros level fuel rest Hfuel Hrest. rewrite weight_list in Hfuel.
    destruct fuel as [| fuel]; [lia |].
    destruct l as [| x l]; [reflexivity |].
    inversion Hall as [| ? ? Hx Hl]; subst.
    cbn [json_text]. rewrite !append_assoc.
    change ("[" ^^ ?s) with (String "[" s).
    change ("]" ^^ rest) with (String "]" rest).
    cbn [scan_once].
    change (N_of_ascii "[" =? 34)%N with false.
    change (N_of_ascii "[" =? 123)%N with false.
    change (N_of_ascii "[" =? 91)%N with true. cbv iota.
    rewrite skip_whitespace_newline_indent, skip_whitespace_opens.
    + pose proof (json_text_opens x (S level)) as Hopen.
      rewrite (scan_array_items level rest l Hl x [] fuel Hx) by lia.
      destruct l as [| y l]; cbn [map String.concat];
        [| rewrite !append_assoc];
        match goal with
        | |- context [json_text x (S level) ^^ ?tail] =>
            specialize (Hopen tail);
            destruct (json_text x (S level) ^^ tail) as [| c r];
              [destruct Hopen |];
              destruct Hopen as (_ & Hc & _);
              apply N.eqb_neq in Hc; now rewrite Hc
        end.
    + destruct l; cbn [map String.concat];
        [| rewrite !append_assoc]; apply json_text_opens.
  - (* a dict *)
    apply unique_keys_dict in Hkeys. destruct Hkeys as [Hnodup Hkeys].
    assert (Hall : Forall (fun kv => reads_back (snd kv)) d).
    { rewrite Forall_forall in *. intros x Hx. apply IH; auto. }
    intros level fuel rest Hfuel Hrest. rewrite weight_dict in Hfuel.
    destruct fuel as [| fuel]; [lia |].
    destruct d as [| kv d]; [reflexivity |].
    inversion Hall as [| ? ? Hkv Hd]; subst.
    cbn [json_text]. rewrite !append_assoc.
    change ("{" ^^ ?s) with (String "{" s).
    change ("}" ^^ rest) with (String "}" rest).
    cbn [scan_once].
    change (N_of_ascii "{" =? 34)%N with false.
    change (N_of_ascii "{" =? 123)%N with true. cbv iota.
    rewrite skip_whitespace_newline_indent, skip_whitespace_opens.
    + rewrite (scan_object_items level rest d Hd kv [] fuel Hkv) by lia.
      cbn [app]. rewrite (dict_of_pairs_unique (kv :: d) []) by exact Hnodup.
      cbn [app].
      destruct d as [| kv' d]; cbn [map String.concat];
        rewrite ?append_assoc, pair_text_head; reflexivity.
    + destruct d; cbn [map String.concat];
        rewrite ?append_assoc, pair_text_head;
        cbn; repeat split; discriminate.
Qed.

(** ** The pieces and the text *)

Lemma concat_nil_app (xs ys : list string) :
  String.concat "" (xs ++ ys) = String.concat "" xs ^^ String.concat "" ys.
Proof.
  induction xs as [| x xs IH]; [reflexivity |].
  destruct xs as [| x' xs].
  - cbn [app String.concat]. destruct ys as [| y ys];
      [now rewrite append_nil_r | reflexivity].
  - change (String.concat "" ((x :: x' :: xs) ++ ys))
      with (x ^^ String.concat "" ((x' :: xs) ++ ys)).
    rewrite IH. change (String.concat "" (x :: x' :: xs))
      with (x ^^ String.concat "" (x' :: xs)).
    now rewrite append_assoc.
Qed.

Lemma concat_nil_cons (x : string) (xs : list string) :
  String.concat "" (x :: xs) = x ^^ String.concat "" xs.
Proof. apply (concat_nil_app [x] xs). Qed.

Lemma encode_scalar_text (x : value) (text : string) (level : nat) :
  encode_scalar x = Some text -> json_text x level = text.
Proof.
  destruct x as [| [|] | z | s | l | d]; cbn; intros H;
    try discriminate H; now injection H.
Qed.

(** Joined, the pieces of the items are the items joined by the
    separator, after the opening [buf]. *)
Lemma iterencode_list_items_text (pieces : value -> list string)
    (text : value -> string) (separator : string) (lst : list value) :
  Forall (fun x => String.concat "" (pieces x) = text x) lst ->
  (forall x t, encode_scalar x = Some t -> text x = t) ->
  forall buf,
    String.concat "" (iterencode_list_items pieces separator lst buf)
    = match lst with
      | [] => ""
      | _ => buf ^^ String.concat separator (map text lst)
      end.
Proof.
  intros Hall Hscalar. induction Hall as [| x more Hx _ IH]; intros buf;
    [reflexivity |].
  cbn [iterencode_list_items map]. rewrite concat_nil_app, IH.
  assert (Hhead : String.concat ""
                    match encode_scalar x with
                    | Some t => [buf ^^ t]
                    | None => buf :: pieces x
                    end = buf ^^ text x).
  { destruct (encode_scalar x) as [t |] eqn:Hs.
    - now rewrite (Hscalar x t Hs).
    - now rewrite concat_nil_cons, Hx. }
  rewrite Hhead. destruct more as [| y more].
  - cbn [String.concat map]. now rewrite append_nil_r.
  - cbn [map]. rewrite concat_cons2. now rewrite append_assoc.
Qed.

Lemma iterencode_dict_items_text (pieces : value -> list string)
    (text : value -> string) (separator : string)
    (dct : list (string * value)) :
  Forall (fun kv => String.concat "" (pieces (snd kv)) = text (snd kv)) dct ->
  forall first,
    String.concat "" (iterencode_dict_items pieces separator dct first)
    = match dct with
      | [] => ""
      | _ =>
          (if first then "" else separator)
            ^^ String.concat separator
                 (map (fun kv => encode_basestring (fst kv) ^^ ": "
                                   ^^ text (snd kv)) dct)
      end.
Proof.
  induction 1 as [| [key x] more Hx _ IH]; intros first; [reflexivity |].
  cbn [iterencode_dict_items map fst snd].
  rewrite !concat_nil_app, IH. cbn [snd] in Hx. rewrite Hx.
  assert (Hsep : String.concat "" (if first then [] else [separator])
                 = if first then "" else separator)
    by now destruct first.
  rewrite Hsep.
  change (String.concat "" [encode_basestring key; ": "])
    with (encode_basestring key ^^ ": ").
  destruct more as [| kv' more].
  - cbn [String.concat map]. now rewrite append_nil_r, !append_assoc.
  - cbn [map]. rewrite concat_cons2. now rewrite !append_assoc.
Qed.

(** The pieces [json.dump] writes make up the text [json.dumps] returns. *)
Lemma iterencode_text (v : value) :
  forall level, String.concat "" (iterencode v level) = json_text v level.
Proof.
  induction v as [| b | z | s | l IH | d IH] using value_ind; intros level;
    try reflexivity.
  - now destruct b.
  - destruct l as [| x l]; [reflexivity |].
    cbn [iterencode encode_scalar json_text].
    rewrite concat_nil_app.
    rewrite (iterencode_list_items_text _ (fun x => json_text x (S level))).
    + now rewrite !append_assoc.
    + eapply Forall_impl; [| exact IH]. intros y Hy. apply Hy.
    + intros y t Ht. now apply encode_scalar_text.
  - destruct d as [| kv d]; [reflexivity |].
    cbn [iterencode encode_scalar json_text].
    rewrite !concat_nil_app.
    rewrite (iterencode_dict_items_text _ (fun x => json_text x (S level))).
    + change (String.concat "" ["{"; newline_indent (S level)])
        with ("{" ^^ newline_indent (S level)).
      change (String.concat "" [newline_indent level; "}"])
        with (newline_indent level ^^ "}").
      now rewrite !append_assoc.
    + eapply Forall_impl; [| exact IH]. intros y Hy. apply Hy.
Qed.

(** ** Enough fuel *)

Lemma length_concat_bound {A : Type} (f : A -> string) (w : A -> nat)
    (sep : string) (l : list A) :
  (1 <= String.length sep)%nat ->
  Forall (fun x => (w x <= String.length (f x))%nat) l ->
  (list_sum (map (fun x => S (w x)) l)
   <= S (String.length (String.concat sep (map f l))))%nat.
Proof.
  intros Hsep. induction 1 as [| x l Hx _ IH]; [cbn; lia |].
  cbn [map]. rewrite list_sum_cons.
  destruct l as [| y l].
  - cbn. lia.
  - cbn [map] in *. rewrite concat_cons2, !length_append. lia.
Qed.

Lemma length_newline_indent (k : nat) :
  (1 <= String.length (newline_indent k))%nat.
Proof. unfold newline_indent. rewrite length_append. cbn. lia. Qed.

Lemma length_separator (k : nat) :
  (1 <= String.length ("," ^^ newline_indent k))%nat.
Proof. rewrite length_append. cbn. lia. Qed.

(** The decoder never needs more nested calls than the text is long. *)
Lemma weight_le_length (v : value) :
  forall level, (weight v <= String.length (json_text v level))%nat.
Proof.
  induction v as [| b | z | s | l IH | d IH] using value_ind; intros level.
  - cbn. lia.
  - destruct b; cbn; lia.
  - cbn [weight json_text].
    destruct (str_int_head z "") as (c & r & Heq & _).
    rewrite append_nil_r in Heq. rewrite Heq. cbn. lia.
  - cbn [weight json_text]. unfold encode_basestring.
    rewrite !length_append. cbn. lia.
  - rewrite weight_list. destruct l as [| x l]; [cbn; lia |].
    cbn [json_text]. rewrite !length_append.
    pose proof (length_concat_bound (fun x => json_text x (S level)) weight
                  ("," ^^ newline_indent (S level)) (x :: l)
                  (length_separator (S level))) as Hbound.
    pose proof (length_newline_indent level).
    pose proof (length_newline_indent (S level)).
    assert (Hall : Forall (fun x => (weight x
                     <= String.length (json_text x (S level)))%nat) (x :: l))
      by (eapply Forall_impl; [| exact IH]; intros y Hy; apply Hy).
    specialize (Hbound Hall). cbn [String.length] in *. lia.
  - rewrite weight_dict. destruct d as [| kv d]; [cbn; lia |].
    cbn [json_text]. rewrite !length_append.
    pose proof (length_concat_bound
                  (fun kv => encode_basestring (fst kv) ^^ ": "
                               ^^ json_text (snd kv) (S level))
                  (fun kv => weight (snd kv))
                  ("," ^^ newline_indent (S level)) (kv :: d)
                  (length_separator (S level))) as Hbound.
    pose proof (length_newline_indent level).
    pose proof (length_newline_indent (S level)).
    assert (Hall : Forall (fun kv => (weight (snd kv)
                     <= String.length (encode_basestring (fst kv) ^^ ": "
                          ^^ json_text (snd kv) (S level)))%nat) (kv :: d)).
    { eapply Forall_impl; [| exact IH]. intros y Hy. cbv beta.
      rewrite !length_append. specialize (Hy (S level)). lia. }
    specialize (Hbound Hall). cbn [String.length] in *. lia.
Qed.

(** Reading back the document [json.dump] wrote gives the value it was
    given. *)
Lemma json_load_document (data : value) :
  unique_keys data -> json_load (json_document data) = Some data.
Proof.
  intros Hkeys. unfold json_load, json_document.
  rewrite iterencode_text.
  pose proof (json_text_opens data 0 "") as Hopen.
  rewrite append_nil_r in Hopen. rewrite (skip_whitespace_opens _ Hopen).
  pose proof (unique_keys_reads_back data Hkeys 0%nat
                (S (String.length (json_text data 0))) "") as Hread.
  rewrite append_nil_r in Hread. rewrite Hread.
  - reflexivity.
  - pose proof (weight_le_length data 0). lia.
  - apply ends_number_nil.
Qed.

Section StructuredClaims.
Variable repr : value -> string.

(** C6. For every tree whose dicts have no repeated key, [save_results]
    with the format ["json"] on a sink that does not fail writes the pieces
    of the document of [json.dump(data, f, ensure_ascii=False, indent=2)];
    no character above ASCII is escaped in it; and the document round-trips:
    [json.load] reads back the very tree, keys in the same order, so that
    serializing what was read gives the same document again. *)
Theorem structured_round_trip (data : value) :
  unique_keys data ->
  save_results false reliable repr "json" data
    = (true, Some (iterencode data 0)) /\
  String.concat "" (iterencode data 0) = json_document data /\
  (forall c, (128 <= N_of_ascii c)%N -> escape_char c = String c EmptyString) /\
  exists loaded,
    json_load (json_document data) = Some loaded /\
    loaded = data /\
    json_document loaded = json_document data.
Proof.
  intros Hkeys. split; [| split; [reflexivity | split]].
  - unfold save_results, with_open, json_dump. cbn [lower lower_char].
    change (String.eqb _ "json") with true. cbv iota.
    now rewrite write_all_reliable.
  - intros c Hc. apply escape_char_verbatim; lia.
  - exists data. split; [now apply json_load_document | split; reflexivity].
Qed.

End StructuredClaims.

Lemma unique_keys_refused_B : unique_keys Trees.refused_B.
Proof.
  cbn. repeat split;
    repeat (constructor; [cbn; intuition discriminate |]); constructor.
Defined.

Lemma structured_round_trip_witness :
  unique_keys Trees.refused_B /\
  save_results false reliable (fun _ => "") "json" Trees.refused_B
    = (true, Some (iterencode Trees.refused_B 0)) /\
  String.concat "" (iterencode Trees.refused_B 0)
    = json_document Trees.refused_B /\
  (forall c, (128 <= N_of_ascii c)%N -> escape_char c = String c EmptyString) /\
  exists loaded,
    json_load (json_document Trees.refused_B) = Some loaded /\
    loaded = Trees.refused_B /\
    json_document loaded = json_document Trees.refused_B.
Proof.
  split; [exact unique_keys_refused_B |].
  exact (structured_round_trip (fun _ => "") Trees.refused_B
           unique_keys_refused_B).
Defined.

(** The document of the third scenario holds the message as it is. *)
Example document_keeps_message :
  json_load (json_document Trees.refused_B) = Some Trees.refused_B /\
  json_document (VStr "权限不足") = quote ^^ "权限不足" ^^ quote.
Proof. split; reflexivity. Qed.

(* ================================================================== *)
(** * More properties of scan_directory *)
(* ================================================================== *)

(** ** Paths and names *)

Lemma basename_from_no_sep (s acc : string) :
  has_sep s = false -> basename_from s acc = acc.
Proof.
  revert acc. induction s as [| c r IH]; intros acc H; [reflexivity |].
  cbn in *. apply orb_false_iff in H. destruct H as [Hc Hr].
  rewrite Hc. now apply IH.
Qed.

Lemma basename_from_after_sep (a b acc : string) :
  has_sep b = false -> basename_from (a ^^ String "/" b) acc = b.
Proof.
  intros Hb. revert acc. induction a as [| c a IH]; intros acc.
  - cbn. now apply basename_from_no_sep.
  - cbn [append basename_from]. destruct (is_sep c); apply IH.
Qed.

Lemma basename_from_ends_sep (a b acc : string) :
  has_sep b = false -> endswith_sep a = true -> basename_from (a ^^ b) acc = b.
Proof.
  intros Hb. revert acc. induction a as [| c a IH]; intros acc Ha;
    [discriminate |].
  destruct a as [| c' a'].
  - cbn in Ha. cbn. rewrite Ha. now apply basename_from_no_sep.
  - change (endswith_sep (String c (String c' a')))
      with (endswith_sep (String c' a')) in Ha.
    change (String c (String c' a') ^^ b) with (String c (String c' a' ^^ b)).
    cbn [basename_from]. destruct (is_sep c); now apply IH.
Qed.

(** [basename(join(a, b)) == b] for a name [b] that holds no separator. *)
Lemma basename_join (a b : string) :
  has_sep b = false -> basename (join a b) = b.
Proof.
  intros Hb. unfold basename, join.
  assert (Hstart : startswith_sep b = false).
  { destruct b as [| c r]; [reflexivity |]. cbn in *.
    now apply orb_false_iff in Hb. }
  rewrite Hstart.
  destruct (String.eqb_spec a "") as [-> | Hne].
  - cbn. now apply basename_from_no_sep.
  - cbn [orb]. destruct (endswith_sep a) eqn:Hend.
    + now apply basename_from_ends_sep.
    + now apply basename_from_after_sep.
Qed.

Section WalkerMore.
Context {R : Remote}.

(** Beyond the bound the entry guard answers alone: the truncated node
    without a path, and the world as before. *)
Lemma scan_beyond_bound (remote_path : string) (max_depth current_depth : Z)
    (w : World) :
  max_depth < current_depth ->
  scan_directory remote_path max_depth current_depth w =
  Some (VDict [("type", VStr "directory");
               ("name", VStr (basename remote_path));
               ("truncated", VBool true)], w).
Proof.
  intros H. unfold scan_directory. cbn [scan_directory_fuel].
  apply Z.gtb_lt in H. now rewrite H.
Qed.

(** What a call within the bound returns carries the path it was given. *)
Lemma scan_directory_path (remote_path : string) (max_depth current_depth : Z)
    (w : World) (n : value) (w' : World) :
  current_depth <= max_depth ->
  scan_directory remote_path max_depth current_depth w = Some (n, w') ->
  field "path" n = Some (VStr remote_path) /\
  (field "name" n = Some (VStr (basename remote_path)) \/
   field "name" n = Some (VStr (name_or_root remote_path))).
Proof.
  intros Hle. rewrite (scan_directory_unfold _ _ _ _ Hle).
  destruct (listdir_attr remote_path w) as [[e | items] w1].
  - intros [= <- <-]. split; [reflexivity | now left].
  - destruct (now_isoformat w1) as [scan_time w2].
    destruct (scan_items _ _ _ _ _ _ _) as [[its w3] |]; [| discriminate].
    intros [= <- <-]. split; [reflexivity | now right].
Qed.

Lemma name_or_root_nonempty (p : string) :
  basename p <> "" -> name_or_root p = basename p.
Proof.
  intros H. unfold name_or_root.
  destruct (String.eqb_spec (basename p) ""); [contradiction | reflexivity].
Qed.

(** The node of an entry holds the joined path, and the entry's own name
    when that is a plain name. *)
Lemma entry_node_path_name (remote_path : string) (max_depth current_depth : Z)
    (item : SFTPAttributes) (n : value) :
  entry_node remote_path max_depth current_depth item n ->
  field "path" n = Some (VStr (join remote_path (filename item))) /\
  (has_sep (filename item) = false -> filename item <> "" ->
   field "name" n = Some (VStr (filename item))).
Proof.
  intros H. destruct H as [item e _ | item w sub w' _ Hlt Hscan | item _ _
                          | item info _ Hinfo | item e _ _];
    try (split; [reflexivity | intros _ _; reflexivity]).
  - apply scan_directory_path in Hscan; [| lia].
    destruct Hscan as [Hpath Hname]. split; [exact Hpath |].
    intros Hsep Hne. rewrite name_or_root_nonempty in Hname;
      rewrite basename_join in * by exact Hsep; try exact Hne.
    now destruct Hname.
  - apply file_info_inv in Hinfo. destruct Hinfo as [modified ->].
    split; [reflexivity | intros _ _; reflexivity].
Qed.

(** X1. When the listing of a path succeeds, the items of its node are,
    in listing order, one node per entry other than [.] and [..]; each
    holds the path [join(path, filename)], and the name [filename] when the
    filename is not empty and holds no separator. *)
Theorem children_paths_and_names (remote_path : string)
    (max_depth current_depth : Z) (w : World)
    (items : list SFTPAttributes) (w1 : World) :
  current_depth <= max_depth ->
  listdir_attr remote_path w = (inr items, w1) ->
  exists its w',
    scan_directory remote_path max_depth current_depth w
      = Some (listed_node remote_path its (fst (now_isoformat w1)), w') /\
    Forall (fun item => is_dot (filename item) = false) (listed_entries items) /\
    Forall2
      (fun item n =>
         field "path" n = Some (VStr (join remote_path (filename item))) /\
         (has_sep (filename item) = false -> filename item <> "" ->
          field "name" n = Some (VStr (filename item))))
      (listed_entries items) its.
Proof.
  intros Hle Hlist.
  destruct (scan_directory_shape remote_path max_depth current_depth w Hle)
    as (n & w' & Hscan & _).
  rewrite (scan_directory_unfold _ _ _ _ Hle) in *. rewrite Hlist in *.
  destruct (now_isoformat w1) as [scan_time w2]. cbn [fst].
  destruct (scan_items _ _ _ _ _ _ _) as [[its w3] |] eqn:Hitems;
    [| discriminate].
  exists its, w3. split; [reflexivity |]. split.
  - unfold listed_entries. apply Forall_forall. intros item Hin.
    apply filter_In in Hin. destruct Hin as [_ Hdot].
    now apply negb_true_iff in Hdot.
  - apply scan_items_entries in Hitems.
    destruct Hitems as (nodes & -> & Hall). cbn [app].
    eapply Forall2_impl; [| exact Hall].
    intros item node. apply entry_node_path_name.
Qed.

End WalkerMore.

(** ** Permissions *)

Lemma oct_pos_last (p : positive) :
  8 <= Z.pos p ->
  oct_pos p = oct_pos (Z.to_pos (Z.pos p / 8)) ^^ octal_digit (Z.pos p mod 8).
Proof.
  intros H.
  destruct p as [[[q | q |] | [q | q |] |] | [[q | q |] | [q | q |] |] |];
    try lia;
    match goal with
    | |- context [Z.pos ?p / 8] =>
        let Hq := fresh "Hq" in
        let Hr := fresh "Hr" in
        assert (Hq : Z.pos p / 8 = Z.pos q)
          by (Z.to_euclidean_division_equations; lia);
        assert (Hr : Z.pos p mod 8 = Z.pos p - 8 * Z.pos q)
          by (Z.to_euclidean_division_equations; lia);
        rewrite Hq, Hr
    end;
    match goal with
    | |- context [octal_digit ?d] =>
        let k := fresh "k" in
        let Hk := fresh "Hk" in
        remember d as k eqn:Hk;
        first [ replace k with 0 by lia | replace k with 1 by lia
              | replace k with 2 by lia | replace k with 3 by lia
              | replace k with 4 by lia | replace k with 5 by lia
              | replace k with 6 by lia | replace k with 7 by lia ]
    end;
    reflexivity.
Qed.

Lemma oct_pos_ends (p : positive) :
  exists pre, oct_pos p = pre ^^ octal_digit (Z.pos p mod 8).
Proof.
  destruct (Z_lt_le_dec (Z.pos p) 8) as [Hlt | Hge].
  - exists "". rewrite Z.mod_small by lia.
    destruct p as [[[q | q |] | [q | q |] |] | [[q | q |] | [q | q |] |] |];
      try lia; reflexivity.
  - eexists. now apply oct_pos_last.
Qed.

Lemma substring_after (s t : string) :
  String.substring (String.length s) (String.length t) (s ^^ t) = t.
Proof.
  induction s as [| c s IH]; cbn.
  - induction t as [| c t IH]; cbn; [reflexivity | now rewrite IH].
  - exact IH.
Qed.

Lemma last_chars_append (n : nat) (s t : string) :
  String.length t = n -> last_chars n (s ^^ t) = t.
Proof.
  intros <-. unfold last_chars. rewrite length_append.
  replace (String.length s + String.length t - String.length t)%nat
    with (String.length s) by lia.
  apply substring_after.
Qed.

(** [oct(mode)[-3:]] of a mode of at least three octal digits. *)
Lemma last_chars_oct (mode : Z) :
  64 <= mode -> last_chars 3 (oct mode) = permission_digits mode.
Proof.
  intros H. destruct mode as [| p | p]; try lia. unfold oct, permission_digits.
  rewrite oct_pos_last by lia.
  assert (H1 : 8 <= Z.pos p / 8) by (apply Z.div_le_lower_bound; lia).
  destruct (Z.pos p / 8) as [| p1 |] eqn:Hp1; try lia.
  cbn [Z.to_pos]. rewrite oct_pos_last by lia.
  assert (H2 : 1 <= Z.pos p1 / 8) by (apply Z.div_le_lower_bound; lia).
  replace (Z.pos p / 64) with (Z.pos p1 / 8)
    by (rewrite <- Hp1, Z.div_div by lia; reflexivity).
  destruct (Z.pos p1 / 8) as [| p2 |] eqn:Hp2; try lia.
  cbn [Z.to_pos]. destruct (oct_pos_ends p2) as [pre ->].
  rewrite !append_assoc, <- (append_assoc "0o" pre).
  now apply last_chars_append.
Qed.

Section PermissionsOfFiles.
Context {R : Remote}.

(** X2. The [permissions] of a file node are the last three octal digits of
    the entry's mode: user, group and others, each digit
    [4*read + 2*write + execute]. This is so for every mode from [0o100] on,
    which every mode with a file-type bit is. *)
Theorem file_permissions_digits (item : SFTPAttributes) (item_path : string)
    (info : value) (mode : Z) :
  st_mode item = Some mode ->
  64 <= mode ->
  file_info item item_path = inr info ->
  field "permissions" info = Some (VStr (permission_digits mode)).
Proof.
  intros Hmode Hge Hinfo. apply file_info_inv in Hinfo.
  destruct Hinfo as [modified ->]. rewrite Hmode. cbn [mode_of].
  rewrite last_chars_oct by exact Hge. reflexivity.
Qed.

End PermissionsOfFiles.

(** ** The listing calls of a scan *)

Lemma answered_app (a b : list (string * bool)) :
  answered (a ++ b) = answered a ++ answered b.
Proof.
  unfold answered. now rewrite filter_app, map_app.
Qed.

Lemma flat_map_snoc {A B : Type} (f : A -> list B) (l : list A) (x : A) :
  flat_map f (l ++ [x]) = flat_map f l ++ f x.
Proof.
  rewrite flat_map_app. cbn. now rewrite app_nil_r.
Qed.

Section ListingCalls.
Context {R : Remote}.

Lemma listed_paths_error_node (name path : string) (e : exn) :
  listed_paths (error_node name path e) = [].
Proof. reflexivity. Qed.

Lemma listed_paths_file_info (item : SFTPAttributes) (item_path : string)
    (info : value) :
  file_info item item_path = inr info -> listed_paths info = [].
Proof.
  intros H. apply file_info_inv in H. destruct H as [modified ->]. reflexivity.
Qed.

(** The loop over the entries makes the listing calls of its recursive
    calls, one after the other. *)
Lemma scan_items_logged
    (rec : string -> Z -> World -> option (value * World))
    (rec_log : string -> Z -> @World (logged R)
               -> option (value * @World (logged R)))
    (remote_path : string) (max_depth current_depth : Z) :
  (forall p d w log n w',
      rec p d w = Some (n, w') ->
      exists calls,
        rec_log p d (w, log) = Some (n, (w', log ++ calls)) /\
        answered calls = listed_paths n) ->
  forall items acc w log its w',
    scan_items rec remote_path max_depth current_depth items acc w
      = Some (its, w') ->
    exists nodes calls,
      its = acc ++ nodes /\
      @scan_items (logged R) rec_log remote_path max_depth current_depth
        items acc (w, log) = Some (its, (w', log ++ calls)) /\
      answered calls = flat_map listed_paths nodes.
Proof.
  intros Hrec. induction items as [| item rest IH]; intros acc w log its w' H.
  - cbn in *. injection H as <- <-. exists [], []. now rewrite !app_nil_r.
  - cbn [scan_items] in *.
    destruct (is_dot (filename item)); [now apply IH |].
    change (@S_ISDIR (logged R)) with (@S_ISDIR R).
    change (@error_node (logged R)) with (@error_node R).
    change (@file_info (logged R)) with (@file_info R).
    destruct (S_ISDIR (st_mode item)) as [e | [|]].
    + apply IH with (log := log) in H.
      destruct H as (nodes & calls & -> & Hlog & Hans).
      exists (error_node (filename item)
                (join remote_path (filename item)) e :: nodes), calls.
      rewrite <- app_assoc in *. repeat split; assumption.
    + destruct (current_depth <? max_depth).
      * destruct (rec _ _ w) as [[sub w1] |] eqn:Hsub; [| discriminate].
        destruct (Hrec _ _ _ log _ _ Hsub) as (calls1 & -> & Hans1).
        apply IH with (log := log ++ calls1) in H.
        destruct H as (nodes & calls & -> & Hlog & Hans).
        exists (sub :: nodes), (calls1 ++ calls).
        rewrite <- !app_assoc in *. repeat split; [exact Hlog |].
        rewrite answered_app, Hans1, Hans. reflexivity.
      * apply IH with (log := log) in H.
        destruct H as (nodes & calls & -> & Hlog & Hans).
        exists (truncated_node (filename item)
                  (join remote_path (filename item)) :: nodes), calls.
        rewrite <- app_assoc in *. repeat split; assumption.
    + destruct (file_info item _) as [e | info] eqn:Hinfo.
      * apply IH with (log := log) in H.
        destruct H as (nodes & calls & -> & Hlog & Hans).
        exists (error_node (filename item)
                  (join remote_path (filename item)) e :: nodes), calls.
        rewrite <- app_assoc in *. repeat split; assumption.
      * apply IH with (log := log) in H.
        destruct H as (nodes & calls & -> & Hlog & Hans).
        exists (info :: nodes), calls.
        rewrite <- app_assoc in *. repeat split; [exact Hlog |].
        cbn [flat_map]. now rewrite (listed_paths_file_info _ _ _ Hinfo).
Qed.

Lemma scan_directory_fuel_logged (max_depth : Z) (fuel : nat) :
  forall remote_path current_depth w log n w',
    scan_directory_fuel fuel remote_path max_depth current_depth w
      = Some (n, w') ->
    exists calls,
      @scan_directory_fuel (logged R) fuel remote_path max_depth current_depth
        (w, log) = Some (n, (w', log ++ calls)) /\
      answered calls = listed_paths n /\
      (max_depth < current_depth -> calls = []).
Proof.
  induction fuel as [| fuel IH]; intros p d w log n w' H; [discriminate |].
  cbn [scan_directory_fuel] in *.
  destruct (d >? max_depth) eqn:Hguard.
  - injection H as <- <-. exists []. now rewrite app_nil_r.
  - assert (Hle : ~ max_depth < d).
    { intros Hlt. apply Z.gtb_lt in Hlt. congruence. }
    change (@listdir_attr (logged R) p (w, log))
      with (let (answer, w1) := @listdir_attr R p w in
            (answer,
             (w1, log ++ [(p, match answer with
                              | inr _ => true | inl _ => false end)]))).
    destruct (listdir_attr p w) as [[e | items] w1].
    + injection H as <- <-. exists [(p, false)]. now repeat split.
    + change (@now_isoformat (logged R) (w1, log ++ [(p, true)]))
        with (let (t, w2) := @now_isoformat R w1 in
              (t, (w2, log ++ [(p, true)]))).
      destruct (now_isoformat w1) as [scan_time w2].
      destruct (scan_items _ _ _ _ _ _ _) as [[its w3] |] eqn:Hitems;
        [| discriminate].
      injection H as <- <-.
      eapply scan_items_logged with (log := log ++ [(p, true)]) in Hitems.
      * destruct Hitems as (nodes & calls & Hits & Hlog & Hans).
        cbn [app] in Hits. subst nodes.
        rewrite Hlog. exists ((p, true) :: calls).
        rewrite <- app_assoc. cbn [app]. split; [reflexivity |].
        split; [| intros Hlt; contradiction].
        change (p :: answered calls = p :: flat_map listed_paths its).
        now rewrite Hans.
      * intros p' d' w0 log0 n0 w0' Hsub.
        destruct (IH _ _ _ log0 _ _ Hsub) as (calls & Hlog & Hans & _).
        now exists calls.
Qed.

(** X3. The listing calls of a scan, seen by a lister that logs them: the
    scan returns the same tree and leaves the remote in the same state as
    without the log, and the answered calls it adds to the log are the
    paths of the directory nodes that carry [items], each once, a parent
    before its children and the children in listing order. So a truncated
    directory is never listed, and a scan beyond the bound lists nothing. *)
Theorem listing_calls_follow_tree (remote_path : string)
    (max_depth current_depth : Z) (w : World) (log : list (string * bool)) :
  exists n w' calls,
    scan_directory remote_path max_depth current_depth w = Some (n, w') /\
    @scan_directory (logged R) remote_path max_depth current_depth (w, log)
      = Some (n, (w', log ++ calls)) /\
    answered calls = listed_paths n /\
    (max_depth < current_depth -> calls = []).
Proof.
  assert (Htotal : exists n w',
             scan_directory remote_path max_depth current_depth w
               = Some (n, w')).
  { destruct (Z_lt_le_dec max_depth current_depth) as [Hlt | Hle].
    - eexists _, _. now apply scan_beyond_bound.
    - destruct (scan_directory_shape remote_path max_depth current_depth w Hle)
        as (n & w' & Hscan & _).
      now exists n, w'. }
  destruct Htotal as (n & w' & Hscan). exists n, w'.
  destruct (scan_directory_fuel_logged _ _ _ _ _ log _ _ Hscan)
    as (calls & Hlog & Hans & Hnone).
  now exists calls.
Qed.

End ListingCalls.

(* ================================================================== *)
(** * Scan results, by induction *)
(* ================================================================== *)

Lemma Forall2_right {A B : Type} (Rel : A -> B -> Prop) (P : B -> Prop)
    (xs : list A) (ys : list B) :
  Forall2 Rel xs ys ->
  (forall x y, In x xs -> Rel x y -> P y) ->
  Forall P ys.
Proof.
  induction 1 as [| x y xs ys Hxy _ IH]; intros HP; constructor.
  - apply (HP x y); [now left | exact Hxy].
  - apply IH. intros x' y' Hin. apply HP. now right.
Qed.

Section ScanResults.
Context {R : Remote}.

(** Every call of [scan_directory] returns. *)
Lemma scan_directory_total (remote_path : string) (max_depth current_depth : Z)
    (w : World) :
  exists n w',
    scan_directory remote_path max_depth current_depth w = Some (n, w').
Proof.
  destruct (Z_lt_le_dec max_depth current_depth) as [Hlt | Hle].
  - eexists _, _. now apply scan_beyond_bound.
  - destruct (scan_directory_shape remote_path max_depth current_depth w Hle)
      as (n & w' & Hscan & _).
    now exists n, w'.
Qed.

(** Induction on what [scan_directory] returns: a property holds of every
    result when it holds of the four leaves the code builds and passes from
    the items of a listed directory to its node. A file node is built from
    an entry of an answered listing. *)
Lemma scan_result_ind (P : value -> Prop) :
  (forall path, P (guard_node path)) ->
  (forall name path e, P (error_node name path e)) ->
  (forall name path, P (truncated_node name path)) ->
  (forall dir w items w' item item_path info,
      listdir_attr dir w = (inr items, w') ->
      In item items ->
      file_info item item_path = inr info ->
      P info) ->
  (forall path its scan_time,
      Forall P its -> P (listed_node path its scan_time)) ->
  forall remote_path max_depth current_depth w n w',
    scan_directory remote_path max_depth current_depth w = Some (n, w') ->
    P n.
Proof.
  intros Hguard Herror Htruncated Hfile Hlisted remote_path max_depth.
  intros current_depth.
  remember (Z.to_nat (max_depth - current_depth)) as k eqn:Hk.
  revert remote_path current_depth Hk.
  induction k as [k IH] using lt_wf_ind.
  intros remote_path current_depth Hk w n w' Hscan.
  destruct (Z_lt_le_dec max_depth current_depth) as [Hlt | Hle].
  - rewrite scan_beyond_bound in Hscan by exact Hlt.
    injection Hscan as <- _. apply Hguard.
  - rewrite (scan_directory_unfold _ _ _ _ Hle) in Hscan.
    destruct (listdir_attr remote_path w) as [[e | items] w1] eqn:Hlist.
    + injection Hscan as <- _. apply Herror.
    + destruct (now_isoformat w1) as [scan_time w2].
      destruct (scan_items _ _ _ _ _ _ _) as [[its w3] |] eqn:Hitems;
        [| discriminate].
      injection Hscan as <- _. apply Hlisted.
      apply scan_items_entries in Hitems.
      destruct Hitems as (nodes & -> & Hall). cbn [app].
      apply (Forall2_right _ _ _ _ Hall).
      intros item c Hin Hentry.
      apply filter_In in Hin. destruct Hin as [Hin _].
      destruct Hentry as [item e _ | item w0 sub w0' _ Hdeeper Hsub | item _ _
                         | item info _ Hinfo | item e _ _].
      * apply Herror.
      * apply (IH (Z.to_nat (max_depth - (current_depth + 1))))
          with (3 := Hsub); [lia | reflexivity].
      * apply Htruncated.
      * apply (Hfile _ _ _ _ _ _ _ Hlist Hin Hinfo).
      * apply Herror.
Qed.

End ScanResults.

(* ================================================================== *)
(** * Scan results under the renderers *)
(* ================================================================== *)

Ltac distinct_keys :=
  repeat (constructor; [cbn; intuition discriminate |]); constructor.

Section ScanResultsRendered.
Context {R : Remote}.

(** ** Keys *)

Lemma unique_keys_scan (remote_path : string) (max_depth current_depth : Z)
    (w : World) (n : value) (w' : World) :
  scan_directory remote_path max_depth current_depth w = Some (n, w') ->
  unique_keys n.
Proof.
  apply scan_result_ind.
  - intros path. apply unique_keys_dict. split; [distinct_keys |].
    repeat constructor.
  - intros name path e. apply unique_keys_dict. split; [distinct_keys |].
    repeat constructor.
  - intros name path. apply unique_keys_dict. split; [distinct_keys |].
    repeat constructor.
  - intros dir w0 items w0' item item_path info _ _ Hinfo.
    apply file_info_inv in Hinfo. destruct Hinfo as [modified ->].
    apply unique_keys_dict. split; [distinct_keys |].
    repeat constructor; cbn; now destruct (_ item).
  - intros path its scan_time Hits.
    apply unique_keys_dict. split; [distinct_keys |].
    repeat constructor. cbn. now apply unique_keys_list.
Qed.

(** ** The text rendering *)

Lemma text_script_leaf (d : list (string * value)) (line : Z -> string) :
  dict_get "items" d = None ->
  (forall fault repr depth out,
      _write_text_format fault repr (VDict d) depth out
        = write fault (line depth) out) ->
  text_script (VDict d).
Proof.
  intros Hitems H depth. exists [line depth]. split.
  - cbn [node_count length]. f_equal.
    clear H. induction d as [| [k v] d IH]; [reflexivity |].
    cbn [lookup_with dict_get] in *.
    destruct (String.eqb "items" k); [discriminate | now apply IH].
  - intros fault repr out. rewrite H. symmetry. apply write_all_one.
Qed.

Lemma text_script_guard (path : string) : text_script (guard_node path).
Proof.
  apply text_script_leaf with
    (line := fun depth =>
               repeat_string "  " depth ^^ "[DIR] " ^^ basename path ^^ nl);
    [reflexivity |].
  intros fault repr depth out. unfold guard_node.
  rewrite _write_text_format_dict. cbn. apply andthen_skip.
Qed.

Lemma text_script_truncated (name path : string) :
  text_script (truncated_node name path).
Proof.
  apply text_script_leaf with
    (line := fun depth => repeat_string "  " depth ^^ "[DIR] " ^^ name ^^ nl);
    [reflexivity |].
  intros fault repr depth out. unfold truncated_node.
  rewrite _write_text_format_dict. cbn. apply andthen_skip.
Qed.

Lemma text_script_error (name path : string) (e : exn) :
  text_script (error_node name path e).
Proof.
  apply text_script_leaf with
    (line := fun depth =>
               repeat_string "  " depth ^^ "[ERROR] " ^^ name ^^ " - "
                 ^^ error_message e ^^ nl);
    [reflexivity |].
  intros fault repr depth out. unfold error_node.
  rewrite _write_text_format_dict. reflexivity.
Qed.

Lemma text_script_file (item : SFTPAttributes) (item_path : string)
    (info : value) (size : Z) :
  file_info item item_path = inr info ->
  st_size item = Some size -> exact_size size ->
  text_script info.
Proof.
  intros Hinfo Hsize Hexact. apply file_info_inv in Hinfo.
  destruct Hinfo as [modified ->]. rewrite Hsize.
  apply text_script_leaf with
    (line := fun depth =>
               repeat_string "  " depth ^^ "[FILE] " ^^ filename item ^^ " ("
                 ^^ format_2f size ^^ " MB)" ^^ nl);
    [reflexivity |].
  intros fault repr depth out.
  rewrite _write_text_format_dict.
  destruct (size_mb_exact size Hexact) as [Hmb _].
  cbn -[size_mb format_2f]. cbn [value_of_attr]. rewrite Hmb. reflexivity.
Qed.

Lemma text_items_script (its : list value) :
  Forall text_script its ->
  forall depth, exists lines,
    length lines = list_sum (map node_count its) /\
    forall fault repr out,
      text_items fault repr its depth out = write_all fault lines out.
Proof.
  induction 1 as [| c its Hc _ IH]; intros depth.
  - exists []. split; reflexivity.
  - destruct (Hc depth) as (lines & Hlen & Hlines).
    destruct (IH depth) as (lines' & Hlen' & Hlines').
    exists (lines ++ lines'). split.
    + rewrite length_app, Hlen, Hlen'. reflexivity.
    + intros fault repr out. unfold text_items. rewrite each_item_cons.
      rewrite write_all_app. apply andthen_ext; [apply Hlines | apply Hlines'].
Qed.

Lemma text_script_listed (path : string) (its : list value) (t : string) :
  Forall text_script its -> text_script (listed_node path its t).
Proof.
  intros Hits depth.
  destruct (text_items_script its Hits (depth + 1)) as (lines & Hlen & Hlines).
  exists ((repeat_string "  " depth ^^ "[DIR] " ^^ name_or_root path ^^ nl)
            :: lines).
  split.
  - cbn [length]. rewrite Hlen. reflexivity.
  - intros fault repr out. unfold listed_node.
    rewrite _write_text_format_dict. cbn -[write_all text_items].
    cbn [write_all]. apply andthen_ext; [reflexivity | apply Hlines].
Qed.

Lemma text_script_scan (remote_path : string) (max_depth current_depth : Z)
    (w : World) (n : value) (w' : World) :
  reports_sizes R ->
  scan_directory remote_path max_depth current_depth w = Some (n, w') ->
  text_script n.
Proof.
  intros Hsizes. apply scan_result_ind.
  - apply text_script_guard.
  - apply text_script_error.
  - apply text_script_truncated.
  - intros dir w0 items w0' item item_path info Hlist Hin Hinfo.
    pose proof (Hsizes _ _ _ _ Hlist) as Hall.
    rewrite Forall_forall in Hall.
    destruct (Hall item Hin) as (size & Hsize & Hexact).
    now apply (text_script_file item item_path info size).
  - apply text_script_listed.
Qed.

End ScanResultsRendered.

(** ** The report *)

Lemma completes_skip : completes skip.
Proof. intros out. exists []. unfold skip. now rewrite app_nil_r. Qed.

Lemma completes_write (text : string) : completes (write reliable text).
Proof. intros out. now exists [text]. Qed.

Lemma completes_andthen (m1 m2 : writer) :
  completes m1 -> completes m2 -> completes (m1 ;; m2).
Proof.
  intros H1 H2 out. unfold andthen.
  destruct (H1 out) as [texts1 ->]. destruct (H2 (out ++ texts1)) as [texts2 ->].
  exists (texts1 ++ texts2). now rewrite app_assoc.
Qed.

Lemma completes_ext (m m' : writer) :
  (forall out, m out = m' out) -> completes m' -> completes m.
Proof. intros Heq H out. rewrite Heq. apply H. Qed.

Lemma completes_each_item (render : value -> writer) (items : list value) :
  Forall (fun item => completes (render item)) items ->
  completes (each_item render items).
Proof.
  induction 1 as [| item items Hitem _ IH]; [apply completes_skip |].
  rewrite each_item_cons. now apply completes_andthen.
Qed.

Ltac completes_steps :=
  repeat first
    [ apply completes_skip
    | apply completes_write
    | apply completes_andthen
    | match goal with
      | |- completes (if ?c then _ else _) => destruct c
      end ].

Section ReportOfScanResults.
Context {R : Remote}.
Variable repr : value -> string.

Lemma report_script_guard (path : string) : report_script repr (guard_node path).
Proof.
  repeat split.
  - cbn. apply completes_write.
  - now exists false.
  - intros indent. unfold guard_node. rewrite _write_markdown_format_dict.
    cbn -[Z.eqb]. completes_steps.
  - intros indent. cbn. completes_steps.
Qed.

Lemma report_script_truncated (name path : string) :
  report_script repr (truncated_node name path).
Proof.
  repeat split.
  - cbn. apply completes_write.
  - now exists false.
  - intros indent. unfold truncated_node. rewrite _write_markdown_format_dict.
    cbn -[Z.eqb]. completes_steps.
  - intros indent. cbn. completes_steps.
Qed.

Lemma report_script_error (name path : string) (e : exn) :
  report_script repr (error_node name path e).
Proof.
  repeat split.
  - cbn. apply completes_write.
  - now exists false.
  - intros indent. unfold error_node. rewrite _write_markdown_format_dict.
    cbn -[Z.eqb]. completes_steps.
  - intros indent. cbn. completes_steps.
Qed.

Lemma report_script_file (item : SFTPAttributes) (item_path : string)
    (info : value) (size : Z) :
  file_info item item_path = inr info ->
  st_size item = Some size -> exact_size size ->
  report_script repr info.
Proof.
  intros Hinfo Hsize Hexact. apply file_info_inv in Hinfo.
  destruct Hinfo as [modified ->]. rewrite Hsize.
  destruct (size_mb_exact size Hexact) as [Hmb _].
  repeat split.
  - cbn -[size_mb size_str]. cbn [value_of_attr]. rewrite Hmb.
    apply completes_write.
  - now exists false.
  - intros indent. rewrite _write_markdown_format_dict.
    cbn -[Z.eqb size_mb size_str file_details].
    apply completes_andthen; [completes_steps |].
    unfold file_details. cbn -[size_mb size_str]. cbn [value_of_attr].
    rewrite Hmb. completes_steps.
  - intros indent. cbn -[size_mb size_str file_details].
    unfold file_details. cbn -[size_mb size_str]. cbn [value_of_attr].
    rewrite Hmb. completes_steps.
Qed.

Lemma report_children_listed (indent : Z) (its : list value) :
  Forall (report_script repr) its ->
  completes (report_children reliable repr (Some (VList its)) indent).
Proof.
  intros Hits. destruct its as [| c its]; [apply completes_skip |].
  cbn [report_children].
  repeat (apply completes_andthen; [apply completes_write |]).
  apply completes_andthen; [| apply completes_andthen;
                               [apply completes_write |]].
  - apply completes_each_item.
    eapply Forall_impl; [| exact Hits]. now intros c' [Hrow _].
  - apply completes_each_item.
    eapply Forall_impl; [| exact Hits].
    intros c' (_ & [b Hb] & Hblock & _). unfold report_nested_item.
    rewrite Hb. destruct b; [apply Hblock | apply completes_skip].
Qed.

Lemma report_script_listed (path : string) (its : list value) (t : string) :
  Forall (report_script repr) its ->
  report_script repr (listed_node path its t).
Proof.
  intros Hits. repeat split.
  - cbn. apply completes_write.
  - now exists true.
  - intros indent. unfold listed_node. rewrite _write_markdown_format_dict.
    cbn -[Z.eqb report_children].
    apply completes_andthen; [completes_steps |].
    apply completes_andthen; [completes_steps |].
    now apply report_children_listed.
  - intros indent. cbn -[report_children].
    apply completes_andthen; [completes_steps |].
    now apply report_children_listed.
Qed.

Lemma report_script_scan (remote_path : string) (max_depth current_depth : Z)
    (w : World) (n : value) (w' : World) :
  reports_sizes R ->
  scan_directory remote_path max_depth current_depth w = Some (n, w') ->
  report_script repr n.
Proof.
  intros Hsizes. apply scan_result_ind.
  - apply report_script_guard.
  - apply report_script_error.
  - apply report_script_truncated.
  - intros dir w0 items w0' item item_path info Hlist Hin Hinfo.
    pose proof (Hsizes _ _ _ _ Hlist) as Hall.
    rewrite Forall_forall in Hall.
    destruct (Hall item Hin) as (size & Hsize & Hexact).
    now apply (report_script_file item item_path info size).
  - apply report_script_listed.
Qed.

End ReportOfScanResults.

(* ================================================================== *)
(** * The whole run *)
(* ================================================================== *)

(** ** Setting a key *)

Lemma dict_get_dict_set_other (k k' : string) (v : value)
    (d : list (string * value)) :
  String.eqb k k' = false -> dict_get k (dict_set k' v d) = dict_get k d.
Proof.
  intros Hk. induction d as [| [k0 v0] d IH]; cbn [dict_set dict_get].
  - now rewrite Hk.
  - destruct (String.eqb_spec k' k0) as [<- | Hne]; cbn [dict_get].
    + now rewrite Hk.
    + now rewrite IH.
Qed.

Lemma dict_get_dict_set_same (k : string) (v : value)
    (d : list (string * value)) :
  dict_get k (dict_set k v d) = Some v.
Proof.
  induction d as [| [k0 v0] d IH]; cbn [dict_set dict_get].
  - now rewrite String.eqb_refl.
  - destruct (String.eqb_spec k k0) as [<- | Hne]; cbn [dict_get].
    + now rewrite String.eqb_refl.
    + apply String.eqb_neq in Hne. now rewrite Hne.
Qed.

Lemma map_fst_dict_set (k : string) (v : value) (d : list (string * value)) :
  map fst (dict_set k v d) = map fst d \/
  (~ In k (map fst d) /\ map fst (dict_set k v d) = map fst d ++ [k]).
Proof.
  induction d as [| [k0 v0] d IH]; cbn [dict_set map fst].
  - right. split; [intros [] | reflexivity].
  - destruct (String.eqb_spec k k0) as [<- | Hne]; [now left |].
    cbn [map fst]. destruct IH as [-> | [Hnew ->]]; [now left |].
    right. split; [| reflexivity]. intros [Heq | Hin]; [| contradiction].
    now apply Hne.
Qed.

Lemma Forall_dict_set (P : string * value -> Prop) (k : string) (v : value)
    (d : list (string * value)) :
  (forall k', P (k', v)) -> Forall P d -> Forall P (dict_set k v d).
Proof.
  intros Hv. induction 1 as [| [k0 v0] d H0 Hd IH]; cbn [dict_set].
  - constructor; [apply Hv | constructor].
  - destruct (String.eqb k k0); constructor; auto.
Qed.

Lemma unique_keys_dict_set (k : string) (v : value) (d : list (string * value)) :
  unique_keys v -> unique_keys (VDict d) -> unique_keys (VDict (dict_set k v d)).
Proof.
  intros Hv Hd. apply unique_keys_dict in Hd. destruct Hd as [Hnodup Hall].
  apply unique_keys_dict. split.
  - destruct (map_fst_dict_set k v d) as [-> | [Hnew ->]]; [exact Hnodup |].
    apply NoDup_app; [exact Hnodup | repeat constructor; intros [] |].
    intros x Hx Hk. cbn in Hk. destruct Hk as [Heq | Hnone]; [| destruct Hnone].
    subst x. contradiction.
  - apply Forall_dict_set; [intros k'; exact Hv | exact Hall].
Qed.

Section TextWithoutSystemInfo.
Variable fault : sink.
Variable repr : value -> string.

(** The text renderer reads no [system_info]. *)
Lemma text_ignores_system_info (system_info : value)
    (d : list (string * value)) (indent : Z) (out : list string) :
  _write_text_format fault repr (VDict (dict_set "system_info" system_info d))
    indent out
  = _write_text_format fault repr (VDict d) indent out.
Proof.
  rewrite !_write_text_format_dict. unfold get_default.
  now rewrite !dict_get_dict_set_other by reflexivity.
Qed.

Lemma report_body_ignores_system_info (system_info : value)
    (d : list (string * value)) (indent : Z) (out : list string) :
  report_body fault repr (VDict (dict_set "system_info" system_info d))
    indent out
  = report_body fault repr (VDict d) indent out.
Proof.
  unfold report_body, file_details, error_details, get_default.
  now rewrite !dict_get_dict_set_other by reflexivity.
Qed.

End TextWithoutSystemInfo.

(** ** run_scan *)

Section RunScan.
Context {R : Remote} {host : Host R}.

Lemma scan_is_dict (remote_path : string) (max_depth current_depth : Z)
    (w : World) (n : value) (w' : World) :
  scan_directory remote_path max_depth current_depth w = Some (n, w') ->
  exists d, n = VDict d.
Proof.
  apply (scan_result_ind (fun n => exists d, n = VDict d));
    try (intros; eexists; reflexivity).
  intros dir w0 items w0' item item_path info _ _ Hinfo.
  apply file_info_inv in Hinfo. destruct Hinfo as [modified ->].
  eexists; reflexivity.
Qed.

(** What [get_system_info] returns is empty or holds both texts. *)
Lemma get_system_info_shape (w : World) :
  fst (get_system_info w) = VDict [] \/
  exists system_info disk_info,
    fst (get_system_info w)
    = VDict [("system", VStr system_info); ("disk_usage", VStr disk_info)].
Proof.
  unfold get_system_info.
  destruct (exec_command "uname -a" w) as [[system_info |] w1]; [| now left].
  destruct (exec_command "df -h" w1) as [[disk_info |] w2]; [| now left].
  right. now exists system_info, disk_info.
Qed.

(** Once connected and with its settings read, [run_scan] scans, attaches
    the system information and saves. *)
Lemma run_scan_connected (open_fails : bool) (fault : sink)
    (repr : value -> string) (config : ConfigParser) (w w1 : World)
    (root_path : string) (max_depth : Z) (output_format : string) :
  connect_to_nas config w = (Connected, w1) ->
  scan_settings config root_path max_depth output_format ->
  exists tree w3,
    scan_directory root_path max_depth 0 (snd (get_system_info w1))
      = Some (tree, w3) /\
    run_scan open_fails fault repr config w
    = (save_results open_fails fault repr output_format
         (with_system_info (fst (get_system_info w1)) tree),
       release Connected w3).
Proof.
  intros Hconnect (Hroot & Hdepth & [output_file Hfile] & Hformat).
  destruct (scan_directory_total root_path max_depth 0
              (snd (get_system_info w1))) as (tree & w3 & Hscan).
  exists tree, w3. split; [exact Hscan |].
  unfold run_scan. rewrite Hconnect. cbn [connected negb].
  rewrite Hroot, Hdepth.
  destruct (get_system_info w1) as [system_info w2]. cbn [fst snd] in *.
  rewrite Hscan.
  destruct (scan_is_dict _ _ _ _ _ _ Hscan) as [d ->].
  unfold with_system_info, set_item, save_results_configured.
  rewrite Hfile, Hformat.
  destruct (truthy system_info);
    now destruct (save_results open_fails fault repr output_format _).
Qed.

Lemma unique_keys_with_system_info (w : World) (tree : value) :
  unique_keys tree ->
  unique_keys (with_system_info (fst (get_system_info w)) tree).
Proof.
  intros Htree. unfold with_system_info.
  destruct (get_system_info_shape w) as [-> | (a & b & ->)]; [exact Htree |].
  cbn [truthy]. destruct tree as [| | | | | d]; try exact Htree.
  apply unique_keys_dict_set; [| exact Htree].
  apply unique_keys_dict. split; [distinct_keys | repeat constructor].
Qed.

Lemma save_results_json (repr : value -> string) (output_format : string)
    (data : value) :
  lower output_format = "json" ->
  save_results false reliable repr output_format data
  = (true, Some (iterencode data 0)).
Proof.
  intros Hformat. unfold save_results, with_open, json_dump.
  rewrite Hformat. change ("json" =? "json")%string with true. cbv iota.
  now rewrite write_all_reliable.
Qed.

(** X4. A run in the [json] format (in any letter case) succeeds whatever
    the listings answer, a refused root included: once connected and with
    its settings read, [run_scan] returns [True], and the document it
    leaves in the output file reads back, with [json.load], as the very
    result of the scan with the system information attached. *)
Theorem run_scan_json_reads_back (repr : value -> string)
    (config : ConfigParser) (w w1 : World) (root_path : string)
    (max_depth : Z) (output_format : string) :
  connect_to_nas config w = (Connected, w1) ->
  scan_settings config root_path max_depth output_format ->
  lower output_format = "json" ->
  exists tree w3 data texts,
    scan_directory root_path max_depth 0 (snd (get_system_info w1))
      = Some (tree, w3) /\
    data = with_system_info (fst (get_system_info w1)) tree /\
    run_scan false reliable repr config w
      = (true, Some texts, release Connected w3) /\
    json_load (String.concat "" texts) = Some data.
Proof.
  intros Hconnect Hsettings Hformat.
  destruct (run_scan_connected false reliable repr _ _ _ _ _ _
              Hconnect Hsettings) as (tree & w3 & Hscan & Hrun).
  exists tree, w3, (with_system_info (fst (get_system_info w1)) tree),
    (iterencode (with_system_info (fst (get_system_info w1)) tree) 0).
  repeat split; [exact Hscan | |].
  - rewrite Hrun. now rewrite save_results_json.
  - apply json_load_document. apply unique_keys_with_system_info.
    exact (unique_keys_scan _ _ _ _ _ _ Hscan).
Qed.

(** X5. The output format is looked at last. With a configured format that
    is none of [json], [txt] and [md], a connected [run_scan] still makes
    the whole scan (the remote end is left as the scan leaves it, closed),
    then returns [False], and the output file is not opened. *)
Theorem run_scan_rejects_format_after_scan (open_fails : bool) (fault : sink)
    (repr : value -> string) (config : ConfigParser) (w w1 : World)
    (root_path : string) (max_depth : Z) (output_format : string) :
  connect_to_nas config w = (Connected, w1) ->
  scan_settings config root_path max_depth output_format ->
  lower output_format <> "json" ->
  lower output_format <> "txt" ->
  lower output_format <> "md" ->
  exists tree w3,
    scan_directory root_path max_depth 0 (snd (get_system_info w1))
      = Some (tree, w3) /\
    run_scan open_fails fault repr config w
      = (false, None, close_ssh (close_sftp w3)).
Proof.
  intros Hconnect Hsettings Hjson Htxt Hmd.
  destruct (run_scan_connected open_fails fault repr _ _ _ _ _ _
              Hconnect Hsettings) as (tree & w3 & Hscan & Hrun).
  exists tree, w3. split; [exact Hscan |].
  rewrite Hrun. unfold save_results.
  apply String.eqb_neq in Hjson, Htxt, Hmd. now rewrite Hjson, Htxt, Hmd.
Qed.

(** ** Saving a scan whose entries report their sizes *)

Lemma text_of_scan (remote_path : string) (max_depth current_depth : Z)
    (w : World) (n : value) (w' : World) (system_info : value) (depth : Z) :
  reports_sizes R ->
  scan_directory remote_path max_depth current_depth w = Some (n, w') ->
  exists lines,
    length lines = node_count n /\
    forall fault repr out,
      _write_text_format fault repr (with_system_info system_info n) depth out
      = write_all fault lines out.
Proof.
  intros Hsizes Hscan.
  destruct (text_script_scan _ _ _ _ _ _ Hsizes Hscan depth)
    as (lines & Hlen & Hlines).
  exists lines. split; [exact Hlen |]. intros fault repr out.
  rewrite <- (Hlines fault repr out). unfold with_system_info.
  destruct (truthy system_info); [| reflexivity].
  destruct n as [| | | | | d]; try reflexivity.
  apply text_ignores_system_info.
Qed.

Lemma report_of_scan (repr : value -> string) (remote_path : string)
    (max_depth current_depth : Z) (w0 w : World) (n : value) (w' : World) :
  reports_sizes R ->
  scan_directory remote_path max_depth current_depth w = Some (n, w') ->
  completes
    (_write_markdown_format reliable repr
       (with_system_info (fst (get_system_info w0)) n) 0).
Proof.
  intros Hsizes Hscan.
  destruct (report_script_scan repr _ _ _ _ _ _ Hsizes Hscan)
    as (_ & _ & Hblock & Hbody).
  unfold with_system_info.
  destruct (get_system_info_shape w0) as [-> | (a & b & ->)];
    [apply Hblock |].
  cbn [truthy]. destruct n as [| | | | | d]; try apply Hblock.
  eapply completes_ext.
  { intros out. rewrite _write_markdown_format_dict.
    apply andthen_ext; [reflexivity |]. intros out'.
    apply (report_body_ignores_system_info reliable repr). }
  apply completes_andthen; [| apply Hbody].
  cbn [Z.eqb]. unfold report_preamble.
  rewrite dict_get_dict_set_same. cbn [dict_get String.eqb Ascii.eqb Bool.eqb
                                        get_default py_str].
  completes_steps.
Qed.

(** X6. When every listing reports the size of each entry, below [2^53]
    bytes, a connected [run_scan] succeeds in each of the three formats:
    with a destination that opens and takes every write it returns [True]
    and leaves the file written. No shape of the remote tree, no refused
    directory and no entry whose type cannot be read makes a renderer give
    up. *)
Theorem run_scan_saves_every_format (repr : value -> string)
    (config : ConfigParser) (w w1 : World) (root_path : string)
    (max_depth : Z) (output_format : string) :
  reports_sizes R ->
  connect_to_nas config w = (Connected, w1) ->
  scan_settings config root_path max_depth output_format ->
  lower output_format = "json" \/ lower output_format = "txt"
    \/ lower output_format = "md" ->
  exists texts w',
    run_scan false reliable repr config w = (true, Some texts, w').
Proof.
  intros Hsizes Hconnect Hsettings Hformat.
  destruct (run_scan_connected false reliable repr _ _ _ _ _ _
              Hconnect Hsettings) as (tree & w3 & Hscan & Hrun).
  rewrite Hrun. destruct Hformat as [Hjson | [Htxt | Hmd]].
  - rewrite save_results_json by exact Hjson. now eexists _, _.
  - unfold save_results, with_open. rewrite Htxt.
    change ("txt" =? "json")%string with false.
    change ("txt" =? "txt")%string with true. cbv iota.
    destruct (text_of_scan _ _ _ _ _ _ (fst (get_system_info w1)) 0
                Hsizes Hscan) as (lines & _ & Hlines).
    rewrite Hlines, write_all_reliable. now eexists _, _.
  - unfold save_results, with_open. rewrite Hmd.
    change ("md" =? "json")%string with false.
    change ("md" =? "txt")%string with false.
    change ("md" =? "md")%string with true. cbv iota.
    destruct (report_of_scan repr _ _ _ w1 _ _ _ Hsizes Hscan [])
      as [texts ->].
    now eexists _, _.
Qed.

End RunScan.

(** ** Writers that raise *)

Lemma andthen_raises_l (m1 m2 : writer) :
  (forall out, fst (m1 out) = Raised) ->
  forall out, fst ((m1 ;; m2) out) = Raised.
Proof.
  intros H out. unfold andthen. specialize (H out).
  destruct (m1 out) as [[|] out1]; [discriminate | reflexivity].
Qed.

Lemma andthen_raises_r (m1 m2 : writer) :
  (forall out, fst (m2 out) = Raised) ->
  forall out, fst ((m1 ;; m2) out) = Raised.
Proof.
  intros H out. unfold andthen.
  destruct (m1 out) as [[|] out1]; [apply H | reflexivity].
Qed.

(** A loop raises as soon as the rendering of one item does. *)
Lemma each_item_raises (render : value -> writer) (items : list value)
    (c : value) :
  In c items ->
  (forall out, fst (render c out) = Raised) ->
  forall out, fst (each_item render items out) = Raised.
Proof.
  intros Hin Hc. induction items as [| x more IH]; [destruct Hin |].
  rewrite each_item_cons. destruct Hin as [-> | Hin].
  - now apply andthen_raises_l.
  - apply andthen_raises_r. now apply IH.
Qed.

Lemma with_open_raises (open_fails : bool) (body : writer) :
  fst (body []) = Raised -> fst (with_open open_fails body) = false.
Proof.
  intros H. unfold with_open. destruct open_fails; [reflexivity |].
  destruct (body []) as [[|] texts]; [discriminate | reflexivity].
Qed.

Lemma Forall2_In_left {A B : Type} (Rel : A -> B -> Prop) (xs : list A)
    (ys : list B) (x : A) :
  Forall2 Rel xs ys -> In x xs -> exists y, In y ys /\ Rel x y.
Proof.
  induction 1 as [| x0 y0 xs ys Hxy _ IH]; intros Hin; [destruct Hin |].
  destruct Hin as [-> | Hin].
  - exists y0. split; [now left | exact Hxy].
  - destruct (IH Hin) as (y & Hy & Hrel). exists y. split; [now right | exact Hrel].
Qed.

Section SavingScans.
Context {R : Remote}.

(** X7. The text file of a scan has one line per node. When every listing
    reports the size of each entry, below [2^53] bytes, the text renderer
    writes for any scan result a fixed list of lines, as many as the tree
    has nodes, one [write] each: [save_results] in the [txt] format returns
    [True] with exactly these lines in the file, and a destination that
    fails receives the lines before the failing one. *)
Theorem scan_text_one_line_per_node (remote_path : string)
    (max_depth current_depth : Z) (w : World) (n : value) (w' : World) :
  reports_sizes R ->
  scan_directory remote_path max_depth current_depth w = Some (n, w') ->
  exists lines,
    length lines = node_count n /\
    (forall fault repr out,
        _write_text_format fault repr n 0 out = write_all fault lines out) /\
    forall repr,
      save_results false reliable repr "txt" n = (true, Some lines).
Proof.
  intros Hsizes Hscan.
  destruct (text_script_scan _ _ _ _ _ _ Hsizes Hscan 0)
    as (lines & Hlen & Hlines).
  exists lines. repeat split; [exact Hlen | exact Hlines |].
  intros repr. unfold save_results, with_open. cbn [lower lower_char].
  change (String.eqb _ "json") with false.
  change (String.eqb _ "txt") with true. cbv iota.
  now rewrite Hlines, write_all_reliable.
Qed.

(** The node of a regular file whose modification time converts. *)
Lemma sizeless_file_node (remote_path : string) (max_depth current_depth : Z)
    (item : SFTPAttributes) (modified : string) (c : value) :
  S_ISDIR (st_mode item) = inr false ->
  st_size item = None ->
  fromtimestamp_isoformat (st_mtime item) = inr modified ->
  entry_node remote_path max_depth current_depth item c ->
  exists d,
    c = VDict d /\ dict_get "type" d = Some (VStr "file") /\
    dict_get "size" d = Some VNone.
Proof.
  intros Hmode Hsize Htime Hentry.
  destruct Hentry as [item e Hm | item w0 sub w0' Hm _ _ | item Hm _
                     | item info _ Hinfo | item e _ Hinfo];
    try congruence.
  - apply file_info_inv in Hinfo. destruct Hinfo as [modified' ->].
    rewrite Hsize. eexists. repeat split.
  - unfold file_info in Hinfo. rewrite Htime in Hinfo. discriminate.
Qed.

(** X8. An entry without a size breaks the text and the report, not the
    JSON. When a listed directory holds a regular file for which the server
    sent no size (the attribute is [None]), the scan stores [None] as its
    size; [save_results] then returns [False] in the [txt] and [md]
    formats, whatever the destination, for the division of [None] raises,
    while the [json] format still saves the tree. *)
Theorem sizeless_file_breaks_text_and_report (remote_path : string)
    (max_depth : Z) (w w1 : World) (items : list SFTPAttributes)
    (item : SFTPAttributes) (modified : string) :
  0 <= max_depth ->
  listdir_attr remote_path w = (inr items, w1) ->
  In item items ->
  is_dot (filename item) = false ->
  S_ISDIR (st_mode item) = inr false ->
  st_size item = None ->
  fromtimestamp_isoformat (st_mtime item) = inr modified ->
  exists tree w',
    scan_directory remote_path max_depth 0 w = Some (tree, w') /\
    (forall open_fails fault repr,
        fst (save_results open_fails fault repr "txt" tree) = false /\
        fst (save_results open_fails fault repr "md" tree) = false) /\
    forall repr, fst (save_results false reliable repr "json" tree) = true.
Proof.
  intros Hdepth Hlist Hin Hdot Hmode Hsize Htime.
  destruct (scan_directory_total remote_path max_depth 0 w)
    as (tree & w' & Hscan).
  exists tree, w'. split; [exact Hscan |].
  rewrite (scan_directory_unfold _ _ _ _ Hdepth), Hlist in Hscan.
  destruct (now_isoformat w1) as [scan_time w2].
  destruct (scan_items _ _ _ _ _ _ _) as [[its w3] |] eqn:Hitems;
    [| discriminate].
  injection Hscan as <- _.
  apply scan_items_entries in Hitems. destruct Hitems as (nodes & -> & Hall).
  cbn [app].
  assert (Hlisted : In item (listed_entries items)).
  { apply filter_In. split; [exact Hin | now rewrite Hdot]. }
  destruct (Forall2_In_left _ _ _ _ Hall Hlisted) as (c & Hc & Hentry).
  destruct (sizeless_file_node _ _ _ _ _ _ Hmode Hsize Htime Hentry)
    as (d & -> & Htype & Hnone).
  split.
  - intros open_fails fault repr. split.
    + unfold save_results. cbn [lower lower_char].
      change (String.eqb _ "json") with false.
      change (String.eqb _ "txt") with true. cbv iota.
      apply with_open_raises. unfold listed_node.
      rewrite _write_text_format_dict. cbn -[text_items].
      apply andthen_raises_r. apply (each_item_raises _ _ _ Hc).
      intros out. rewrite _write_text_format_dict. cbn zeta.
      rewrite Htype, Hnone. reflexivity.
    + unfold save_results. cbn [lower lower_char].
      change (String.eqb _ "json") with false.
      change (String.eqb _ "txt") with false.
      change (String.eqb _ "md") with true. cbv iota.
      apply with_open_raises. unfold listed_node.
      rewrite _write_markdown_format_dict. cbn -[report_children].
      do 2 apply andthen_raises_r.
      destruct nodes as [| c0 nodes]; [destruct Hc |].
      cbn [report_children].
      do 2 apply andthen_raises_r. apply andthen_raises_l.
      apply (each_item_raises _ _ _ Hc).
      intros out. unfold table_row. rewrite Htype, Hnone. reflexivity.
  - intros repr. now rewrite save_results_json.
Qed.

End SavingScans.

(* ================================================================== *)
(** * The depth that remains *)
(* ================================================================== *)

Section RemainingDepth.
Context {R : Remote}.

Lemma scan_items_shifted
    (rec rec' : string -> Z -> World -> option (value * World))
    (remote_path : string) (max_depth current_depth k : Z) :
  (forall p w, rec' p (current_depth + k + 1) w = rec p (current_depth + 1) w) ->
  forall items acc w,
    scan_items rec' remote_path (max_depth + k) (current_depth + k) items acc w
    = scan_items rec remote_path max_depth current_depth items acc w.
Proof.
  intros Hrec. induction items as [| item rest IH]; intros acc w;
    [reflexivity |].
  cbn [scan_items]. destruct (is_dot (filename item)); [apply IH |].
  destruct (S_ISDIR (st_mode item)) as [e | [|]]; [apply IH | |].
  - replace (current_depth + k <? max_depth + k)
      with (current_depth <? max_depth)
      by (destruct (Z.ltb_spec current_depth max_depth),
                   (Z.ltb_spec (current_depth + k) (max_depth + k)); lia).
    destruct (current_depth <? max_depth); [| apply IH].
    rewrite Hrec. destruct (rec _ _ w) as [[sub w1] |]; [apply IH | reflexivity].
  - destruct (file_info item _); apply IH.
Qed.

Lemma scan_directory_fuel_shifted (max_depth k : Z) (fuel : nat) :
  forall remote_path current_depth w,
    scan_directory_fuel fuel remote_path (max_depth + k) (current_depth + k) w
    = scan_directory_fuel fuel remote_path max_depth current_depth w.
Proof.
  induction fuel as [| fuel IH]; intros remote_path current_depth w;
    [reflexivity |].
  cbn [scan_directory_fuel].
  replace (current_depth + k >? max_depth + k)
    with (current_depth >? max_depth)
    by (rewrite !Z.gtb_ltb;
        destruct (Z.ltb_spec max_depth current_depth),
                 (Z.ltb_spec (max_depth + k) (current_depth + k)); lia).
  destruct (current_depth >? max_depth); [reflexivity |].
  destruct (listdir_attr remote_path w) as [[e | items] w1]; [reflexivity |].
  destruct (now_isoformat w1) as [scan_time w2].
  rewrite (scan_items_shifted
             (fun p d => scan_directory_fuel fuel p max_depth d)
             (fun p d => scan_directory_fuel fuel p (max_depth + k) d));
    [reflexivity |].
  intros p w0. replace (current_depth + k + 1) with (current_depth + 1 + k)
    by lia.
  apply IH.
Qed.

(** X9. Only the depth that remains matters. Shifting [max_depth] and
    [current_depth] by the same amount changes nothing: the tree returned
    and the remote end afterwards depend on the path, on the difference
    [max_depth - current_depth] and on the answers of the lister alone, so
    [scan_directory] is a function of the path and the remaining depth. *)
Theorem scan_depends_on_remaining_depth (remote_path : string)
    (max_depth current_depth k : Z) (w : World) :
  scan_directory remote_path (max_depth + k) (current_depth + k) w
  = scan_directory remote_path max_depth current_depth w.
Proof.
  unfold scan_directory.
  replace (max_depth + k - (current_depth + k)) with (max_depth - current_depth)
    by lia.
  apply scan_directory_fuel_shifted.
Qed.

End RemainingDepth.

(* ================================================================== *)
(** * Small files *)
(* ================================================================== *)

Lemma format_2f_small (size : Z) : 0 <= size <= 5242 -> format_2f size = "0.00".
Proof.
  intros Hsize. unfold format_2f, round_half_even.
  rewrite Z.abs_eq by lia.
  assert (Hq : size * 100 / MiB = 0) by (apply Z.div_small; unfold MiB; lia).
  assert (Hr : (size * 100) mod MiB = size * 100)
    by (apply Z.mod_small; unfold MiB; lia).
  rewrite Hq, Hr.
  destruct (size <? 0) eqn:Hneg; [apply Z.ltb_lt in Hneg; lia |].
  assert (Hgt : (2 * (size * 100) >? MiB) = false).
  { rewrite Z.gtb_ltb. apply Z.ltb_ge. unfold MiB. lia. }
  assert (Heq : (2 * (size * 100) =? MiB) = false).
  { apply Z.eqb_neq. unfold MiB. lia. }
  rewrite Hgt, Heq. reflexivity.
Qed.

Section SmallFiles.
Variable fault : sink.
Variable repr : value -> string.

(** X10. Files below 5243 bytes show as [0.00 MB]. For a file node with a
    size from 0 to 5242 bytes the text renderer writes the line
    [[FILE] <name> (0.00 MB)], the same for all of them; in the table of the
    report such a file shows [0.00 MB] when it holds at least one byte and
    [0 B] only when it is empty. *)
Theorem small_files_show_zero (d : list (string * value)) (name : string)
    (size indent : Z) (out : list string) :
  dict_get "type" d = Some (VStr "file") ->
  dict_get "name" d = Some (VStr name) ->
  dict_get "size" d = Some (VInt size) ->
  0 <= size <= 5242 ->
  _write_text_format fault repr (VDict d) indent out
    = write fault (repeat_string "  " indent ^^ "[FILE] " ^^ name
                     ^^ " (0.00 MB)" ^^ nl) out /\
  table_row fault repr (VDict d) out
    = write fault ("| 📄 文件 | " ^^ name ^^ " | "
                     ^^ (if size =? 0 then "0 B" else "0.00 MB") ^^ " | "
                     ^^ get_default repr "modified" d "未知" ^^ " | "
                     ^^ get_default repr "permissions" d "000" ^^ " |" ^^ nl)
        out.
Proof.
  intros Htype Hname Hsize Hsmall.
  assert (Hexact : exact_size size) by (unfold exact_size; lia).
  destruct (size_mb_exact size Hexact) as [Hmb _].
  split.
  - rewrite _write_text_format_dict. cbn zeta. rewrite Htype, Hsize, Hmb, Hname.
    cbn [eq_str String.eqb Ascii.eqb Bool.eqb emit_with py_str].
    now rewrite format_2f_small.
  - unfold table_row. rewrite Htype, Hsize, Hmb, Hname.
    cbn [eq_str String.eqb Ascii.eqb Bool.eqb emit_with py_str].
    unfold size_str. rewrite format_2f_small by exact Hsmall.
    destruct (Z.eqb_spec size 0) as [-> | Hnz]; [reflexivity |].
    destruct (size >? 0) eqn:Hpos; [reflexivity |].
    rewrite Z.gtb_ltb in Hpos. apply Z.ltb_ge in Hpos. lia.
Qed.

End SmallFiles.

(* ================================================================== *)
(** * load_config *)
(* ================================================================== *)

Lemma check_sections_passes (sections : list string) (config : ConfigParser) :
  Forall (fun section => has_section config section = true) sections ->
  check_sections sections config = None.
Proof.
  induction 1 as [| section more Hsection _ IH]; [reflexivity |].
  cbn [check_sections]. now rewrite Hsection.
Qed.

Lemma check_sections_first_missing (sections : list string)
    (config : ConfigParser) (section : string) :
  In section sections -> has_section config section = false ->
  exists before missing after,
    sections = before ++ missing :: after /\
    Forall (fun s => has_section config s = true) before /\
    has_section config missing = false /\
    check_sections sections config
    = Some (ValueError ("配置文件缺少必要的 [" ^^ missing ^^ "] 部分")).
Proof.
  intros Hin Hmissing. induction sections as [| s more IH]; [destruct Hin |].
  cbn [check_sections]. destruct (has_section config s) eqn:Hs.
  - destruct Hin as [-> | Hin]; [congruence |].
    destruct (IH Hin) as (before & missing & after & -> & Hbefore & Hm & Hcheck).
    exists (s :: before), missing, after.
    repeat split; [now constructor | exact Hm | exact Hcheck].
  - exists [], s, more. repeat split; [constructor | exact Hs].
Qed.

(** X11. [load_config] looks at the sections only. A configuration file that
    exists and parses is accepted exactly when it has the three sections
    [NAS_SERVER], [CONNECTION] and [SCAN], whatever options they hold, and
    the file is left as it is; otherwise the [ValueError] names the first of
    the three, in this order, that is missing. A file that does not exist
    is first written with the defaults, which are accepted. *)
Theorem load_config_checks_sections (write_fails : bool)
    (config : ConfigParser) :
  (Forall (fun section => has_section config section = true)
     required_sections ->
   load_config write_fails (Some (Some config))
   = (inr config, Some (Some config))) /\
  (forall section,
      In section required_sections -> has_section config section = false ->
      exists before missing after,
        required_sections = before ++ missing :: after /\
        Forall (fun s => has_section config s = true) before /\
        has_section config missing = false /\
        load_config write_fails (Some (Some config))
        = (inl (ValueError ("配置文件缺少必要的 [" ^^ missing ^^ "] 部分")),
           Some (Some config))) /\
  load_config false None = (inr default_config, Some (Some default_config)).
Proof.
  split; [| split].
  - intros Hall. unfold load_config.
    now rewrite (check_sections_passes _ _ Hall).
  - intros section Hin Hmissing.
    destruct (check_sections_first_missing _ _ _ Hin Hmissing)
      as (before & missing & after & Heq & Hbefore & Hm & Hcheck).
    exists before, missing, after. repeat split; try assumption.
    unfold load_config. now rewrite Hcheck.
  - reflexivity.
Qed.

(* ================================================================== *)
(** * The properties on the small remote tree *)
(* ================================================================== *)

Lemma children_paths_and_names_witness :
  0 <= 5 /\
  listdir_attr (Remote := Scenario.remote) "/root" tt
    = (inr [Scenario.directory_entry "."; Scenario.directory_entry "..";
            Scenario.directory_entry "A"; Scenario.directory_entry "B";
            Scenario.file_entry "g.log" 0], tt) /\
  exists its w',
    scan_directory (R := Scenario.remote) "/root" 5 0 tt
      = Some (listed_node "/root" its
                (fst (now_isoformat (Remote := Scenario.remote) tt)), w') /\
    Forall (fun item => is_dot (filename item) = false)
      (listed_entries
         [Scenario.directory_entry "."; Scenario.directory_entry "..";
          Scenario.directory_entry "A"; Scenario.directory_entry "B";
          Scenario.file_entry "g.log" 0]) /\
    Forall2
      (fun item n =>
         field "path" n = Some (VStr (join "/root" (filename item))) /\
         (has_sep (filename item) = false -> filename item <> "" ->
          field "name" n = Some (VStr (filename item))))
      (listed_entries
         [Scenario.directory_entry "."; Scenario.directory_entry "..";
          Scenario.directory_entry "A"; Scenario.directory_entry "B";
          Scenario.file_entry "g.log" 0]) its.
Proof.
  split; [lia |]. split; [reflexivity |].
  apply (children_paths_and_names (R := Scenario.remote) "/root" 5 0 tt);
    [lia | reflexivity].
Defined.

Lemma file_permissions_digits_witness :
  st_mode (Scenario.file_entry "g.log" 0) = Some 33188 /\
  64 <= 33188 /\
  file_info (R := Scenario.remote) (Scenario.file_entry "g.log" 0) "/root/g.log"
    = inr (Scenario.file_node "g.log" "/root/g.log" 0) /\
  field "permissions" (Scenario.file_node "g.log" "/root/g.log" 0)
    = Some (VStr (permission_digits 33188)).
Proof.
  split; [reflexivity |]. split; [lia |]. split; [reflexivity |].
  apply (file_permissions_digits (R := Scenario.remote)
           (Scenario.file_entry "g.log" 0) "/root/g.log");
    [reflexivity | lia | reflexivity].
Defined.

Lemma reports_sizes_scenario : reports_sizes Scenario.remote.
Proof.
  intros path w items w' Hlist. cbn in Hlist. unfold Scenario.listing in Hlist.
  assert (Hsmall : forall size, 0 <= size < 4294967296 -> exact_size size)
    by (intros size Hsize; apply exact_size_small; exact Hsize).
  repeat match type of Hlist with
         | context [if ?c then _ else _] => destruct c
         end;
    injection Hlist as <- _ || discriminate;
    repeat constructor; eexists; (split; [reflexivity | apply Hsmall; lia]).
Qed.

Lemma run_scan_json_reads_back_witness :
  connect_to_nas (host := ScenarioHost.host) (ScenarioHost.config "JSON") tt = (Connected, tt) /\
  scan_settings (host := ScenarioHost.host) (ScenarioHost.config "JSON") "/root" 5 "JSON" /\
  lower "JSON" = "json" /\
  exists tree w3 data texts,
    scan_directory (R := Scenario.remote) "/root" 5 0 (snd (get_system_info (host := ScenarioHost.host) tt)) = Some (tree, w3) /\
    data = with_system_info (fst (get_system_info (host := ScenarioHost.host) tt)) tree /\
    run_scan (host := ScenarioHost.host) false reliable (fun _ => "") (ScenarioHost.config "JSON") tt
      = (true, Some texts, release (host := ScenarioHost.host) Connected w3) /\
    json_load (String.concat "" texts) = Some data.
Proof.
  assert (Hsettings : scan_settings (host := ScenarioHost.host) (ScenarioHost.config "JSON") "/root" 5 "JSON").
  { repeat split. now exists "nas_structure.json". }
  split; [reflexivity |]. split; [exact Hsettings |]. split; [reflexivity |].
  apply (run_scan_json_reads_back (host := ScenarioHost.host) (fun _ => "") (ScenarioHost.config "JSON")
           tt tt "/root" 5 "JSON"); [reflexivity | exact Hsettings | reflexivity].
Defined.

Lemma run_scan_rejects_format_after_scan_witness :
  connect_to_nas (host := ScenarioHost.host) (ScenarioHost.config "text") tt = (Connected, tt) /\
  scan_settings (host := ScenarioHost.host) (ScenarioHost.config "text") "/root" 5 "text" /\
  lower "text" <> "json" /\ lower "text" <> "txt" /\ lower "text" <> "md" /\
  exists tree w3,
    scan_directory (R := Scenario.remote) "/root" 5 0 (snd (get_system_info (host := ScenarioHost.host) tt)) = Some (tree, w3) /\
    run_scan (host := ScenarioHost.host) false reliable (fun _ => "") (ScenarioHost.config "text") tt
      = (false, None, close_ssh (Host := ScenarioHost.host) (close_sftp (Host := ScenarioHost.host) w3)).
Proof.
  assert (Hsettings : scan_settings (host := ScenarioHost.host) (ScenarioHost.config "text") "/root" 5 "text").
  { repeat split. now exists "nas_structure.json". }
  split; [reflexivity |]. split; [exact Hsettings |].
  split; [discriminate |]. split; [discriminate |]. split; [discriminate |].
  apply (run_scan_rejects_format_after_scan (host := ScenarioHost.host) false reliable (fun _ => "")
           (ScenarioHost.config "text") tt tt "/root" 5 "text");
    [reflexivity | exact Hsettings | discriminate | discriminate | discriminate].
Defined.

Lemma run_scan_saves_every_format_witness :
  reports_sizes Scenario.remote /\
  connect_to_nas (host := ScenarioHost.host) (ScenarioHost.config "md") tt = (Connected, tt) /\
  scan_settings (host := ScenarioHost.host) (ScenarioHost.config "md") "/root" 5 "md" /\
  (lower "md" = "json" \/ lower "md" = "txt" \/ lower "md" = "md") /\
  exists texts w',
    run_scan (host := ScenarioHost.host) false reliable (fun _ => "") (ScenarioHost.config "md") tt
      = (true, Some texts, w').
Proof.
  assert (Hsettings : scan_settings (host := ScenarioHost.host) (ScenarioHost.config "md") "/root" 5 "md").
  { repeat split. now exists "nas_structure.json". }
  split; [exact reports_sizes_scenario |]. split; [reflexivity |].
  split; [exact Hsettings |]. split; [right; right; reflexivity |].
  apply (run_scan_saves_every_format (host := ScenarioHost.host) (fun _ => "") (ScenarioHost.config "md")
           tt tt "/root" 5 "md");
    [exact reports_sizes_scenario | reflexivity | exact Hsettings
    | right; right; reflexivity].
Defined.

Lemma scan_text_one_line_per_node_witness :
  reports_sizes Scenario.remote /\
  exists n w',
    scan_directory (R := Scenario.remote) "/root" 5 0 tt = Some (n, w') /\
    exists lines,
      length lines = node_count n /\
      (forall fault repr out,
          _write_text_format fault repr n 0 out = write_all fault lines out) /\
      forall repr,
        save_results false reliable repr "txt" n = (true, Some lines).
Proof.
  split; [exact reports_sizes_scenario |].
  eexists _, _. split; [reflexivity |].
  apply (scan_text_one_line_per_node (R := Scenario.remote) "/root" 5 0 tt
           _ tt);
    [exact reports_sizes_scenario | reflexivity].
Defined.

Lemma sizeless_file_breaks_text_and_report_witness :
  0 <= 3 /\
  listdir_attr (Remote := Sizeless.remote) "/" tt
    = (inr [mkAttr "notes.txt" (Some 33188) None (Some 1704067200)
              (Some 1000) (Some 1000)], tt) /\
  exists tree w',
    scan_directory (R := Sizeless.remote) "/" 3 0 tt = Some (tree, w') /\
    (forall open_fails fault repr,
        fst (save_results open_fails fault repr "txt" tree) = false /\
        fst (save_results open_fails fault repr "md" tree) = false) /\
    forall repr, fst (save_results false reliable repr "json" tree) = true.
Proof.
  split; [lia |]. split; [reflexivity |].
  apply (sizeless_file_breaks_text_and_report (R := Sizeless.remote) "/" 3 tt tt
           [mkAttr "notes.txt" (Some 33188) None (Some 1704067200)
              (Some 1000) (Some 1000)]
           (mkAttr "notes.txt" (Some 33188) None (Some 1704067200)
              (Some 1000) (Some 1000))
           "2024-01-01T00:00:00");
    [lia | reflexivity | now left | reflexivity | reflexivity | reflexivity
    | reflexivity].
Defined.

Lemma small_files_show_zero_witness :
  dict_get "type" [("type", VStr "file"); ("name", VStr "notes.txt");
                   ("size", VInt 5242)] = Some (VStr "file") /\
  0 <= 5242 <= 5242 /\
  _write_text_format reliable (fun _ => "")
    (VDict [("type", VStr "file"); ("name", VStr "notes.txt");
            ("size", VInt 5242)]) 1 []
    = write reliable ("  [FILE] notes.txt (0.00 MB)" ^^ nl) [] /\
  table_row reliable (fun _ => "")
    (VDict [("type", VStr "file"); ("name", VStr "notes.txt");
            ("size", VInt 5242)]) []
    = write reliable ("| 📄 文件 | notes.txt | 0.00 MB | 未知 | 000 |" ^^ nl) [].
Proof.
  split; [reflexivity |]. split; [lia |].
  apply (small_files_show_zero reliable (fun _ => "")
           [("type", VStr "file"); ("name", VStr "notes.txt");
            ("size", VInt 5242)] "notes.txt" 5242 1 []);
    [reflexivity | reflexivity | reflexivity | lia].
Defined.

(** At 5243 bytes the text changes. *)
Example first_size_shown_as_nonzero : format_2f 5243 = "0.01".
Proof. reflexivity. Qed.

(* ================================================================== *)
(** * What the run reads and what the report shows *)
(* ================================================================== *)

Section RunReads.
Context {R : Remote} {host : Host R}.

(** X12. [include_hidden] and [protocol] are never read. [run_scan]
    depends on the configuration through nine options only (ip, username,
    password, port, timeout, root_path, max_depth, output_file,
    output_format): two configurations that agree on these give the same
    return value, the same output file and the same remote state. Setting
    [include_hidden] changes nothing. *)
Theorem run_scan_reads_nine_options (open_fails : bool) (fault : sink)
    (repr : value -> string) (config config' : ConfigParser) (w : World) :
  Forall (fun o => config_get config (fst o) (snd o)
                   = config_get config' (fst o) (snd o)) read_options ->
  run_scan open_fails fault repr config w
  = run_scan open_fails fault repr config' w.
Proof.
  intros Hagree. unfold read_options in Hagree.
  repeat match goal with
         | H : Forall _ (_ :: _) |- _ =>
             let Hhead := fresh "Hoption" in
             let Htail := fresh "Hrest" in
             apply Forall_cons_iff in H; destruct H as [Hhead Htail];
             cbn [fst snd] in Hhead
         end.
  unfold run_scan, connect_to_nas, config_int, save_results_configured.
  repeat match goal with
         | H : config_get config _ _ = _ |- _ => rewrite H; clear H
         end.
  reflexivity.
Qed.

(** The preamble of the report of a result with both system texts. *)
Lemma report_preamble_with_system_info (repr : value -> string)
    (d : list (string * value)) (system_info disk_info : string)
    (out : list string) :
  report_preamble reliable repr
    (VDict (dict_set "system_info"
              (VDict [("system", VStr system_info);
                      ("disk_usage", VStr disk_info)]) d)) out
  = (Done,
     out ++ ["# NAS目录结构报告" ^^ nl ^^ nl;
             "**扫描时间**: " ^^ get_default repr "scan_time" d "未知"
               ^^ nl ^^ nl;
             "## 系统信息" ^^ nl ^^ nl;
             "**操作系统**: " ^^ system_info ^^ nl ^^ nl;
             "### 磁盘使用情况" ^^ nl ^^ nl;
             "```" ^^ nl;
             disk_info;
             nl ^^ "```" ^^ nl ^^ nl;
             "## 目录结构" ^^ nl ^^ nl]).
Proof.
  unfold report_preamble. rewrite dict_get_dict_set_same.
  unfold get_default at 1.
  rewrite dict_get_dict_set_other by reflexivity.
  fold (get_default repr "scan_time" d "未知").
  cbn [dict_get String.eqb Ascii.eqb Bool.eqb get_default py_str].
  unfold andthen, write, reliable. cbv iota.
  now rewrite <- !app_assoc.
Qed.

(** X13. The report shows the system texts as they came. When both
    commands of [get_system_info] answer and every listing reports its
    sizes, a connected [run_scan] in the [md] format returns [True], and the
    file starts with the title, the scan time of the root (the text [未知]
    when the root could not be listed), the output of [uname -a] after
    [**操作系统**: ] and the output of [df -h], unchanged and in one write,
    inside a literal block; the directory blocks follow. *)
Theorem report_shows_system_info (repr : value -> string)
    (config : ConfigParser) (w w1 w1' w2 : World) (root_path : string)
    (max_depth : Z) (output_format system_info disk_info : string) :
  reports_sizes R ->
  connect_to_nas config w = (Connected, w1) ->
  scan_settings config root_path max_depth output_format ->
  lower output_format = "md" ->
  exec_command "uname -a" w1 = (Some system_info, w1') ->
  exec_command "df -h" w1' = (Some disk_info, w2) ->
  exists tree w3 blocks,
    scan_directory root_path max_depth 0 w2 = Some (tree, w3) /\
    run_scan false reliable repr config w
    = (true,
       Some (["# NAS目录结构报告" ^^ nl ^^ nl;
              "**扫描时间**: " ^^ scan_time_text repr tree ^^ nl ^^ nl;
              "## 系统信息" ^^ nl ^^ nl;
              "**操作系统**: " ^^ system_info ^^ nl ^^ nl;
              "### 磁盘使用情况" ^^ nl ^^ nl;
              "```" ^^ nl;
              disk_info;
              nl ^^ "```" ^^ nl ^^ nl;
              "## 目录结构" ^^ nl ^^ nl] ++ blocks),
       release Connected w3).
Proof.
  intros Hsizes Hconnect Hsettings Hformat Huname Hdf.
  destruct (run_scan_connected false reliable repr _ _ _ _ _ _
              Hconnect Hsettings) as (tree & w3 & Hscan & Hrun).
  assert (Hinfo : get_system_info w1
                  = (VDict [("system", VStr system_info);
                            ("disk_usage", VStr disk_info)], w2)).
  { unfold get_system_info. now rewrite Huname, Hdf. }
  rewrite Hinfo in Hscan, Hrun. cbn [fst snd] in Hscan, Hrun.
  destruct (scan_is_dict _ _ _ _ _ _ Hscan) as [d ->].
  destruct (report_script_scan repr _ _ _ _ _ _ Hsizes Hscan)
    as (_ & _ & _ & Hbody).
  pose proof (report_preamble_with_system_info repr d system_info disk_info [])
    as Hpreamble.
  cbn [app] in Hpreamble.
  match type of Hpreamble with
  | _ = (Done, ?texts) => destruct (Hbody 0 texts) as [blocks Hblocks]
  end.
  exists (VDict d), w3, blocks. split; [exact Hscan |].
  rewrite Hrun. unfold save_results, with_open. rewrite Hformat.
  change ("md" =? "json")%string with false.
  change ("md" =? "txt")%string with false.
  change ("md" =? "md")%string with true. cbv iota.
  unfold with_system_info. cbn [truthy].
  rewrite _write_markdown_format_dict. cbn [Z.eqb].
  unfold andthen at 1. rewrite Hpreamble.
  fold (report_body reliable repr
          (VDict (dict_set "system_info"
                    (VDict [("system", VStr system_info);
                            ("disk_usage", VStr disk_info)]) d)) 0).
  rewrite report_body_ignores_system_info, Hblocks. reflexivity.
Qed.

End RunReads.

Lemma run_scan_reads_nine_options_witness :
  Forall (fun o => config_get (ScenarioHost.config "json") (fst o) (snd o)
                   = config_get (ScenarioHost.config_hidden "json")
                       (fst o) (snd o)) read_options /\
  run_scan (host := ScenarioHost.host) false reliable (fun _ => "")
    (ScenarioHost.config "json") tt
  = run_scan (host := ScenarioHost.host) false reliable (fun _ => "")
      (ScenarioHost.config_hidden "json") tt.
Proof.
  assert (Hagree :
            Forall (fun o => config_get (ScenarioHost.config "json")
                               (fst o) (snd o)
                             = config_get (ScenarioHost.config_hidden "json")
                                 (fst o) (snd o)) read_options)
    by (repeat constructor).
  split; [exact Hagree |].
  apply (run_scan_reads_nine_options (host := ScenarioHost.host) false reliable
           (fun _ => "") (ScenarioHost.config "json")
           (ScenarioHost.config_hidden "json") tt Hagree).
Defined.

Lemma report_shows_system_info_witness :
  reports_sizes Scenario.remote /\
  connect_to_nas (host := ScenarioHost.host) (ScenarioHost.config "md") tt
    = (Connected, tt) /\
  scan_settings (host := ScenarioHost.host) (ScenarioHost.config "md")
    "/root" 5 "md" /\
  lower "md" = "md" /\
  exec_command (Host := ScenarioHost.host) "uname -a" tt
    = (Some "Linux nas 5.10", tt) /\
  exec_command (Host := ScenarioHost.host) "df -h" tt
    = (Some "/dev/sda1 100G 40G 60G 40% /", tt) /\
  exists tree w3 blocks,
    scan_directory (R := Scenario.remote) "/root" 5 0 tt = Some (tree, w3) /\
    run_scan (host := ScenarioHost.host) false reliable (fun _ => "")
      (ScenarioHost.config "md") tt
    = (true,
       Some (["# NAS目录结构报告" ^^ nl ^^ nl;
              "**扫描时间**: " ^^ scan_time_text (fun _ => "") tree ^^ nl ^^ nl;
              "## 系统信息" ^^ nl ^^ nl;
              "**操作系统**: " ^^ "Linux nas 5.10" ^^ nl ^^ nl;
              "### 磁盘使用情况" ^^ nl ^^ nl;
              "```" ^^ nl;
              "/dev/sda1 100G 40G 60G 40% /";
              nl ^^ "```" ^^ nl ^^ nl;
              "## 目录结构" ^^ nl ^^ nl] ++ blocks),
       release (host := ScenarioHost.host) Connected w3).
Proof.
  assert (Hsettings : scan_settings (host := ScenarioHost.host)
                        (ScenarioHost.config "md") "/root" 5 "md").
  { repeat split. now exists "nas_structure.json". }
  split; [exact reports_sizes_scenario |]. split; [reflexivity |].
  split; [exact Hsettings |]. split; [reflexivity |].
  split; [reflexivity |]. split; [reflexivity |].
  apply (report_shows_system_info (host := ScenarioHost.host) (fun _ => "")
           (ScenarioHost.config "md") tt tt tt tt "/root" 5 "md"
           "Linux nas 5.10" "/dev/sda1 100G 40G 60G 40% /");
    [exact reports_sizes_scenario | reflexivity | exact Hsettings
    | reflexivity | reflexivity | reflexivity].
Defined.
